(** * vk-board-clean: adjacent-duplicate cleaner for a discussion thread

    A shallow embedding of [index.js] and the properties of its core:
    the text and attachment normalizers, the resilient call wrapper
    [withRetries], the ascending paginator [iterAsc], the duplicate planner
    [planDeletionsAsc], the bounded executor [pMap], the deletion
    orchestrator [deleteBatch] and [main] from [setupSignals()] on, in
    runs in which no signal is delivered.

    Conventions of the embedding:
    - a JavaScript string is the list of its UTF-16 code units ([jsstring]);
    - integers of the remote API (identifiers, counts, numeric error
      codes) and the counters of the program are [Z]; a number that a caller
      or the command line sets ([maxRetries], [concurrency]) is a
      [JsNumber]: [NaN] or a finite value, which need not be whole
      ([clamp] lets both through); the code of an error is a number or a
      string;
    - asynchronous code runs on one logical thread: a function that awaits
      is a state transformer on an explicit world, and the overlap of
      in-flight workers in [pMap] is a transition system driven by a
      schedule (which in-flight worker's awaited call settles next). *)

From Stdlib Require Import ZArith NArith QArith Qround Lia Ascii String.
From stdpp Require Import base tactics option list numbers sorting pretty.

Local Open Scope N_scope.

(** ** JavaScript strings *)

Definition jsstring := list N.

(** A string literal of the source, as code units. *)
Definition js (s : string) : jsstring :=
  List.map N_of_ascii (list_ascii_of_string s).

(** [String(n)] and the template substitution of an integer. *)
Definition String_of_Z (z : Z) : jsstring := js (pretty z).

(** Character classes of the regular expressions of [normalizeText]. *)
Definition NBSP : N := 0xA0.
Definition SPACE : N := 0x20.
Definition TAB : N := 0x09.
Definition LF : N := 0x0A.

(** The class of U+200B, U+200C, U+200D and U+FEFF. *)
Definition is_zero_width (c : N) : bool :=
  (c =? 0x200B) || (c =? 0x200C) || (c =? 0x200D) || (c =? 0xFEFF).

(** [[ \t]] *)
Definition is_blank (c : N) : bool := (c =? SPACE) || (c =? TAB).

(** [\s] of ECMAScript (WhiteSpace and LineTerminator), which is also the
    set that [String.prototype.trim] strips. *)
Definition is_space (c : N) : bool :=
  ((0x09 <=? c) && (c <=? 0x0D)) || (c =? 0x20) || (c =? 0xA0)
  || (c =? 0x1680) || ((0x2000 <=? c) && (c <=? 0x200A))
  || (c =? 0x2028) || (c =? 0x2029) || (c =? 0x202F) || (c =? 0x205F)
  || (c =? 0x3000) || (c =? 0xFEFF).

(** [.replace(/\u00A0/g, ' ')] *)
Definition replace_nbsp (s : jsstring) : jsstring :=
  List.map (fun c => if c =? NBSP then SPACE else c) s.

(** [.replace(/[\u200B\u200C\u200D\uFEFF]/g, '')] *)
Definition strip_zero_width (s : jsstring) : jsstring :=
  List.filter (fun c => negb (is_zero_width c)) s.

(** [.replace(/[ \t]+/g, ' ')]: every maximal run of blanks becomes one
    space (emitted when the run ends). *)
Fixpoint collapse_blanks (s : jsstring) : jsstring :=
  match s with
  | [] => []
  | c :: r =>
      if is_blank c then
        match r with
        | d :: _ => if is_blank d then collapse_blanks r
                    else SPACE :: collapse_blanks r
        | [] => [SPACE]
        end
      else c :: collapse_blanks r
  end.

(** Does the maximal whitespace prefix of [s] hold a line feed? *)
Fixpoint space_run_has_lf (s : jsstring) : bool :=
  match s with
  | [] => false
  | c :: r => is_space c && ((c =? LF) || space_run_has_lf r)
  end.

(** [.replace(/\s*\n\s*/g, '\n')]: the leftmost match starts where a
    maximal whitespace run starts, and by greedy matching with
    backtracking it covers the whole run whenever the run holds a line
    feed; a run without one matches nowhere. [eaten] tells that the
    scanner is inside a run already replaced. *)
Fixpoint collapse_newlines_from (eaten : bool) (s : jsstring) : jsstring :=
  match s with
  | [] => []
  | c :: r =>
      if is_space c then
        if eaten then collapse_newlines_from true r
        else if space_run_has_lf s then LF :: collapse_newlines_from true r
        else c :: collapse_newlines_from false r
      else c :: collapse_newlines_from false r
  end.

Definition collapse_newlines : jsstring -> jsstring :=
  collapse_newlines_from false.

Fixpoint trim_start (s : jsstring) : jsstring :=
  match s with
  | [] => []
  | c :: r => if is_space c then trim_start r else s
  end.

(** [.trim()] *)
Definition trim (s : jsstring) : jsstring :=
  rev (trim_start (rev (trim_start s))).

(** *** The shape of a normalized text *)

(** A property of every pair of neighbours in a string. *)
Fixpoint adjacent (Rel : N -> N -> Prop) (s : jsstring) : Prop :=
  match s with
  | [] => True
  | c :: r => match r with d :: _ => Rel c d | [] => True end /\ adjacent Rel r
  end.

(** No two spaces in a row. *)
Definition single_spaces : jsstring -> Prop :=
  adjacent (fun c d => ~ (c = SPACE /\ d = SPACE)).

(** No line feed next to another whitespace character. *)
Definition lone_line_feeds : jsstring -> Prop :=
  adjacent (fun c d => ~ (c = LF /\ is_space d = true)
                       /\ ~ (is_space c = true /\ d = LF)).

(** The string does not start with whitespace. *)
Definition starts_solid (s : jsstring) : Prop :=
  match s with
  | [] => True
  | c :: _ => is_space c = false
  end.

(** What every normalized text satisfies. *)
Definition normal_text (y : jsstring) : Prop :=
  Forall (fun c => c <> NBSP) y
  /\ Forall (fun c => is_zero_width c = false) y
  /\ Forall (fun c => c <> TAB) y
  /\ single_spaces y
  /\ lone_line_feeds y
  /\ trim y = y.

(** ** The engine's [String.prototype.toLowerCase]

    The case mapping is the engine's (its Unicode tables are not part of
    the program), so the normalizer takes it through an interface that
    records the two facts the program relies on. *)

Class LowerCase := {
  toLowerCase : jsstring -> jsstring;
  toLowerCase_empty : toLowerCase [] = [];
  toLowerCase_nbsp : forall s, ~ List.In NBSP s -> ~ List.In NBSP (toLowerCase s)
}.

(** A value read from a property that should hold a string. *)
Inductive JsText :=
  | TextUndefined
  | TextNull
  | TextStr (s : jsstring).

(** [s || ''] *)
Definition text_or_empty (s : JsText) : jsstring :=
  match s with
  | TextStr (c :: r) => c :: r
  | _ => []
  end.

Section Normalizer.
Context {LC : LowerCase}.

Definition normalizeText (s : JsText) : jsstring :=
  trim
    (collapse_newlines
      (collapse_blanks
        (strip_zero_width
          (toLowerCase
            (replace_nbsp (text_or_empty s)))))).
End Normalizer.

(** *** A case mapping for the blocks the tool meets

    As ECMAScript defines it, [toLowerCase] maps the code points of the
    string ([StringToCodePoints], which pairs surrogates), not its code
    units. [lower_code_point] covers Basic Latin, Latin-1, Cyrillic and
    Deseret; every other code point, a lone surrogate included, is left
    as it is. *)

Definition is_high_surrogate (c : N) : bool := (0xD800 <=? c) && (c <=? 0xDBFF).
Definition is_low_surrogate (c : N) : bool := (0xDC00 <=? c) && (c <=? 0xDFFF).

Fixpoint StringToCodePoints (s : jsstring) : list N :=
  match s with
  | [] => []
  | h :: r =>
      match r with
      | l :: r' =>
          if is_high_surrogate h && is_low_surrogate l
          then (0x10000 + (h - 0xD800) * 0x400 + (l - 0xDC00)) :: StringToCodePoints r'
          else h :: StringToCodePoints r
      | [] => [h]
      end
  end.

Definition code_units (cp : N) : jsstring :=
  if cp <? 0x10000 then [cp]
  else [0xD800 + (cp - 0x10000) / 0x400; 0xDC00 + (cp - 0x10000) mod 0x400].

Definition CodePointsToString (cps : list N) : jsstring :=
  List.concat (List.map code_units cps).

Definition lower_code_point (cp : N) : N :=
  if (0x41 <=? cp) && (cp <=? 0x5A) then cp + 0x20
  else if (0xC0 <=? cp) && (cp <=? 0xDE) && negb (cp =? 0xD7) then cp + 0x20
  else if (0x400 <=? cp) && (cp <=? 0x40F) then cp + 0x50
  else if (0x410 <=? cp) && (cp <=? 0x42F) then cp + 0x20
  else if (0x10400 <=? cp) && (cp <=? 0x10427) then cp + 0x28
  else cp.

Definition lower_blocks (s : jsstring) : jsstring :=
  CodePointsToString (List.map lower_code_point (StringToCodePoints s)).

(** ** Attachment signature *)

Local Open Scope Z_scope.

(** The object stored under the attachment's own type name ([a[a.type]]):
    the fields [attsHash] reads. Identifiers are JSON integers; an absent
    or [null] field is [None]. *)
Record AttachmentBody := {
  owner_id : option Z;
  body_id : option Z;
  sticker_id : option Z;
  url : option jsstring;
  link : option jsstring
}.

Record Attachment := {
  att_type : option jsstring;        (* [a.type] *)
  att_body : option AttachmentBody   (* [a[a.type]] *)
}.

Definition empty_body : AttachmentBody :=
  {| owner_id := None; body_id := None; sticker_id := None;
     url := None; link := None |}.

(** [x || y] on optional strings: the empty string is falsy. *)
Definition str_or (x : option jsstring) (y : jsstring) : jsstring :=
  match x with
  | Some (c :: r) => c :: r
  | _ => y
  end.

(** The callback of [atts.map]. *)
Definition attachment_tuple (a : Attachment) : jsstring :=
  match att_type a with
  | Some (c :: r) =>
      let t := c :: r in
      let obj := default empty_body (att_body a) in
      let o := from_option String_of_Z [] (owner_id obj) in
      let id := from_option String_of_Z [] (body_id obj) in
      let stickerId :=
        from_option (fun n => js "st:" ++ String_of_Z n) [] (sticker_id obj) in
      let u := str_or (url obj) (str_or (link obj) []) in
      t ++ js ":" ++ o ++ js ":" ++ id ++ js ":" ++ stickerId ++ js ":" ++ u
  | _ => js "unknown:"
  end.

(** The default comparison of [Array.prototype.sort] on strings: code
    unit by code unit. *)
Fixpoint str_leb (a b : jsstring) : bool :=
  match a, b with
  | [], _ => true
  | _ :: _, [] => false
  | x :: a', y :: b' =>
      if (x <? y)%N then true
      else if (y <? x)%N then false
      else str_leb a' b'
  end.

Definition str_le (a b : jsstring) : Prop := str_leb a b = true.

#[global] Instance str_le_dec (a b : jsstring) : Decision (str_le a b).
Proof. unfold str_le. apply _. Defined.

(** [.sort()]: the order of equal strings is immaterial, so any sorting
    algorithm yields the array the engine yields. *)
Definition sort_strings : list jsstring -> list jsstring := merge_sort str_le.

(** [.join(sep)] *)
Fixpoint join (sep : jsstring) (l : list jsstring) : jsstring :=
  match l with
  | [] => []
  | [x] => x
  | x :: r => x ++ sep ++ join sep r
  end.

(** [attsHash(atts, ignore)]; [None] stands for an absent list (the
    default parameter makes it [[]]) or a value that is no array. The
    callback cannot throw on JSON data, which leaves the [catch] branch
    without a case. *)
Definition attsHash (atts : option (list Attachment)) (ignore : bool) : jsstring :=
  match atts with
  | Some l =>
      if ignore || (length l =? 0)%nat then []
      else join (js "|") (sort_strings (List.map attachment_tuple l))
  | None => []
  end.

(** ** Thread entries and the duplicate planner's loop body *)

Record Entry := {
  id : Z;
  from_id : Z;
  text : JsText;
  attachments : option (list Attachment)
}.

Definition jsstring_eqb (a b : jsstring) : bool := bool_decide (a = b).

Section Planner.
Context {LC : LowerCase}.
Variable ignoreAtts : bool.

Definition sameAuthor (prevKept cur : Entry) : bool :=
  from_id prevKept =? from_id cur.
Definition sameText (prevKept cur : Entry) : bool :=
  jsstring_eqb (normalizeText (text prevKept)) (normalizeText (text cur)).
Definition sameAtts (prevKept cur : Entry) : bool :=
  jsstring_eqb (attsHash (attachments prevKept) ignoreAtts)
               (attsHash (attachments cur) ignoreAtts).

(** The state of the loop: [prevKept] and [toDelete]. *)
Definition PlanState : Type := option Entry * list Z.

(** One turn of the [for await] loop of [planDeletionsAsc]. *)
Definition plan_step (st : PlanState) (cur : Entry) : PlanState :=
  match st with
  | (None, toDelete) => (Some cur, toDelete)
  | (Some prevKept, toDelete) =>
      if sameAuthor prevKept cur && sameText prevKept cur && sameAtts prevKept cur
      then (Some prevKept, toDelete ++ [id cur])
      else (Some cur, toDelete)
  end.

(** The loop over a sequence of yielded entries. *)
Definition plan_loop (entries : list Entry) (st : PlanState) : PlanState :=
  fold_left plan_step entries st.

(** The plan for a whole sequence: what [planDeletionsAsc] returns when
    the paginator yields [entries]. *)
Definition plan_entries (entries : list Entry) : list Z :=
  snd (plan_loop entries (None, [])).

(** Equality of signatures, as the loop body tests it. *)
Definition same_signature (a b : Entry) : bool :=
  sameAuthor a b && sameText a b && sameAtts a b.
End Planner.

(** ** JavaScript numbers *)

(** A number that reaches the program from outside: [NaN] or a finite
    value. Every finite double is a rational, and the program only
    compares these numbers with its own integer counters. *)
Inductive JsNumber :=
  | NaN
  | Num (q : Q).

(** A whole number. *)
Definition Int (z : Z) : JsNumber := Num (inject_Z z).

(** [a >= x] for an integer [a]: every comparison with [NaN] is false. *)
Definition ge_number (a : Z) (x : JsNumber) : bool :=
  match x with
  | NaN => false
  | Num q => Qle_bool q (inject_Z a)
  end.

(** [a < x] for an integer [a] and a finite [x]. *)
Definition lt_number (a : Z) (x : Q) : bool := negb (Qle_bool x (inject_Z a)).

(** [Math.max(x, y)] on finite numbers. *)
Definition Math_max (x y : Q) : Q := if Qle_bool x y then y else x.

(** The conversion of a string to a number by the host ([ToNumber] of
    ECMAScript, with its rounding), which the relational operators apply
    to a string operand. *)
Class ToNumber := {
  StringToNumber : jsstring -> JsNumber
}.

(** ** Failures and the resilient call wrapper *)

(** [e.code]: absent, a whole number (the [error_code] of the remote
    API), a string (the codes of the host's own errors, such as
    [ECONNRESET]), or any other value ([null], a boolean, a number that is
    not whole, an object), given by the text it prints as and the number
    it converts to. *)
Inductive JsCode :=
  | code_absent
  | code_int (c : Z)
  | code_string (s : jsstring)
  | code_other (text : jsstring) (number : JsNumber).

(** A thrown value, as far as the program inspects it: [e.code],
    [e.message], [e.error_msg] and [String(e)]. *)
Record JsError := {
  err_code : JsCode;
  err_message : option jsstring;
  err_error_msg : option jsstring;
  err_string : jsstring
}.

(** [new Error(msg)] *)
Definition new_Error (msg : jsstring) : JsError :=
  {| err_code := code_absent; err_message := Some msg; err_error_msg := None;
     err_string := js "Error: " ++ msg |}.

(** [e.message || e.error_msg || String(e)] *)
Definition error_text (e : JsError) : jsstring :=
  str_or (err_message e) (str_or (err_error_msg e) (err_string e)).

(** [x >= 500 && x < 600] on a number. *)
Definition is_5xx (x : JsNumber) : bool :=
  match x with
  | Num q => Qle_bool 500 q && negb (Qle_bool 600 q)
  | NaN => false
  end.

(** [code === 6 || code === 10 || (code >= 500 && code < 600)]. Only a
    number is strictly equal to a number, and [>=] and [<] compare the
    number the code converts to; [undefined] converts to [NaN]. *)
Definition retriable {TN : ToNumber} (code : JsCode) : bool :=
  match code with
  | code_int c => (c =? 6) || (c =? 10) || ((500 <=? c) && (c <? 600))
  | code_string s => is_5xx (StringToNumber s)
  | code_other _ number => is_5xx number
  | code_absent => false
  end.

(** The substitution of [code] in a template: a string as it is,
    [undefined] without a code. *)
Definition code_text (code : JsCode) : jsstring :=
  match code with
  | code_int c => String_of_Z c
  | code_string s => s
  | code_other text _ => text
  | code_absent => js "undefined"
  end.

(** [`VK API failed: code=${code}, msg=${message}, attempt=${attempt}`] *)
Definition failure_text (code : JsCode) (message : jsstring) (attempt : Z) : jsstring :=
  js "VK API failed: code=" ++ code_text code ++ js ", msg=" ++ message
    ++ js ", attempt=" ++ String_of_Z attempt.

(** How an awaited operation settles. *)
Inductive Outcome (A : Type) :=
  | Returned (a : A)
  | Thrown (e : JsError).
Arguments Returned {A} a.
Arguments Thrown {A} e.

(** The result of a function of the model that loops: [OutOfFuel] is the
    model's bound, not a behaviour of the program. *)
Inductive Result (A : Type) :=
  | Ok (a : A)
  | Raise (e : JsError)
  | OutOfFuel.
Arguments Ok {A} a.
Arguments Raise {A} e.
Arguments OutOfFuel {A}.

(** One turn of the [while (true)] loop of [withRetries]. *)
Inductive Turn (A : Type) :=
  | Done (o : Outcome A)
  | Again (attempt : Z).
Arguments Done {A} o.
Arguments Again {A} attempt.

Record Defaults := {
  d_tail : Z;
  d_full : bool;
  d_ignoreAtts : bool;
  d_dryRun : bool;
  d_concurrency : Z;
  d_maxRetries : Z;
  d_baseBackoffMs : Z;
  d_maxBackoffMs : Z;
  d_planPreview : Z
}.

Definition DEFAULTS : Defaults :=
  {| d_tail := 300; d_full := false; d_ignoreAtts := false; d_dryRun := false;
     d_concurrency := 2; d_maxRetries := 6; d_baseBackoffMs := 300;
     d_maxBackoffMs := 3000; d_planPreview := 20 |}.

(** The [cfg] argument of [withRetries]. *)
Record RetryCfg := {
  maxRetries : option JsNumber;
  baseBackoffMs : option Z
}.

Definition no_cfg : RetryCfg := {| maxRetries := None; baseBackoffMs := None |}.

Section Retry.
(** The state the program runs on, with the two things [backoff] asks
    of it: [Math.floor(Math.random() * exp)] and [sleep(delay)]. *)
Context {TN : ToNumber} {St : Type}.
Variable random_floor : Z -> St -> Z * St.
Variable sleep : Z -> St -> St.

Definition backoff (attempt base max : Z) (s : St) : St :=
  let exp := Z.min max (base * 2 ^ attempt) in
  let '(delay, s1) := random_floor exp s in
  sleep delay s1.

Context {A : Type}.
Variable fn : St -> Outcome A * St.

(** One turn of the loop: [attempt >= maxRetries] is false for a
    [maxRetries] that is [NaN]. *)
Definition withRetries_turn (maxR : JsNumber) (base attempt : Z) (s : St)
  : Turn A * St :=
  match fn s with
  | (Returned a, s1) => (Done (Returned a), s1)
  | (Thrown e, s1) =>
      let code := err_code e in
      let message := error_text e in
      if negb (retriable code) || ge_number attempt maxR
      then (Done (Thrown (new_Error (failure_text code message attempt))), s1)
      else (Again (attempt + 1),
            backoff (attempt + 1) base (d_maxBackoffMs DEFAULTS) s1)
  end.

Fixpoint withRetries_loop (fuel : nat) (maxR : JsNumber) (base attempt : Z) (s : St)
  : Result A * St :=
  match fuel with
  | O => (OutOfFuel, s)
  | S fuel' =>
      match withRetries_turn maxR base attempt s with
      | (Done (Returned a), s1) => (Ok a, s1)
      | (Done (Thrown e), s1) => (Raise e, s1)
      | (Again attempt', s1) => withRetries_loop fuel' maxR base attempt' s1
      end
  end.

(** [withRetries(fn, cfg)], followed for at most [fuel] turns of its
    loop: [OutOfFuel] when it is still retrying then. For a finite
    [maxRetries] the loop leaves within [ceil(maxRetries) + 1] turns
    ([withRetries_settles]); for [NaN] it leaves only when the operation
    returns or fails fatally. *)
Definition withRetries (fuel : nat) (cfg : RetryCfg) (s : St) : Result A * St :=
  let maxR := default (Int (d_maxRetries DEFAULTS)) (maxRetries cfg) in
  let base := default (d_baseBackoffMs DEFAULTS) (baseBackoffMs cfg) in
  withRetries_loop fuel maxR base 0 s.
End Retry.

(** Counting the invocations of an operation: the state gets a counter
    that only the operation moves. *)
Definition counting {St A : Type} (fn : St -> Outcome A * St)
  : nat * St -> Outcome A * (nat * St) :=
  fun '(n, s) => let '(o, s1) := fn s in (o, (S n, s1)).

Definition random_beside_counter {St : Type} (random_floor : Z -> St -> Z * St)
  : Z -> nat * St -> Z * (nat * St) :=
  fun exp '(n, s) => let '(delay, s1) := random_floor exp s in (delay, (n, s1)).

Definition sleep_beside_counter {St : Type} (sleep : Z -> St -> St)
  : Z -> nat * St -> nat * St :=
  fun delay '(n, s) => (n, sleep delay s).

(** ** The remote service and the world the program runs on *)

Inductive Credential := GROUP_TOKEN | USER_TOKEN.
Inductive SortOrder := asc | desc.

(** The reply of [board.getComments], as far as it is destructured. *)
Record CommentsReply := {
  reply_count : option Z;
  reply_items : option (list Entry)
}.

(** The requests the program sends through [vk.api]. *)
Inductive ApiCall :=
  | utils_getServerTime (who : Credential)
  | board_getComments (group_id topic_id count offset : Z) (sort : SortOrder)
  | board_deleteComment (group_id topic_id comment_id : Z).

(** What lies outside the program: the remote service behind the two
    clients, the random source and the clock. *)
Class Platform := {
  Env : Type;
  getServerTime : Credential -> Env -> Outcome Z * Env;
  getComments : Z -> Z -> Z -> Z -> SortOrder -> Env -> Outcome CommentsReply * Env;
  deleteComment : Z -> Z -> Z -> Env -> Outcome Z * Env;
  env_random_floor : Z -> Env -> Z * Env;
  env_sleep : Z -> Env -> Env
}.

(** The signals [setupSignals] listens to. *)
Inductive Signal :=
  | SIGINT
  | SIGTERM.

(** The lines the program writes to the console (elapsed times left out). *)
Inductive LogLine :=
  | log_signal (sig : Signal)
  | log_token_check_failed (msg : jsstring)
  | log_total (total startOffset : Z)
  | log_full_scan
  | log_dry_run (planned : nat)
  | log_first (n : nat) (head : list Z)
  | log_last (n : nat) (tail : list Z)
  | log_done_dry_run
  | log_nothing_to_delete
  | log_delete_failed (comment_id : Z) (code : JsCode) (msg : jsstring)
  | log_progress (processed total deleted : Z)
  | log_deleted (deleted : Z) (planned : nat)
  | log_uncaught (e : JsError).

Section Program.
Context {LC : LowerCase} {TN : ToNumber} {P : Platform}.

Record World := {
  w_env : Env;
  w_requests : list ApiCall;   (* requests sent, oldest first *)
  w_console : list LogLine;    (* lines written, oldest first *)
  w_listeners : list Signal;   (* signals given a handler by [process.on] *)
  w_shuttingDown : bool;       (* the variable [shuttingDown] *)
  w_exit_timers : list (Z * Z) (* pending [setTimeout(() => process.exit(code), ms)],
                                  as [(ms, code)] *)
}.

Definition on_env {B} (f : Env -> B * Env) (call : option ApiCall) (w : World)
  : B * World :=
  let '(b, e1) := f (w_env w) in
  (b, {| w_env := e1;
         w_requests := w_requests w ++ from_option (fun c => [c]) [] call;
         w_console := w_console w;
         w_listeners := w_listeners w; w_shuttingDown := w_shuttingDown w;
         w_exit_timers := w_exit_timers w |}).

Definition console (line : LogLine) (w : World) : World :=
  {| w_env := w_env w; w_requests := w_requests w;
     w_console := w_console w ++ [line];
     w_listeners := w_listeners w; w_shuttingDown := w_shuttingDown w;
     w_exit_timers := w_exit_timers w |}.

(** [setupSignals()]: [process.on('SIGINT', handler)] and
    [process.on('SIGTERM', handler)]. *)
Definition setupSignals (w : World) : World :=
  {| w_env := w_env w; w_requests := w_requests w; w_console := w_console w;
     w_listeners := w_listeners w ++ [SIGINT; SIGTERM];
     w_shuttingDown := w_shuttingDown w; w_exit_timers := w_exit_timers w |}.

(** The [handler] of [setupSignals], run when a signal it listens to is
    delivered: the first time it writes a line and starts the timer of
    [process.exit(130)], 1500 ms; after that it does nothing. *)
Definition handler (sig : Signal) (w : World) : World :=
  if w_shuttingDown w then w
  else
    {| w_env := w_env w; w_requests := w_requests w;
       w_console := w_console w ++ [log_signal sig];
       w_listeners := w_listeners w; w_shuttingDown := true;
       w_exit_timers := w_exit_timers w ++ [(1500, 130)] |}.

Definition w_random_floor (exp : Z) : World -> Z * World :=
  on_env (env_random_floor exp) None.
Definition w_sleep (delay : Z) (w : World) : World :=
  snd (on_env (fun e => (tt, env_sleep delay e)) None w).

(** [vkUser.api.utils.getServerTime()], [vkGroup.api.utils.getServerTime()] *)
Definition vk_getServerTime (who : Credential) : World -> Outcome Z * World :=
  on_env (getServerTime who) (Some (utils_getServerTime who)).
(** [vkUser.api.board.getComments({...})] *)
Definition vkUser_getComments (group_id topic_id count offset : Z) (sort : SortOrder)
  : World -> Outcome CommentsReply * World :=
  on_env (getComments group_id topic_id count offset sort)
         (Some (board_getComments group_id topic_id count offset sort)).
(** [vkGroup.api.board.deleteComment({...})] *)
Definition vkGroup_deleteComment (group_id topic_id comment_id : Z)
  : World -> Outcome Z * World :=
  on_env (deleteComment group_id topic_id comment_id)
         (Some (board_deleteComment group_id topic_id comment_id)).

(** A call that passes no [cfg], [withRetries(() => ...)]: with the
    default [maxRetries] the loop leaves within seven turns
    ([call_settles]). *)
Definition call {A} (fn : World -> Outcome A * World) : World -> Result A * World :=
  withRetries w_random_floor w_sleep fn 7 no_cfg.

(** [getTotal]: [count] defaults to [0]. *)
Definition getTotal (group_id topic_id : Z) (w : World) : Result Z * World :=
  match call (vkUser_getComments group_id topic_id 1 0 desc) w with
  | (Ok reply, w1) => (Ok (default 0 (reply_count reply)), w1)
  | (Raise e, w1) => (Raise e, w1)
  | (OutOfFuel, w1) => (OutOfFuel, w1)
  end.

Definition page : Z := 100.

(** A [for await (const cur of iterAsc(...)) acc = body(acc, cur)] loop:
    the generator fetches a page, hands its items to the consumer one by
    one, and stops after an empty or a short page. [fuel] bounds the
    number of pages. *)
Fixpoint for_await_iterAsc {B} (fuel : nat) (body : B -> Entry -> B)
    (group_id topic_id offset : Z) (acc : B) (w : World) : Result B * World :=
  match fuel with
  | O => (OutOfFuel, w)
  | S fuel' =>
      match call (vkUser_getComments group_id topic_id page offset asc) w with
      | (Ok reply, w1) =>
          let items := default [] (reply_items reply) in
          if (length items =? 0)%nat then (Ok acc, w1)
          else
            let acc1 := fold_left body items acc in
            let offset1 := offset + Z.of_nat (length items) in
            if Z.of_nat (length items) <? page then (Ok acc1, w1)
            else for_await_iterAsc fuel' body group_id topic_id offset1 acc1 w1
      | (Raise e, w1) => (Raise e, w1)
      | (OutOfFuel, w1) => (OutOfFuel, w1)
      end
  end.

(** The sequence [iterAsc] yields. *)
Definition iterAsc (fuel : nat) (group_id topic_id startOffset : Z) (w : World)
  : Result (list Entry) * World :=
  for_await_iterAsc fuel (fun acc cur => acc ++ [cur])
                    group_id topic_id startOffset [] w.

Definition planDeletionsAsc (fuel : nat) (group_id topic_id startOffset : Z)
    (ignoreAtts : bool) (w : World) : Result (list Z) * World :=
  match for_await_iterAsc fuel (plan_step ignoreAtts)
                          group_id topic_id startOffset (None, []) w with
  | (Ok st, w1) => (Ok (snd st), w1)
  | (Raise e, w1) => (Raise e, w1)
  | (OutOfFuel, w1) => (OutOfFuel, w1)
  end.

(** The requests of a step are reads: the step sends no
    [board.deleteComment]. *)
Definition is_read (c : ApiCall) : Prop :=
  match c with
  | board_deleteComment _ _ _ => False
  | _ => True
  end.

Definition reads_only (w w' : World) : Prop :=
  exists reqs, w_requests w' = w_requests w ++ reqs /\ Forall is_read reqs.

(** Between [w] and [w'] no handler is added or called, and no timer of
    an exit is started. *)
Definition signals_kept (w w' : World) : Prop :=
  w_listeners w' = w_listeners w
  /\ w_shuttingDown w' = w_shuttingDown w
  /\ w_exit_timers w' = w_exit_timers w.
End Program.

(** ** The bounded executor [pMap]

    The mapper is an asynchronous function: called, it runs to its first
    [await] and leaves a task; each time the awaited call of a task
    settles, the task runs on to its next [await] ([Pending]) or to its
    end, where its promise is fulfilled or rejected. The callbacks
    [then], [catch] and [finally] of one task run before the next task is
    resumed: they touch nothing another task's callbacks read in between. *)

Inductive Poll (T R : Type) :=
  | Pending (t : T)
  | Fulfilled (r : R)
  | Rejected (e : JsError).
Arguments Pending {T R} t.
Arguments Fulfilled {T R} r.
Arguments Rejected {T R} e.

(** The state of the promise [pMap] returns, once settled. *)
Inductive Settled (R : Type) :=
  | Resolved (results : list (option R))
  | RejectedWith (e : JsError).
Arguments Resolved {R} results.
Arguments RejectedWith {R} e.

(** [concurrency = 2] of the destructuring, then
    [Math.max(1, Number(concurrency) || 1)]: [NaN] and [0] are falsy.
    The result is finite and at least 1, and need not be whole. *)
Definition effective_concurrency (concurrency : option JsNumber) : Q :=
  let c := default (Int 2) concurrency in
  Math_max 1 (match c with
              | NaN => 1
              | Num q => if Qeq_bool q 0 then 1 else q
              end).

Section BoundedExecutor.
Context {W Item T R : Type}.
Variable mapper : Item -> nat -> T.
Variable resume : T -> W -> Poll T R * W.
Variable items : list Item.
Variable concurrency : Q.

(** The variables of [pMap]: [i], [active], [resolved], [results], the
    tasks in flight with their [curIdx], and the promise; [p_started]
    and [p_finished] log the calls of the mapper and of the [finally]
    callback. *)
Record Pool := {
  p_i : nat;
  p_active : nat;
  p_resolved : nat;
  p_results : list (option R);
  p_flight : list (nat * T);
  p_promise : option (Settled R);
  p_started : list nat;
  p_finished : list nat
}.

Definition pool_init : Pool :=
  {| p_i := 0; p_active := 0; p_resolved := 0;
     p_results := replicate (length items) None;
     p_flight := []; p_promise := None; p_started := []; p_finished := [] |}.

(** [resolve(results)]; settling a settled promise does nothing. *)
Definition resolve (p : Pool) : Pool :=
  match p_promise p with
  | Some _ => p
  | None =>
      {| p_i := p_i p; p_active := p_active p; p_resolved := p_resolved p;
         p_results := p_results p; p_flight := p_flight p;
         p_promise := Some (Resolved (p_results p));
         p_started := p_started p; p_finished := p_finished p |}
  end.

(** [reject(e)] *)
Definition reject (e : JsError) (p : Pool) : Pool :=
  match p_promise p with
  | Some _ => p
  | None =>
      {| p_i := p_i p; p_active := p_active p; p_resolved := p_resolved p;
         p_results := p_results p; p_flight := p_flight p;
         p_promise := Some (RejectedWith e);
         p_started := p_started p; p_finished := p_finished p |}
  end.

(** The body of the [while] loop: [curIdx = i++; active++;
    mapper(items[curIdx], curIdx)]. *)
Definition launch_one (it : Item) (p : Pool) : Pool :=
  let curIdx := p_i p in
  {| p_i := S curIdx; p_active := S (p_active p); p_resolved := p_resolved p;
     p_results := p_results p;
     p_flight := p_flight p ++ [(curIdx, mapper it curIdx)];
     p_promise := p_promise p;
     p_started := p_started p ++ [curIdx]; p_finished := p_finished p |}.

Definition launch_guard (p : Pool) : bool :=
  lt_number (Z.of_nat (p_active p)) concurrency && (p_i p <? length items)%nat.

(** [while (active < concurrency && i < items.length) ...] *)
Fixpoint launch (fuel : nat) (p : Pool) : Pool :=
  match fuel with
  | O => p
  | S fuel' =>
      if launch_guard p then
        match items !! p_i p with
        | Some it => launch fuel' (launch_one it p)
        | None => p
        end
      else p
  end.

(** [next()]; the loop runs at most [items.length] times
    ([launch_leaves]). *)
Definition next (p : Pool) : Pool :=
  if (p_resolved p =? length items)%nat then resolve p
  else launch (length items) p.

(** The [finally] callback of the task of [curIdx]: [active--;
    resolved++] ([finish]), then [next()]. *)
Definition finish (curIdx : nat) (p : Pool) : Pool :=
  {| p_i := p_i p; p_active := pred (p_active p);
     p_resolved := S (p_resolved p); p_results := p_results p;
     p_flight := p_flight p; p_promise := p_promise p;
     p_started := p_started p; p_finished := p_finished p ++ [curIdx] |}.

Definition finally (curIdx : nat) (p : Pool) : Pool := next (finish curIdx p).

Definition with_flight (fl : list (nat * T)) (p : Pool) : Pool :=
  {| p_i := p_i p; p_active := p_active p; p_resolved := p_resolved p;
     p_results := p_results p; p_flight := fl; p_promise := p_promise p;
     p_started := p_started p; p_finished := p_finished p |}.

(** [results[curIdx] = r] *)
Definition store (curIdx : nat) (r : R) (p : Pool) : Pool :=
  {| p_i := p_i p; p_active := p_active p; p_resolved := p_resolved p;
     p_results := <[curIdx := Some r]> (p_results p); p_flight := p_flight p;
     p_promise := p_promise p;
     p_started := p_started p; p_finished := p_finished p |}.

(** The awaited call of the [k]-th task in flight settles. A [k] that
    names no task changes nothing. *)
Definition settle (k : nat) (p : Pool) (w : W) : Pool * W :=
  match p_flight p !! k with
  | None => (p, w)
  | Some (curIdx, t) =>
      match resume t w with
      | (Pending t', w1) =>
          (with_flight (<[k := (curIdx, t')]> (p_flight p)) p, w1)
      | (Fulfilled r, w1) =>
          (finally curIdx (store curIdx r (with_flight (delete k (p_flight p)) p)), w1)
      | (Rejected e, w1) =>
          (finally curIdx (reject e (with_flight (delete k (p_flight p)) p)), w1)
      end
  end.

Fixpoint run (schedule : list nat) (p : Pool) (w : W) : Pool * W :=
  match schedule with
  | [] => (p, w)
  | k :: rest => let '(p1, w1) := settle k p w in run rest p1 w1
  end.

(** [pMap(items, mapper, { concurrency })] under a schedule: the first
    [next()] runs inside the promise's executor. *)
Definition pMap (schedule : list nat) (w : W) : Pool * W :=
  run schedule (next pool_init) w.

(** What holds of the variables of [pMap] between two callbacks. The
    workers in flight are bounded by the ceiling of [concurrency]: the
    loop starts one more while [active < concurrency]. *)
Definition pool_ok (p : Pool) : Prop :=
  p_active p = length (p_flight p)
  /\ Z.of_nat (p_active p) <= Qceiling concurrency
  /\ (p_i p <= length items)%nat
  /\ p_started p = seq 0 (p_i p)
  /\ p_resolved p = length (p_finished p)
  /\ (p_flight p).*1 ++ p_finished p ≡ₚ seq 0 (p_i p)
  /\ length (p_results p) = length items
  /\ (forall j, j ∉ p_finished p -> (j < length items)%nat ->
                p_results p !! j = Some None)
  /\ (forall rs, p_promise p = Some (Resolved rs) ->
                 p_resolved p = length items /\ rs = p_results p).

(** What [next()] leaves behind: the loop's guard is false, and the
    promise is settled once every item is resolved. *)
Definition pool_quiet (p : Pool) : Prop :=
  launch_guard p = false
  /\ (p_resolved p = length items -> p_promise p <> None).
End BoundedExecutor.

(** ** Watching the workers of [pMap]

    A worker that remembers the call that started it, and that writes
    into a log beside the world each time its awaited call settles:
    [Awaits] when it goes on to await again, [Ends] when its promise is
    fulfilled or rejected. *)
Inductive WorkerEvent (Item : Type) :=
  | Awaits (curIdx : nat) (it : Item)
  | Ends (curIdx : nat) (it : Item) (fulfilled : bool).
Arguments Awaits {Item} curIdx it.
Arguments Ends {Item} curIdx it fulfilled.

Definition watched_mapper {Item T : Type} (mapper : Item -> nat -> T)
    (it : Item) (curIdx : nat) : nat * Item * T :=
  (curIdx, it, mapper it curIdx).

Definition watched_resume {W Item T R : Type} (resume : T -> W -> Poll T R * W)
    (t : nat * Item * T) (lw : list (WorkerEvent Item) * W)
  : Poll (nat * Item * T) R * (list (WorkerEvent Item) * W) :=
  let '(curIdx, it, t0) := t in
  let '(log, w) := lw in
  match resume t0 w with
  | (Pending t1, w1) => (Pending (curIdx, it, t1), (log ++ [Awaits curIdx it], w1))
  | (Fulfilled r, w1) => (Fulfilled r, (log ++ [Ends curIdx it true], w1))
  | (Rejected e, w1) => (Rejected e, (log ++ [Ends curIdx it false], w1))
  end.

(** The calls whose worker has ended, oldest first. *)
Definition ended {Item : Type} (log : list (WorkerEvent Item)) : list (nat * Item) :=
  omap (fun ev => match ev with
                  | Ends curIdx it _ => Some (curIdx, it)
                  | Awaits _ _ => None
                  end) log.

(** A watched worker in flight under [curIdx] was called as
    [mapper(items[curIdx], curIdx)]. *)
Definition called_on {Item T : Type} (items : list Item) (curIdx : nat)
    (t : nat * Item * T) : Prop :=
  t.1.1 = curIdx /\ items !! curIdx = Some t.1.2.

(** The pool of a watched run without the watch: its workers as the
    mapper left them. *)
Definition unwatched_task {Item T : Type} (task : nat * (nat * Item * T)) : nat * T :=
  (task.1, task.2.2).

Definition unwatched {Item T R : Type} (p : @Pool (nat * Item * T) R) : @Pool T R :=
  {| p_i := p_i p; p_active := p_active p; p_resolved := p_resolved p;
     p_results := p_results p;
     p_flight := List.map unwatched_task (p_flight p);
     p_promise := p_promise p;
     p_started := p_started p; p_finished := p_finished p |}.

(** What holds of a watched run: every worker in flight was called on
    the item of its index, and the workers that ended are, in order, the
    items whose [finally] callback ran. *)
Definition watched_ok {W Item T R : Type} (items : list Item)
    (p : @Pool (nat * Item * T) R) (lw : list (WorkerEvent Item) * W) : Prop :=
  Forall (fun task => called_on items task.1 task.2) (p_flight p)
  /\ (ended lw.1).*1 = p_finished p
  /\ Forall (fun call => items !! call.1 = Some call.2) (ended lw.1).

(** ** The deletion orchestrator and [main] *)

(** [plan.slice(start)] and [plan.slice(start, end)], negative indexes
    counting from the end. *)
Definition slice_index (len k : Z) : nat :=
  Z.to_nat (if k <? 0 then Z.max (len + k) 0 else Z.min k len).

Definition slice {A} (l : list A) (start : Z) (end_ : option Z) : list A :=
  let len := Z.of_nat (length l) in
  let from := slice_index len start in
  let to := slice_index len (default len end_) in
  take (to - from) (drop from l).

(** [opts]: the defaults overridden by the command line. *)
Record Opts := {
  o_tail : Z;
  o_full : bool;
  o_ignoreAtts : bool;
  o_dryRun : bool;
  o_concurrency : JsNumber;
  o_maxRetries : JsNumber;
  o_baseBackoffMs : Z;
  o_planPreview : Z
}.

(** How [main] ends: [process.exit(code)] or a plain return. *)
Inductive MainEnd :=
  | exit (code : Z)
  | finished.

Section Orchestrator.
Context {LC : LowerCase} {TN : ToNumber} {P : Platform}.

(** The variables the workers of [deleteBatch] share. *)
Record Batch := {
  b_world : World;
  ok : Z;
  processed : Z
}.

Section DeleteBatch.
Variables (group_id topic_id : Z) (ids : list Z) (cfg : RetryCfg).

(** A worker between two awaits: its [comment_id] and the [attempt]
    counter of its [withRetries]. *)
Definition DeleteTask : Type := Z * Z.

Definition delete_mapper (comment_id : Z) (_ : nat) : DeleteTask :=
  (comment_id, 0).

(** The [finally] block of the worker. *)
Definition worker_finally (b : Batch) : Batch :=
  let total := Z.of_nat (length ids) in
  let processed1 := processed b + 1 in
  {| b_world :=
       if (processed1 mod 20 =? 0) || (processed1 =? total)
       then console (log_progress processed1 total (ok b)) (b_world b)
       else b_world b;
     ok := ok b; processed := processed1 |}.

(** The worker resumes when its [deleteComment] call settles: one
    turn of [withRetries], and at its end the worker's [try], [catch]
    and [finally]. The worker never rejects. *)
Definition delete_resume (t : DeleteTask) (b : Batch) : Poll DeleteTask unit * Batch :=
  let '(comment_id, attempt) := t in
  let maxR := default (Int (d_maxRetries DEFAULTS)) (maxRetries cfg) in
  let base := default (d_baseBackoffMs DEFAULTS) (baseBackoffMs cfg) in
  match withRetries_turn w_random_floor w_sleep
          (vkGroup_deleteComment group_id topic_id comment_id)
          maxR base attempt (b_world b) with
  | (Again attempt', w1) =>
      (Pending (comment_id, attempt'),
       {| b_world := w1; ok := ok b; processed := processed b |})
  | (Done (Returned _), w1) =>
      (Fulfilled tt,
       worker_finally {| b_world := w1; ok := ok b + 1; processed := processed b |})
  | (Done (Thrown e), w1) =>
      (Fulfilled tt,
       worker_finally
         {| b_world := console (log_delete_failed comment_id (err_code e) (error_text e)) w1;
            ok := ok b; processed := processed b |})
  end.

(** [deleteBatch]: [await pMap(...)] then [return ok]. A schedule
    that ends before the promise settles leaves the [await] pending. *)
Definition deleteBatch (concurrency : option JsNumber) (schedule : list nat) (w : World)
  : Result Z * World :=
  let '(p, b) :=
    pMap delete_mapper delete_resume ids (effective_concurrency concurrency)
         schedule {| b_world := w; ok := 0; processed := 0 |} in
  match p_promise p with
  | Some (Resolved _) => (Ok (ok b), b_world b)
  | Some (RejectedWith e) => (Raise e, b_world b)
  | None => (OutOfFuel, b_world b)
  end.
End DeleteBatch.

(** [sanityCheck]: [Some 2] when it ends the process. *)
Definition sanityCheck (w : World) : Result (option Z) * World :=
  let failed e w1 :=
    (Ok (Some 2),
     console (log_token_check_failed (str_or (err_message e) (err_string e))) w1) in
  match call (vk_getServerTime USER_TOKEN) w with
  | (Ok _, w1) =>
      match call (vk_getServerTime GROUP_TOKEN) w1 with
      | (Ok _, w2) => (Ok None, w2)
      | (Raise e, w2) => failed e w2
      | (OutOfFuel, w2) => (OutOfFuel, w2)
      end
  | (Raise e, w1) => failed e w1
  | (OutOfFuel, w1) => (OutOfFuel, w1)
  end.

(** The dry-run branch of [main]. Two slices are never the same array,
    so [tail !== head] holds. *)
Definition dry_run_report (planPreview : Z) (plan : list Z) (w : World) : World :=
  let w1 := console (log_dry_run (length plan)) w in
  let w2 :=
    if (length plan =? 0)%nat then w1
    else
      let len := Z.of_nat (length plan) in
      let head := slice plan 0 (Some (Z.min planPreview len)) in
      let tail := slice plan (Z.max (len - planPreview) 0) None in
      let w1a := console (log_first (length head) head) w1 in
      if (length tail =? 0)%nat then w1a
      else console (log_last (length tail) tail) w1a in
  console log_done_dry_run w2.

(** The first part of [main]: [setupSignals()], then, [parseArgs]
    having produced the target and [opts], the token check, the start
    offset and the plan. [inl code] when [sanityCheck] ended the process.
    [fuel] bounds the pages of the scan. The run is one in which no
    signal is delivered: [handler] is registered and never called. *)
Definition main_plan (fuel : nat) (group_id topic_id : Z) (opts : Opts) (w : World)
  : Result (Z + list Z) * World :=
  match sanityCheck (setupSignals w) with
  | (Ok (Some code), w1) => (Ok (inl code), w1)
  | (Raise e, w1) => (Raise e, w1)
  | (OutOfFuel, w1) => (OutOfFuel, w1)
  | (Ok None, w1) =>
      let scan :=
        if negb (o_full opts) then
          match getTotal group_id topic_id w1 with
          | (Ok total, w2) =>
              let startOffset := Z.max 0 (total - (o_tail opts + 1)) in
              (Ok startOffset, console (log_total total startOffset) w2)
          | (Raise e, w2) => (Raise e, w2)
          | (OutOfFuel, w2) => (OutOfFuel, w2)
          end
        else (Ok 0, console log_full_scan w1) in
      match scan with
      | (Raise e, w2) => (Raise e, w2)
      | (OutOfFuel, w2) => (OutOfFuel, w2)
      | (Ok startOffset, w2) =>
          match planDeletionsAsc fuel group_id topic_id startOffset
                                 (o_ignoreAtts opts) w2 with
          | (Raise e, w3) => (Raise e, w3)
          | (OutOfFuel, w3) => (OutOfFuel, w3)
          | (Ok plan, w3) => (Ok (inr plan), w3)
          end
      end
  end.

(** [main]: the plan, then the dry-run report or the deletions.
    [schedule] orders the settlements inside [deleteBatch]. *)
Definition main (fuel : nat) (schedule : list nat)
    (group_id topic_id : Z) (opts : Opts) (w : World) : Result MainEnd * World :=
  match main_plan fuel group_id topic_id opts w with
  | (Raise e, w3) => (Raise e, w3)
  | (OutOfFuel, w3) => (OutOfFuel, w3)
  | (Ok (inl code), w3) => (Ok (exit code), w3)
  | (Ok (inr plan), w3) =>
      if o_dryRun opts then
        (Ok (exit 0), dry_run_report (o_planPreview opts) plan w3)
      else if (length plan =? 0)%nat then
        (Ok finished, console log_nothing_to_delete w3)
      else
        match deleteBatch group_id topic_id plan
                {| maxRetries := Some (o_maxRetries opts);
                   baseBackoffMs := Some (o_baseBackoffMs opts) |}
                (Some (o_concurrency opts)) schedule w3 with
        | (Ok deleted, w4) =>
            (Ok finished, console (log_deleted deleted (length plan)) w4)
        | (Raise e, w4) => (Raise e, w4)
        | (OutOfFuel, w4) => (OutOfFuel, w4)
        end
  end.

(** [main().catch(e => { console.error(e); process.exit(1); })] *)
Definition program (fuel : nat) (schedule : list nat)
    (group_id topic_id : Z) (opts : Opts) (w : World) : option MainEnd * World :=
  match main fuel schedule group_id topic_id opts w with
  | (Ok e, w1) => (Some e, w1)
  | (Raise e, w1) => (Some (exit 1), console (log_uncaught e) w1)
  | (OutOfFuel, w1) => (None, w1)
  end.
End Orchestrator.

(** ** A simulated platform

    A thread held in memory, served in pages; deleting a comment whose
    identifier is listed in [denied] fails with error 15 (access denied),
    one listed in [flood] fails with error 6 (too many requests). The
    random source always yields [0]. *)

Definition api_error (code : Z) (msg : string) : JsError :=
  {| err_code := code_int code; err_message := Some (js msg); err_error_msg := None;
     err_string := js "APIError: " ++ js msg |}.

Definition sim_getComments (count offset : Z) (sort : SortOrder) (thread : list Entry)
  : Outcome CommentsReply * list Entry :=
  let all := match sort with asc => thread | desc => rev thread end in
  (Returned {| reply_count := Some (Z.of_nat (length all));
               reply_items := Some (take (Z.to_nat count) (drop (Z.to_nat offset) all)) |},
   thread).

Definition sim_deleteComment (denied flood : list Z) (comment_id : Z)
    (thread : list Entry) : Outcome Z * list Entry :=
  if bool_decide (comment_id ∈ denied)
  then (Thrown (api_error 15 "Access denied"), thread)
  else if bool_decide (comment_id ∈ flood)
  then (Thrown (api_error 6 "Too many requests per second"), thread)
  else (Returned 1, List.filter (fun c => negb (id c =? comment_id)) thread).

Definition sim_platform (denied flood : list Z) : Platform := {|
  Env := list Entry;
  getServerTime := fun _ thread => (Returned 0, thread);
  getComments := fun _ _ count offset sort thread =>
                   sim_getComments count offset sort thread;
  deleteComment := fun _ _ comment_id thread =>
                     sim_deleteComment denied flood comment_id thread;
  env_random_floor := fun _ thread => (0, thread);
  env_sleep := fun _ thread => thread
|}.

Definition sim_world (thread : list Entry) (denied flood : list Z)
  : @World (sim_platform denied flood) :=
  {| w_env := thread : @Env (sim_platform denied flood);
     w_requests := []; w_console := [];
     w_listeners := []; w_shuttingDown := false; w_exit_timers := [] |}.

(** A comment without attachments. *)
Definition comment (i author : Z) (t : string) : Entry :=
  {| id := i; from_id := author; text := TextStr (js t); attachments := None |}.

(** ** Vocabulary of the properties *)

(** The identifiers of the comments whose deletion the console reports
    as failed, oldest first. *)
Definition failures (lines : list LogLine) : list Z :=
  omap (fun line => match line with
                    | log_delete_failed comment_id _ _ => Some comment_id
                    | _ => None
                    end) lines.

(** A run of workers that catch their own failures: [J] relates the
    world to the items finished so far, [Q] holds of the tasks in flight,
    and the promise is not rejected. *)
Definition isolated {W T R : Type} (Q : nat -> T -> Prop) (J : list nat -> W -> Prop)
    (p : @Pool T R) (w : W) : Prop :=
  J (p_finished p) w
  /\ Forall (fun task => Q task.1 task.2) (p_flight p)
  /\ forall e, p_promise p <> Some (RejectedWith e).

Section BatchInvariant.
Context {P : Platform}.
Variables (group_id topic_id : Z) (pre post : list Z) (bad : Z).
Variable w0 : World.

Local Abbreviation ids := (pre ++ bad :: post).



End BatchInvariant.

(** ** Sample inputs of the examples *)

Definition photo (owner n : Z) : Attachment :=
  {| att_type := Some (js "photo");
     att_body := Some {| owner_id := Some owner; body_id := Some n;
                         sticker_id := None; url := None; link := None |} |}.

Definition sticker (n : Z) : Attachment :=
  {| att_type := Some (js "sticker");
     att_body := Some {| owner_id := None; body_id := None;
                         sticker_id := Some n; url := None; link := None |} |}.

(** A sample of the host's conversion of strings to numbers: exact on
    the strings of decimal digits and on the empty string, [NaN] on every
    other string. *)
Definition digit_value (c : N) : option Z :=
  if ((48 <=? c) && (c <=? 57))%N then Some (Z.of_N c - 48) else None.

Fixpoint digits_value (acc : Z) (s : jsstring) : option Z :=
  match s with
  | [] => Some acc
  | c :: r =>
      match digit_value c with
      | Some d => digits_value (10 * acc + d) r
      | None => None
      end
  end.

Definition digits_to_number (s : jsstring) : JsNumber :=
  from_option Int NaN (digits_value 0 s).

#[global] Instance digits_ToNumber : ToNumber := {|
  StringToNumber := digits_to_number
|}.

(** An error of the host, whose code is a string. *)
Definition host_error (code msg : string) : JsError :=
  {| err_code := code_string (js code); err_message := Some (js msg);
     err_error_msg := None; err_string := js "Error: " ++ js msg |}.

(** Two operations on a world without state: one always denied, one
    always rate-limited. *)
Definition denied_op (s : unit) : Outcome Z * unit :=
  (Thrown (api_error 15 "Access denied"), s).
Definition flooded_op (s : unit) : Outcome Z * unit :=
  (Thrown (api_error 6 "Too many requests per second"), s).
Definition no_random (exp : Z) (s : unit) : Z * unit := (0, s).
Definition no_sleep (delay : Z) (s : unit) : unit := s.
(** A random source that always draws the middle of the range. *)
Definition half_random (exp : Z) (s : unit) : Z * unit := (exp / 2, s).

(** [n] copies of one comment, with the identifiers [0] to [n - 1]. *)
Definition copies (n : nat) : list Entry :=
  List.map (fun i => comment (Z.of_nat i) 10 "hi") (seq 0 n).

Definition dry_opts : Opts :=
  {| o_tail := 300; o_full := true; o_ignoreAtts := false; o_dryRun := true;
     o_concurrency := Int 2; o_maxRetries := Int 6; o_baseBackoffMs := 300;
     o_planPreview := 20 |}.

(** A worker for examples: it doubles a number, fails on a negative one,
    and logs the item it ran on. *)
Definition doubling_mapper (x : Z) (_ : nat) : Z := x.
Definition doubling_resume (t : Z) (w : list Z) : Poll Z Z * list Z :=
  if t <? 0 then (Rejected (api_error 15 "Access denied"), w ++ [t])
  else (Fulfilled (2 * t), w ++ [t]).

(** A plan of ten identifiers. *)
Definition ten : list Z := [1; 2; 3; 4; 5; 6; 7; 8; 9; 10].

(** ** Vocabulary of the further properties *)

(** A property of every pair of neighbours in a list. *)
Fixpoint neighbours {A : Type} (Rel : A -> A -> Prop) (l : list A) : Prop :=
  match l with
  | [] => True
  | a :: r => match r with b :: _ => Rel a b | [] => True end /\ neighbours Rel r
  end.

Section PlannerVocabulary.
Context {LC : LowerCase}.
Variable ignoreAtts : bool.

(** What the loop of [planDeletionsAsc] appends once [prevKept] is [k]. *)
Fixpoint planned_after (k : Entry) (l : list Entry) : list Z :=
  match l with
  | [] => []
  | e :: r =>
      if same_signature ignoreAtts k e then id e :: planned_after k r
      else planned_after e r
  end.

(** The entries that become [prevKept] after [k]: the ones not planned. *)
Fixpoint kept_after (k : Entry) (l : list Entry) : list Entry :=
  match l with
  | [] => []
  | e :: r =>
      if same_signature ignoreAtts k e then kept_after k r
      else e :: kept_after e r
  end.

(** The thread once the plan is applied: the entries whose identifier
    is not in the plan. *)
Definition apply_plan (plan : list Z) (entries : list Entry) : list Entry :=
  List.filter (fun e => negb (bool_decide (id e ∈ plan))) entries.
End PlannerVocabulary.

Section BatchAccounting.
Context {P : Platform}.
Variables (group_id topic_id : Z) (ids : list Z).
Variable w0 : World.

(** A worker of [deleteBatch] in flight works on the identifier at its
    index of the plan. *)
Definition plan_task (curIdx : nat) (t : DeleteTask) : Prop :=
  ids !! curIdx = Some t.1.

(** A deletion request for an identifier of the plan. *)
Definition deletes_planned (c : ApiCall) : Prop :=
  exists comment_id,
    comment_id ∈ ids /\ c = board_deleteComment group_id topic_id comment_id.

(** The books of [deleteBatch] after the items of [finished]: what was
    requested and written since [w0], and the two counters. *)
Definition batch_accounts (finished : list nat) (b : Batch) : Prop :=
  exists reqs lines,
    w_requests (b_world b) = w_requests w0 ++ reqs
    /\ w_console (b_world b) = w_console w0 ++ lines
    /\ Forall deletes_planned reqs
    /\ Forall (fun comment_id => comment_id ∈ ids) (failures lines)
    /\ processed b = Z.of_nat (length finished)
    /\ 0 <= ok b
    /\ ok b + Z.of_nat (length (failures lines)) = Z.of_nat (length finished)
    /\ (finished <> [] -> processed b = Z.of_nat (length ids) ->
        last lines = Some (log_progress (processed b) (Z.of_nat (length ids)) (ok b))).
End BatchAccounting.

(** The options of a run that deletes. *)
Definition live_opts : Opts :=
  {| o_tail := 300; o_full := true; o_ignoreAtts := false; o_dryRun := false;
     o_concurrency := Int 2; o_maxRetries := Int 6; o_baseBackoffMs := 300;
     o_planPreview := 20 |}.

(** A service whose topic cannot be read: [board.getComments] is
    denied, everything else answers. *)
Definition closed_platform : Platform := {|
  Env := unit;
  getServerTime := fun _ e => (Returned 0, e);
  getComments := fun _ _ _ _ _ e => (Thrown (api_error 15 "Access denied"), e);
  deleteComment := fun _ _ _ e => (Returned 1, e);
  env_random_floor := fun _ e => (0, e);
  env_sleep := fun _ e => e
|}.

Definition closed_world : @World closed_platform :=
  {| w_env := tt : @Env closed_platform; w_requests := []; w_console := [];
     w_listeners := []; w_shuttingDown := false; w_exit_timers := [] |}.

Section ServedThread.
Context {P : Platform}.
Variables (group_id topic_id : Z) (thread : list Entry).
Variable holds : Env -> Prop.

(** While [holds], the service answers [board.getComments] from
    [thread]: the count of the topic, and for an ascending read the page
    asked for. *)
Definition serves : Prop :=
  forall count offset sort env, holds env ->
    exists env' items,
      getComments group_id topic_id count offset sort env
      = (Returned {| reply_count := Some (Z.of_nat (length thread));
                     reply_items := items |}, env')
      /\ holds env'
      /\ (sort = asc -> 0 <= offset -> 0 <= count ->
          items = Some (take (Z.to_nat count) (drop (Z.to_nat offset) thread))).

(** While [holds], both tokens pass [utils.getServerTime]. *)
Definition tokens_pass : Prop :=
  forall who env, holds env ->
    exists r env', getServerTime who env = (Returned r, env') /\ holds env'.

(** The requests of a scan of [pages] pages from [startOffset]. *)
Definition page_requests (startOffset : Z) (pages : nat) : list ApiCall :=
  List.map (fun k => board_getComments group_id topic_id page
                       (startOffset + page * Z.of_nat k) asc)
           (seq 0 pages).
End ServedThread.

(** A scan of the tail, without deletions. *)
Definition tail_opts (tail : Z) : Opts :=
  {| o_tail := tail; o_full := false; o_ignoreAtts := false; o_dryRun := true;
     o_concurrency := Int 2; o_maxRetries := Int 6; o_baseBackoffMs := 300;
     o_planPreview := 20 |}.

(** The slots of [results] of the finished items are filled, each with
    a result of its own item ([Res]), unless the promise is rejected. *)
Definition results_settled {T R : Type} (Res : nat -> R -> Prop) (p : @Pool T R)
  : Prop :=
  (exists e, p_promise p = Some (RejectedWith e))
  \/ forall j, j ∈ p_finished p ->
       exists r, p_results p !! j = Some (Some r) /\ Res j r.

(** The turns a run of [pMap] over [n] items may still take, when a
    worker with [cost t] awaits left takes [S (cost t)] turns and a
    worker to start at most [S M]. *)
Definition backlog {T R : Type} (cost : T -> nat) (M n : nat) (p : @Pool T R) : nat :=
  sum_list_with (fun task : nat * T => S (cost task.2)) (p_flight p)
  + (n - p_i p) * S M.

(** The retries a worker of [deleteBatch] has left under a finite
    [maxRetries]. *)
Definition retries_left (maxR : Q) (t : Z * Z) : nat :=
  Z.to_nat (Qceiling maxR - t.2).

Section BatchRequested.
Context {P : Platform}.
Variables (group_id topic_id : Z) (ids : list Z).

(** The deletion of every finished item of the plan has been requested. *)
Definition batch_requested (finished : list nat) (b : Batch) : Prop :=
  forall j, j ∈ finished ->
    exists comment_id,
      ids !! j = Some comment_id
      /\ board_deleteComment group_id topic_id comment_id ∈ w_requests (b_world b).
End BatchRequested.

(** [clamp(n, min, max)], on integers. *)
Definition clamp (n min max : Z) : Z := Z.min max (Z.max min n).

Section BatchLines.
Context {TN : ToNumber} {P : Platform}.
Variables (ids : list Z) (cfg : RetryCfg).
Variable w0 : World.


End BatchLines.

(** Watching a call of [withRetries]: the state gets a trace, in the
    order they happen, of the invocations of the operation, of the draws
    of [backoff] from the random source and of its sleeps. *)
Inductive RetryEvent :=
  | Attempted (failed : bool)
  | Asked (exp delay : Z)
  | Slept (delay : Z).

Definition random_traced {St : Type} (random_floor : Z -> St -> Z * St)
  : Z -> list RetryEvent * St -> Z * (list RetryEvent * St) :=
  fun exp '(l, s) =>
    let '(delay, s1) := random_floor exp s in
    (delay, (l ++ [Asked exp delay], s1)).

Definition sleep_traced {St : Type} (sleep : Z -> St -> St)
  : Z -> list RetryEvent * St -> list RetryEvent * St :=
  fun delay '(l, s) => (l ++ [Slept delay], sleep delay s).

Definition fn_traced {St A : Type} (fn : St -> Outcome A * St)
  : list RetryEvent * St -> Outcome A * (list RetryEvent * St) :=
  fun '(l, s) =>
    let '(o, s1) := fn s in
    (o, (l ++ [Attempted (match o with Thrown _ => true | Returned _ => false end)],
         s1)).

(** [Math.min(max, base * Math.pow(2, attempt))] at the [k]-th retry. *)
Definition pause_bound (base : Z) (k : Z) : Z :=
  Z.min (d_maxBackoffMs DEFAULTS) (base * 2 ^ k).

(** The trace of the retries from the [k]-th on, given the delays
    drawn: a failed attempt, the draw under the bound of the retry, and
    the sleep for the delay drawn. *)
Fixpoint retry_trace (base k : Z) (delays : list Z) : list RetryEvent :=
  match delays with
  | [] => []
  | delay :: rest =>
      Attempted true :: Asked (pause_bound base k) delay :: Slept delay
        :: retry_trace base (k + 1) rest
  end.

(** The attempt a call ends on: none while it is still retrying. *)
Definition last_attempt {A : Type} (r : Result A) : list RetryEvent :=
  match r with
  | Ok _ => [Attempted false]
  | Raise _ => [Attempted true]
  | OutOfFuel => []
  end.

(** * Properties *)

(** ** The case mapping of the blocks *)

Lemma code_points_from_units (n : nat) :
  forall (s : jsstring) (cp : N),
    (length s <= n)%nat -> List.In cp (StringToCodePoints s) ->
    List.In cp s \/ (0x10000 <= cp)%N.
Proof.
  induction n as [|n IH]; intros s cp Hlen Hin.
  - destruct s; simpl in *; [tauto | lia].
  - destruct s as [|h [|l r]]; simpl in Hin; [tauto| simpl; tauto |].
    simpl in Hlen.
    destruct (is_high_surrogate h && is_low_surrogate l) eqn:Hpair.
    + destruct Hin as [<- | Hin]; [right; lia |].
      destruct (IH r cp ltac:(lia) Hin) as [? | ?]; [left; simpl; tauto | tauto].
    + destruct Hin as [<- | Hin]; [left; simpl; tauto |].
      destruct (IH (l :: r) cp ltac:(simpl; lia) Hin) as [? | ?];
        [left; simpl in *; tauto | tauto].
Qed.

Lemma lower_code_point_nbsp (cp : N) : lower_code_point cp = NBSP -> cp = NBSP.
Proof.
  unfold lower_code_point, NBSP.
  repeat match goal with
         | |- context [(?a <=? ?b)%N] => destruct (N.leb_spec a b)
         | |- context [(?a =? ?b)%N] => destruct (N.eqb_spec a b)
         end; simpl; lia.
Qed.

Lemma code_units_nbsp (cp : N) : List.In NBSP (code_units cp) -> cp = NBSP.
Proof.
  unfold code_units, NBSP. destruct (cp <? 65536)%N; simpl; intros Hin.
  - destruct Hin as [Hin | []]; congruence.
  - destruct Hin as [Hin | [Hin | []]]; revert Hin;
      [generalize ((cp - 0x10000) / 0x400)%N
      | generalize ((cp - 0x10000) mod 0x400)%N]; intros; lia.
Qed.

Lemma lower_blocks_nbsp (s : jsstring) :
  ~ List.In NBSP s -> ~ List.In NBSP (lower_blocks s).
Proof.
  intros Hs Hin. unfold lower_blocks, CodePointsToString in Hin.
  apply in_concat in Hin as (u & Hu & Hin).
  apply in_map_iff in Hu as (c & <- & Hc).
  apply in_map_iff in Hc as (cp & <- & Hcp).
  apply code_units_nbsp, lower_code_point_nbsp in Hin. subst cp.
  destruct (code_points_from_units (length s) s NBSP (le_n _) Hcp) as [? | H];
    [tauto | unfold NBSP in H; lia].
Qed.

#[global] Instance blocks_lower_case : LowerCase := {|
  toLowerCase := lower_blocks;
  toLowerCase_empty := eq_refl;
  toLowerCase_nbsp := lower_blocks_nbsp
|}.

(** ** Normalizer on absent text *)

Section NormalizerAbsent.
Context {LC : LowerCase}.

Lemma normalizeText_of_empty (s : JsText) :
  text_or_empty s = [] -> normalizeText s = [].
Proof.
  intros H. unfold normalizeText. rewrite H. simpl.
  rewrite toLowerCase_empty. reflexivity.
Qed.

(** C10: [normalizeText] returns the empty string for [null], for
    [undefined] and for the empty string, and an entry without a text
    field is compared through the empty normalized text: it matches
    exactly the entries whose text normalizes to the empty string. *)
Theorem normalizeText_absent :
  normalizeText TextNull = []
  /\ normalizeText TextUndefined = []
  /\ normalizeText (TextStr []) = []
  /\ forall (other : Entry) (i author : Z) (atts : option (list Attachment)),
       let cur := {| id := i; from_id := author; text := TextUndefined;
                     attachments := atts |} in
       sameText other cur = jsstring_eqb (normalizeText (text other)) []
       /\ sameText cur other = jsstring_eqb [] (normalizeText (text other)).
Proof.
  repeat split; try (apply normalizeText_of_empty; reflexivity);
    unfold sameText; simpl;
    rewrite (normalizeText_of_empty TextUndefined) by reflexivity; reflexivity.
Qed.
End NormalizerAbsent.

(** ** Attachment signature: order independence *)

Lemma str_leb_total (a b : jsstring) : str_leb a b = true \/ str_leb b a = true.
Proof.
  revert b. induction a as [|x a IH]; intros [|y b]; simpl; auto.
  destruct (N.ltb_spec x y), (N.ltb_spec y x); auto; lia.
Qed.

Lemma str_leb_antisym (a b : jsstring) :
  str_leb a b = true -> str_leb b a = true -> a = b.
Proof.
  revert b. induction a as [|x a IH]; intros [|y b]; simpl; try done.
  destruct (N.ltb_spec x y), (N.ltb_spec y x); try done; try lia.
  intros Hab Hba. f_equal; [lia | auto].
Qed.

Lemma str_leb_trans (a b c : jsstring) :
  str_leb a b = true -> str_leb b c = true -> str_leb a c = true.
Proof.
  revert b c. induction a as [|x a IH]; intros [|y b] [|z c]; simpl; try done.
  destruct (N.ltb_spec x y), (N.ltb_spec y x), (N.ltb_spec y z),
    (N.ltb_spec z y), (N.ltb_spec x z), (N.ltb_spec z x);
    try done; try lia.
  apply IH.
Qed.

#[global] Instance str_le_total : Total str_le.
Proof. intros a b. apply str_leb_total. Qed.
#[global] Instance str_le_trans : Transitive str_le.
Proof. intros a b c. apply str_leb_trans. Qed.
#[global] Instance str_le_antisym : AntiSymm (=) str_le.
Proof. intros a b. apply str_leb_antisym. Qed.

Lemma sort_strings_sorted (l : list jsstring) : Sorted str_le (sort_strings l).
Proof. apply (Sorted_merge_sort str_le). Qed.

Lemma sort_strings_perm (l : list jsstring) : sort_strings l ≡ₚ l.
Proof. apply merge_sort_Permutation. Qed.

Lemma sort_strings_permuted (l1 l2 : list jsstring) :
  l1 ≡ₚ l2 -> sort_strings l1 = sort_strings l2.
Proof.
  intros Hperm.
  apply (Sorted_unique str_le); try apply sort_strings_sorted.
  by rewrite !sort_strings_perm.
Qed.

(** C8: the attachment signature does not depend on the order of the
    attachments: a permutation of the list, under the same ignore flag,
    has the same signature. *)
Theorem attsHash_order_independent
    (atts atts' : list Attachment) (ignore : bool) :
  atts ≡ₚ atts' ->
  attsHash (Some atts) ignore = attsHash (Some atts') ignore.
Proof.
  intros Hperm. unfold attsHash.
  rewrite <- (Permutation_length Hperm).
  destruct (ignore || (length atts =? 0)%nat); [done |].
  f_equal. apply sort_strings_permuted.
  by apply Permutation_map.
Qed.

Example attsHash_sample :
  attsHash (Some [sticker 7; photo (-5) 12; photo (-5) 3]) false
  = js "photo:-5:12::|photo:-5:3::|sticker:::st:7:".
Proof. vm_compute. reflexivity. Qed.

Lemma attsHash_order_independent_witness :
  [sticker 7; photo (-5) 12; photo (-5) 3] ≡ₚ [photo (-5) 3; sticker 7; photo (-5) 12]
  /\ attsHash (Some [sticker 7; photo (-5) 12; photo (-5) 3]) false
     = attsHash (Some [photo (-5) 3; sticker 7; photo (-5) 12]) false.
Proof.
  assert (Hperm : [sticker 7; photo (-5) 12; photo (-5) 3]
                  ≡ₚ [photo (-5) 3; sticker 7; photo (-5) 12]).
  { transitivity [sticker 7; photo (-5) 3; photo (-5) 12];
      [apply perm_skip, perm_swap | apply perm_swap]. }
  split; [exact Hperm |].
  apply (attsHash_order_independent _ _ false Hperm).
Defined.

(** ** The duplicate planner *)

Section PlannerFacts.
Context {LC : LowerCase}.
Variable ignoreAtts : bool.

Lemma same_signature_spec (a b : Entry) :
  same_signature ignoreAtts a b = true <->
  from_id a = from_id b
  /\ normalizeText (text a) = normalizeText (text b)
  /\ attsHash (attachments a) ignoreAtts = attsHash (attachments b) ignoreAtts.
Proof.
  unfold same_signature, sameAuthor, sameText, sameAtts, jsstring_eqb.
  rewrite !andb_true_iff, Z.eqb_eq, !bool_decide_eq_true. tauto.
Qed.

Lemma same_signature_refl (a : Entry) : same_signature ignoreAtts a a = true.
Proof. by apply same_signature_spec. Qed.

Lemma same_signature_sym (a b : Entry) :
  same_signature ignoreAtts a b = true -> same_signature ignoreAtts b a = true.
Proof. rewrite !same_signature_spec. intuition congruence. Qed.

Lemma same_signature_trans (a b c : Entry) :
  same_signature ignoreAtts a b = true -> same_signature ignoreAtts b c = true ->
  same_signature ignoreAtts a c = true.
Proof. rewrite !same_signature_spec. intuition congruence. Qed.

Lemma same_signature_differs (k p e : Entry) :
  same_signature ignoreAtts k p = true -> same_signature ignoreAtts p e = false ->
  same_signature ignoreAtts k e = false.
Proof.
  intros Hkp Hpe. destruct (same_signature ignoreAtts k e) eqn:Hke; [| done].
  rewrite <- Hpe. symmetry.
  eauto using same_signature_trans, same_signature_sym.
Qed.

Lemma plan_step_kept (k cur : Entry) (d : list Z) :
  plan_step ignoreAtts (Some k, d) cur
  = if same_signature ignoreAtts k cur then (Some k, d ++ [id cur]) else (Some cur, d).
Proof. reflexivity. Qed.

Lemma plan_step_first (cur : Entry) (d : list Z) :
  plan_step ignoreAtts (None, d) cur = (Some cur, d).
Proof. reflexivity. Qed.

Lemma plan_loop_cons (e : Entry) (l : list Entry) (st : PlanState) :
  plan_loop ignoreAtts (e :: l) st
  = plan_loop ignoreAtts l (plan_step ignoreAtts st e).
Proof. reflexivity. Qed.

Lemma plan_loop_nil (st : PlanState) : plan_loop ignoreAtts [] st = st.
Proof. reflexivity. Qed.

Lemma plan_loop_app (l1 l2 : list Entry) (st : PlanState) :
  plan_loop ignoreAtts (l1 ++ l2) st
  = plan_loop ignoreAtts l2 (plan_loop ignoreAtts l1 st).
Proof. apply fold_left_app. Qed.

(** The plan only grows at its end. *)
Lemma plan_loop_prefix (l : list Entry) (k : option Entry) (d : list Z) :
  plan_loop ignoreAtts l (k, d)
  = (fst (plan_loop ignoreAtts l (k, [])),
     d ++ snd (plan_loop ignoreAtts l (k, []))).
Proof.
  revert k d. induction l as [|e l IH]; intros k d.
  - rewrite !plan_loop_nil. simpl. by rewrite app_nil_r.
  - rewrite !plan_loop_cons. destruct k as [k|].
    + rewrite !plan_step_kept. destruct (same_signature ignoreAtts k e).
      * rewrite (IH (Some k) (d ++ [id e])), (IH (Some k) ([] ++ [id e])).
        simpl. by rewrite <- app_assoc.
      * apply IH.
    + rewrite !plan_step_first. apply IH.
Qed.

(** After a non-empty sequence the kept reference has the signature of
    the last entry processed. *)
Lemma plan_loop_kept_last (l : list Entry) (e : Entry) (st : PlanState) :
  exists k, fst (plan_loop ignoreAtts (l ++ [e]) st) = Some k
            /\ same_signature ignoreAtts k e = true.
Proof.
  rewrite plan_loop_app, plan_loop_cons, plan_loop_nil.
  destruct (plan_loop ignoreAtts l st) as [[k|] d].
  - rewrite plan_step_kept. destruct (same_signature ignoreAtts k e) eqn:Hke; simpl.
    + eauto.
    + eauto using same_signature_refl.
  - rewrite plan_step_first. simpl. eauto using same_signature_refl.
Qed.

(** Entries with the signature of the kept reference are all planned,
    and the reference stays. *)
Lemma plan_loop_run (k : Entry) (rest : list Entry) (d : list Z) :
  Forall (fun e => same_signature ignoreAtts k e = true) rest ->
  plan_loop ignoreAtts rest (Some k, d) = (Some k, d ++ List.map id rest).
Proof.
  intros Hrest. revert d. induction Hrest as [|e rest He _ IH]; intros d.
  - rewrite plan_loop_nil. simpl. by rewrite app_nil_r.
  - rewrite plan_loop_cons, plan_step_kept, He, IH. simpl.
    by rewrite <- app_assoc.
Qed.

(** An entry that differs from the kept reference restarts the loop. *)
Lemma plan_loop_restart (k : Entry) (l : list Entry) (d : list Z) :
  match head l with Some q => same_signature ignoreAtts k q = false | None => True end ->
  snd (plan_loop ignoreAtts l (Some k, d)) = d ++ plan_entries ignoreAtts l.
Proof.
  destruct l as [|q l]; intros Hq.
  - simpl. by rewrite app_nil_r.
  - simpl in Hq. unfold plan_entries.
    rewrite !plan_loop_cons, plan_step_kept, Hq, plan_step_first.
    by rewrite plan_loop_prefix.
Qed.

(** The first entry of a maximal run becomes the kept reference. *)
Lemma plan_loop_run_start (pre : list Entry) (first : Entry) :
  match last pre with Some p => same_signature ignoreAtts p first = false | None => True end ->
  plan_loop ignoreAtts (pre ++ [first]) (None, [])
  = (Some first, plan_entries ignoreAtts pre).
Proof.
  intros Hp. destruct (decide (pre = [])) as [-> | Hne]; [done |].
  destruct (exists_last Hne) as (pre' & p & ->).
  rewrite last_snoc in Hp.
  destruct (plan_loop_kept_last pre' p (None, [])) as (k & Hk & Hkp).
  rewrite plan_loop_app. unfold plan_entries.
  rewrite plan_loop_cons, plan_loop_nil.
  destruct (plan_loop ignoreAtts (pre' ++ [p]) (None, [])) as [k' d].
  simpl in Hk. subst k'. rewrite plan_step_kept.
  by rewrite (same_signature_differs k p first).
Qed.

(** C1: in a sequence that holds a maximal run [first :: rest] of
    entries with pairwise equal signatures (the entry before the run, if
    any, and the entry after it, if any, have another signature), the
    planner appends exactly the identifiers of [rest], the entries 2 to
    k of the run, between the plan of what precedes and the plan of
    what follows; the kept reference is [first] after each entry of the
    run. *)
Theorem plan_maximal_run (pre rest post : list Entry) (first : Entry) :
  Forall (fun e => same_signature ignoreAtts first e = true) rest ->
  match last pre with Some p => same_signature ignoreAtts p first = false | None => True end ->
  match head post with Some q => same_signature ignoreAtts first q = false | None => True end ->
  plan_entries ignoreAtts (pre ++ first :: rest ++ post)
  = plan_entries ignoreAtts pre ++ List.map id rest ++ plan_entries ignoreAtts post
  /\ forall n : nat,
       fst (plan_loop ignoreAtts (pre ++ first :: take n rest) (None, []))
       = Some first.
Proof.
  intros Hrest Hpre Hpost. split.
  - unfold plan_entries at 1.
    rewrite (cons_middle first), app_assoc, plan_loop_app, plan_loop_app.
    rewrite plan_loop_run_start by done.
    rewrite plan_loop_run by done.
    rewrite plan_loop_restart by done.
    by rewrite app_assoc.
  - intros n.
    rewrite (cons_middle first), app_assoc, plan_loop_app.
    rewrite plan_loop_run_start by done.
    rewrite plan_loop_run; [done |].
    by apply Forall_take.
Qed.
End PlannerFacts.

Example scenario_A :
  plan_entries true [comment 1 10 "hi"; comment 2 10 "hi"; comment 3 10 "bye"] = [2].
Proof. vm_compute. reflexivity. Qed.

Example scenario_B :
  plan_entries false [comment 1 10 "hi"; comment 2 20 "hi"; comment 3 10 "hi"] = [].
Proof. vm_compute. reflexivity. Qed.

Example plan_triple :
  plan_entries false
    [comment 1 10 "Hi  there"; comment 2 10 "hi there "; comment 3 10 "HI THERE";
     comment 4 10 "bye"]
  = [2; 3].
Proof. vm_compute. reflexivity. Qed.

Lemma plan_maximal_run_witness :
  plan_entries false
    ([comment 1 10 "x"] ++ comment 2 10 "hi" :: [comment 3 10 "Hi "; comment 4 10 "HI"]
       ++ [comment 5 11 "hi"])
  = plan_entries false [comment 1 10 "x"]
      ++ List.map id [comment 3 10 "Hi "; comment 4 10 "HI"]
      ++ plan_entries false [comment 5 11 "hi"]
  /\ forall n : nat,
       fst (plan_loop false
              ([comment 1 10 "x"]
                 ++ comment 2 10 "hi" :: take n [comment 3 10 "Hi "; comment 4 10 "HI"])
              (None, []))
       = Some (comment 2 10 "hi").
Proof.
  apply (plan_maximal_run false [comment 1 10 "x"]
           [comment 3 10 "Hi "; comment 4 10 "HI"] [comment 5 11 "hi"]
           (comment 2 10 "hi")).
  - repeat constructor; vm_compute; reflexivity.
  - vm_compute. reflexivity.
  - vm_compute. reflexivity.
Defined.

Section PlannerSubsequence.
Context {LC : LowerCase}.
Variable ignoreAtts : bool.

Lemma plan_loop_sublist (l : list Entry) (k : Entry) :
  snd (plan_loop ignoreAtts l (Some k, [])) `sublist_of` List.map id l.
Proof.
  revert k. induction l as [|e l IH]; intros k.
  - rewrite plan_loop_nil. simpl. constructor.
  - rewrite plan_loop_cons, plan_step_kept.
    destruct (same_signature ignoreAtts k e).
    + rewrite plan_loop_prefix. simpl. apply sublist_skip, IH.
    + simpl. apply sublist_cons, IH.
Qed.

(** C2, amended: the plan is a subsequence, in input order, of the
    identifiers of the entries after the first: the first yielded entry
    is never selected. When the identifiers of the sequence are
    pairwise distinct, the identifier of the first entry is not in the
    plan. *)
Theorem plan_subsequence_after_first (entries : list Entry) :
  plan_entries ignoreAtts entries `sublist_of` List.map id (tail entries)
  /\ plan_entries ignoreAtts entries `sublist_of` List.map id entries
  /\ (NoDup (List.map id entries) ->
      forall first : Entry,
        head entries = Some first ->
        id first ∉ plan_entries ignoreAtts entries).
Proof.
  assert (Htail : plan_entries ignoreAtts entries
                  `sublist_of` List.map id (tail entries)).
  { destruct entries as [|e l]; [constructor |].
    unfold plan_entries. rewrite plan_loop_cons, plan_step_first.
    apply plan_loop_sublist. }
  split; [exact Htail |]. split.
  - destruct entries as [|e l]; [exact Htail |].
    simpl. by apply sublist_cons.
  - intros Hnodup first Hfirst Hin.
    destruct entries as [|e l]; [done |].
    simpl in Hfirst. injection Hfirst as ->.
    simpl in Hnodup. apply NoDup_cons in Hnodup as [Hfresh _].
    apply Hfresh. by apply (sublist_subseteq _ _ Htail).
Qed.
End PlannerSubsequence.

(** C2, as stated, fails when the paginator yields an entry twice in a
    row: the second copy matches the first, and the identifier they share
    is planned. *)
Lemma first_identifier_planned :
  let first := comment 1 10 "hi" in
  let entries := [first; first] in
  head entries = Some first /\ id first ∈ plan_entries false entries.
Proof. simpl. split; [reflexivity |]. vm_compute. apply list_elem_of_here. Qed.

Lemma plan_subsequence_after_first_witness :
  let entries := [comment 1 10 "hi"; comment 2 10 "hi"; comment 3 10 "bye"] in
  NoDup (List.map id entries)
  /\ id (comment 1 10 "hi") ∉ plan_entries false entries.
Proof.
  assert (Hnodup : NoDup (List.map id
            [comment 1 10 "hi"; comment 2 10 "hi"; comment 3 10 "bye"])).
  { apply (bool_decide_unpack _). vm_compute. exact I. }
  split; [exact Hnodup |].
  apply (plan_subsequence_after_first false
           [comment 1 10 "hi"; comment 2 10 "hi"; comment 3 10 "bye"]);
    [exact Hnodup | reflexivity].
Defined.

(** ** The resilient call wrapper *)

(** *** Numbers against counters *)

Lemma ge_number_ceiling (a : Z) (q : Q) : ge_number a (Num q) = (Qceiling q <=? a).
Proof.
  unfold ge_number. apply Bool.eq_iff_eq_true.
  rewrite Qle_bool_iff, Z.leb_le. split.
  - intros Hle. apply Qceiling_resp_le in Hle. by rewrite Qceiling_Z in Hle.
  - intros Hle. eapply Qle_trans; [apply Qle_ceiling |]. by rewrite <- Zle_Qle.
Qed.

Lemma ge_number_int (a z : Z) : ge_number a (Int z) = (z <=? a).
Proof. unfold Int. by rewrite ge_number_ceiling, Qceiling_Z. Qed.

Lemma lt_number_ceiling (a : Z) (q : Q) : lt_number a q = (a <? Qceiling q).
Proof.
  unfold lt_number. fold (ge_number a (Num q)).
  rewrite ge_number_ceiling, Z.ltb_antisym. done.
Qed.

Lemma ceiling_positive (q : Q) : (1 <= q)%Q -> 1 <= Qceiling q.
Proof.
  intros Hq. apply Qceiling_resp_le in Hq.
  change (Qceiling 1) with 1 in Hq. exact Hq.
Qed.

(** *** The attempts *)

Section RetryFacts.
Context {TN : ToNumber} {St A : Type}.
Variable random_floor : Z -> St -> Z * St.
Variable sleep : Z -> St -> St.

Lemma withRetries_turn_again (fn : St -> Outcome A * St)
    (maxR : JsNumber) (base attempt attempt' : Z) (s s1 : St) :
  withRetries_turn random_floor sleep fn maxR base attempt s = (Again attempt', s1) ->
  ge_number attempt maxR = false /\ attempt' = attempt + 1.
Proof.
  unfold withRetries_turn. destruct (fn s) as [[a | e] s2]; [done |].
  destruct (negb (retriable (err_code e))); simpl; [done |].
  destruct (ge_number attempt maxR); [done |].
  by intros [= <- _].
Qed.

Lemma withRetries_loop_settles (fn : St -> Outcome A * St) (fuel : nat)
    (q : Q) (base attempt : Z) (s : St) :
  (Z.to_nat (Qceiling q - attempt) < fuel)%nat ->
  fst (withRetries_loop random_floor sleep fn fuel (Num q) base attempt s) <> OutOfFuel.
Proof.
  revert attempt s. induction fuel as [|fuel IH]; intros attempt s Hfuel; [lia |].
  simpl.
  destruct (withRetries_turn random_floor sleep fn (Num q) base attempt s)
    as [[[a | e] | attempt'] s1] eqn:Hturn; [done | done |].
  apply withRetries_turn_again in Hturn as [Hlt ->].
  rewrite ge_number_ceiling in Hlt. apply Z.leb_gt in Hlt.
  apply IH. lia.
Qed.

(** Under a finite [maxRetries] the loop of [withRetries] leaves within
    [ceil(maxRetries) + 1] turns: the call returns or throws. *)
Lemma withRetries_settles (fn : St -> Outcome A * St) (cfg : RetryCfg) (q : Q)
    (fuel : nat) (s : St) :
  default (Int (d_maxRetries DEFAULTS)) (maxRetries cfg) = Num q ->
  (Z.to_nat (Qceiling q) < fuel)%nat ->
  fst (withRetries random_floor sleep fn fuel cfg s) <> OutOfFuel.
Proof.
  intros Hq Hfuel. unfold withRetries. rewrite Hq.
  apply withRetries_loop_settles. by rewrite Z.sub_0_r.
Qed.

Variable fn : St -> Outcome A * St.

Local Abbreviation counted_loop :=
  (withRetries_loop (random_beside_counter random_floor)
                    (sleep_beside_counter sleep) (counting fn)).

Lemma backoff_beside_counter (attempt base max : Z) (n : nat) (s : St) :
  backoff (random_beside_counter random_floor) (sleep_beside_counter sleep)
          attempt base max (n, s)
  = (n, backoff random_floor sleep attempt base max s).
Proof.
  unfold backoff, random_beside_counter, sleep_beside_counter.
  by destruct (random_floor _ s).
Qed.

(** A turn on the counted operation is a turn on the operation, and
    one more invocation. *)
Lemma counted_turn (maxR : JsNumber) (base attempt : Z) (n : nat) (s : St) :
  withRetries_turn (random_beside_counter random_floor) (sleep_beside_counter sleep)
                   (counting fn) maxR base attempt (n, s)
  = let '(t, s1) := withRetries_turn random_floor sleep fn maxR base attempt s in
    (t, (S n, s1)).
Proof.
  unfold withRetries_turn, counting. destruct (fn s) as [[a | e] s1]; [done |].
  destruct (negb (retriable (err_code e)) || ge_number attempt maxR); [done |].
  by rewrite backoff_beside_counter.
Qed.

Lemma counted_loop_step (fuel : nat) (maxR : JsNumber) (base attempt : Z)
    (n : nat) (s : St) :
  counted_loop (S fuel) maxR base attempt (n, s)
  = match withRetries_turn random_floor sleep fn maxR base attempt s with
    | (Done (Returned a), s1) => (Ok a, (S n, s1))
    | (Done (Thrown e), s1) => (Raise e, (S n, s1))
    | (Again attempt', s1) => counted_loop fuel maxR base attempt' (S n, s1)
    end.
Proof.
  cbn [withRetries_loop]. rewrite counted_turn.
  by destruct (withRetries_turn random_floor sleep fn maxR base attempt s)
    as [[[a | e] | attempt'] s1].
Qed.

Lemma counted_loop_fatal (fuel : nat) (maxR : JsNumber) (base attempt : Z)
    (n : nat) (s : St) (e : JsError) (s1 : St) :
  fn s = (Thrown e, s1) -> retriable (err_code e) = false ->
  counted_loop (S fuel) maxR base attempt (n, s)
  = (Raise (new_Error (failure_text (err_code e) (error_text e) attempt)), (S n, s1)).
Proof.
  intros Hfn Hfatal. rewrite counted_loop_step.
  unfold withRetries_turn. rewrite Hfn, Hfatal. reflexivity.
Qed.

Section AlwaysRetriable.
Hypothesis fn_retriable :
  forall s, exists e s1, fn s = (Thrown e, s1) /\ retriable (err_code e) = true.

(** Against a finite [maxRetries] the operation is invoked until the
    attempt counter reaches its ceiling. *)
Lemma counted_loop_retriable (fuel : nat) (q : Q) (base : Z) :
  forall (attempt : Z) (n : nat) (s : St),
    attempt <= Qceiling q -> (Z.to_nat (Qceiling q - attempt) < fuel)%nat ->
    exists e s0 s1,
      fn s0 = (Thrown e, s1) /\ retriable (err_code e) = true
      /\ counted_loop fuel (Num q) base attempt (n, s)
         = (Raise (new_Error (failure_text (err_code e) (error_text e) (Qceiling q))),
            ((n + Z.to_nat (Qceiling q - attempt) + 1)%nat, s1)).
Proof.
  induction fuel as [|fuel IH]; intros attempt n s Hle Hfuel; [lia |].
  destruct (fn_retriable s) as (e & s1 & He & Hretry).
  rewrite counted_loop_step. unfold withRetries_turn.
  rewrite He, Hretry, ge_number_ceiling. cbn [negb orb].
  destruct (Z.leb_spec (Qceiling q) attempt) as [Hlast | Hmore].
  - assert (attempt = Qceiling q) as -> by lia.
    exists e, s, s1. repeat split; try done.
    do 2 f_equal. lia.
  - destruct (IH (attempt + 1) (S n)
                 (backoff random_floor sleep (attempt + 1) base
                          (d_maxBackoffMs DEFAULTS) s1))
      as (e' & s0 & s2 & He' & Hretry' & Hloop); [lia | lia |].
    exists e', s0, s2. repeat split; try done.
    rewrite Hloop. do 2 f_equal. lia.
Qed.

(** Against a [maxRetries] that is [NaN] it is invoked as long as the
    loop is followed. *)
Lemma counted_loop_forever (fuel : nat) (base : Z) :
  forall (attempt : Z) (n : nat) (s : St),
    exists s1, counted_loop fuel NaN base attempt (n, s) = (OutOfFuel, ((n + fuel)%nat, s1)).
Proof.
  induction fuel as [|fuel IH]; intros attempt n s.
  - exists s. simpl. do 2 f_equal. lia.
  - destruct (fn_retriable s) as (e & s1 & He & Hretry).
    rewrite counted_loop_step. unfold withRetries_turn.
    rewrite He, Hretry. cbn [negb orb ge_number].
    destruct (IH (attempt + 1) (S n)
                 (backoff random_floor sleep (attempt + 1) base
                          (d_maxBackoffMs DEFAULTS) s1)) as [s2 ->].
    exists s2. do 2 f_equal. lia.
Qed.
End AlwaysRetriable.

(** C3: an operation that fails with a fatal classification whenever it
    is invoked is invoked exactly once, whatever [maxRetries] is, [NaN]
    included. An operation that fails with a retriable classification
    (code 6, code 10 or a 5xx code) whenever it is invoked is invoked
    exactly [maxRetries + 1] times when [maxRetries] is a whole number
    that is not negative; a whole code is retriable when it is 6, 10 or
    from 500 to 599, and fatal otherwise. In both cases [withRetries] then throws a new
    [Error] whose message is [VK API failed: code=], the code of the last
    failure, [, msg=], its message, [, attempt=] and the attempt counter in
    decimal: no retry for the fatal failure, [maxRetries] retries for
    the other. The code does not round [maxRetries]: against a finite
    value that is not whole the counts are those of its ceiling, and
    against [NaN] the retriable operation is invoked for ever. *)
Theorem withRetries_attempts (cfg : RetryCfg) (fuel n : nat) (s : St) :
  let maxR := default (Int (d_maxRetries DEFAULTS)) (maxRetries cfg) in
  let counted :=
    withRetries (random_beside_counter random_floor) (sleep_beside_counter sleep)
                (counting fn) fuel cfg (n, s) in
  let wrapped (e : JsError) (attempt : Z) :=
    new_Error (js "VK API failed: code=" ++ code_text (err_code e)
                 ++ js ", msg=" ++ error_text e
                 ++ js ", attempt=" ++ String_of_Z attempt) in
  ((forall s, exists e s1, fn s = (Thrown e, s1) /\ retriable (err_code e) = false) ->
   (0 < fuel)%nat ->
   exists e s1,
     fn s = (Thrown e, s1)
     /\ counted = (Raise (wrapped e 0), ((n + 1)%nat, s1)))
  /\ ((forall s, exists e s1, fn s = (Thrown e, s1) /\ retriable (err_code e) = true) ->
      (forall N : Z,
         maxR = Int N -> 0 <= N -> (Z.to_nat N < fuel)%nat ->
         exists e s0 s1,
           fn s0 = (Thrown e, s1) /\ retriable (err_code e) = true
           /\ counted = (Raise (wrapped e N), ((n + (Z.to_nat N + 1))%nat, s1)))
      /\ (forall q : Q,
            maxR = Num q -> 0 <= Qceiling q -> (Z.to_nat (Qceiling q) < fuel)%nat ->
            exists e s0 s1,
              fn s0 = (Thrown e, s1) /\ retriable (err_code e) = true
              /\ counted = (Raise (wrapped e (Qceiling q)),
                            ((n + (Z.to_nat (Qceiling q) + 1))%nat, s1)))
      /\ (maxR = NaN ->
          exists s1, counted = (OutOfFuel, ((n + fuel)%nat, s1))))
  /\ (forall c : Z,
        retriable (code_int c) = true <-> c = 6 \/ c = 10 \/ 500 <= c < 600).
Proof.
  intros maxR counted wrapped.
  assert (Hfinite : (forall s, exists e s1, fn s = (Thrown e, s1)
                                            /\ retriable (err_code e) = true) ->
            forall q : Q,
              maxR = Num q -> 0 <= Qceiling q -> (Z.to_nat (Qceiling q) < fuel)%nat ->
              exists e s0 s1,
                fn s0 = (Thrown e, s1) /\ retriable (err_code e) = true
                /\ counted = (Raise (wrapped e (Qceiling q)),
                              ((n + (Z.to_nat (Qceiling q) + 1))%nat, s1))).
  { intros Hretry q Hq Hpos Hfuel.
    destruct (counted_loop_retriable Hretry fuel q
                (default (d_baseBackoffMs DEFAULTS) (baseBackoffMs cfg)) 0 n s)
      as (e & s0 & s1 & He & Hcode & Hloop); [lia | by rewrite Z.sub_0_r |].
    exists e, s0, s1. repeat split; try done.
    unfold counted, withRetries. fold maxR. rewrite Hq, Hloop.
    rewrite Z.sub_0_r. unfold wrapped, failure_text. do 2 f_equal. lia. }
  split; [| split; [intros Hretry; split_and! |]].
  - intros Hfatal Hfuel. destruct (Hfatal s) as (e & s1 & He & Hcode).
    exists e, s1. split; [done |].
    unfold counted, withRetries. fold maxR.
    destruct fuel as [|fuel']; [lia |].
    rewrite (counted_loop_fatal _ _ _ _ _ _ e s1) by done.
    unfold wrapped, failure_text. do 2 f_equal. lia.
  - intros N HN Hpos Hfuel.
    destruct (Hfinite Hretry (inject_Z N) HN) as (e & s0 & s1 & He & Hcode & Hcount);
      rewrite ?Qceiling_Z; try done.
    rewrite Qceiling_Z in Hcount. by exists e, s0, s1.
  - by apply Hfinite.
  - intros Hnan. unfold counted, withRetries. fold maxR. rewrite Hnan.
    apply (counted_loop_forever Hretry).
  - intros c. unfold retriable.
    rewrite !orb_true_iff, andb_true_iff, !Z.eqb_eq, Z.leb_le, Z.ltb_lt. tauto.
Qed.
End RetryFacts.

Lemma call_settles {TN : ToNumber} {P : Platform} {A}
    (fn : World -> Outcome A * World) (w : World) :
  fst (call fn w) <> OutOfFuel.
Proof.
  unfold call.
  apply (withRetries_settles _ _ fn no_cfg (inject_Z 6)); [reflexivity |].
  vm_compute. lia.
Qed.

Example denied_once :
  withRetries (random_beside_counter no_random) (sleep_beside_counter no_sleep)
              (counting denied_op) 9 {| maxRetries := Some (Int 3); baseBackoffMs := None |}
              (O, tt)
  = (Raise (new_Error (js "VK API failed: code=15, msg=Access denied, attempt=0")),
     (1%nat, tt)).
Proof. vm_compute. reflexivity. Qed.

Example flooded_four_times :
  withRetries (random_beside_counter no_random) (sleep_beside_counter no_sleep)
              (counting flooded_op) 9 {| maxRetries := Some (Int 3); baseBackoffMs := None |}
              (O, tt)
  = (Raise (new_Error
       (js "VK API failed: code=6, msg=Too many requests per second, attempt=3")),
     (4%nat, tt)).
Proof. vm_compute. reflexivity. Qed.

(** A [maxRetries] of 2.5 gives four invocations, and [NaN] gives as
    many as the loop is followed for. *)
Example flooded_by_the_half :
  withRetries (random_beside_counter no_random) (sleep_beside_counter no_sleep)
              (counting flooded_op) 9
              {| maxRetries := Some (Num (5 # 2)); baseBackoffMs := None |} (O, tt)
  = (Raise (new_Error
       (js "VK API failed: code=6, msg=Too many requests per second, attempt=3")),
     (4%nat, tt))
  /\ withRetries (random_beside_counter no_random) (sleep_beside_counter no_sleep)
                 (counting flooded_op) 9
                 {| maxRetries := Some NaN; baseBackoffMs := None |} (O, tt)
     = (OutOfFuel, (9%nat, tt)).
Proof. vm_compute. done. Qed.

(** A code that is a string: [ECONNRESET] is fatal and is printed as it
    is; [502] is compared as the number 502 and retried. *)
Example string_codes :
  withRetries (random_beside_counter no_random) (sleep_beside_counter no_sleep)
              (counting (fun s : unit =>
                           (@Thrown Z (host_error "ECONNRESET" "socket hang up"), s)))
              9 {| maxRetries := Some (Int 3); baseBackoffMs := None |} (O, tt)
  = (Raise (new_Error
       (js "VK API failed: code=ECONNRESET, msg=socket hang up, attempt=0")),
     (1%nat, tt))
  /\ withRetries (random_beside_counter no_random) (sleep_beside_counter no_sleep)
                 (counting (fun s : unit =>
                              (@Thrown Z (host_error "502" "Bad Gateway"), s)))
                 9 {| maxRetries := Some (Int 3); baseBackoffMs := None |} (O, tt)
     = (Raise (new_Error (js "VK API failed: code=502, msg=Bad Gateway, attempt=3")),
        (4%nat, tt)).
Proof. vm_compute. done. Qed.

Lemma withRetries_attempts_witness :
  let cfg := {| maxRetries := Some (Int 3); baseBackoffMs := None |} in
  let counted op :=
    withRetries (random_beside_counter no_random) (sleep_beside_counter no_sleep)
                (counting op) 9 cfg (O, tt) in
  counted denied_op
  = (Raise (new_Error (js "VK API failed: code=15, msg=Access denied, attempt=0")),
     (1%nat, tt))
  /\ counted flooded_op
     = (Raise (new_Error
          (js "VK API failed: code=6, msg=Too many requests per second, attempt=3")),
        (4%nat, tt)).
Proof.
  intros cfg counted. split.
  - destruct (proj1 (withRetries_attempts no_random no_sleep denied_op cfg 9 O tt))
      as (e & s1 & He & Hcount).
    + intros s. exists (api_error 15 "Access denied"), s. split; reflexivity.
    + lia.
    + destruct s1. injection He as <-. exact Hcount.
  - destruct (proj1 (proj2 (withRetries_attempts no_random no_sleep flooded_op
                               cfg 9 O tt)))
      as (Hwhole & _).
    + intros s. exists (api_error 6 "Too many requests per second"), s.
      split; reflexivity.
    + destruct (Hwhole 3 eq_refl ltac:(lia) ltac:(simpl; lia))
        as (e & s0 & s1 & He & _ & Hcount).
      destruct s0, s1. injection He as <-. exact Hcount.
Defined.

(** ** Dry run *)

Lemma slice_head {A} (l : list A) (n : Z) :
  0 <= n ->
  slice l 0 (Some (Z.min n (Z.of_nat (length l)))) = take (Z.to_nat n) l.
Proof.
  intros Hn. unfold slice, slice_index. simpl.
  destruct (Z.ltb_spec (Z.min n (Z.of_nat (length l))) 0) as [Hneg | _]; [lia |].
  replace (Z.to_nat (Z.min 0 (Z.of_nat (length l)))) with O by lia.
  rewrite Nat.sub_0_r, drop_0.
  destruct (Z.le_ge_cases n (Z.of_nat (length l))).
  - f_equal. lia.
  - rewrite !take_ge; [done | lia | lia].
Qed.

Lemma slice_tail {A} (l : list A) (n : Z) :
  0 <= n ->
  slice l (Z.max (Z.of_nat (length l) - n) 0) None
  = drop (length l - Z.to_nat n) l.
Proof.
  intros Hn. unfold slice, slice_index. simpl.
  destruct (Z.ltb_spec (Z.max (Z.of_nat (length l) - n) 0) 0) as [Hneg | _]; [lia |].
  destruct (Z.ltb_spec (Z.of_nat (length l)) 0) as [Hneg | _]; [lia |].
  replace (Z.to_nat (Z.min (Z.max (Z.of_nat (length l) - n) 0) (Z.of_nat (length l))))
    with (length l - Z.to_nat n)%nat by lia.
  apply take_ge. rewrite length_drop. lia.
Qed.

Section DryRun.
Context {LC : LowerCase} {TN : ToNumber} {P : Platform}.

Lemma reads_only_refl (w : World) : reads_only w w.
Proof. exists []. by rewrite app_nil_r. Qed.

Lemma reads_only_trans (w1 w2 w3 : World) :
  reads_only w1 w2 -> reads_only w2 w3 -> reads_only w1 w3.
Proof.
  intros (r1 & H1 & F1) (r2 & H2 & F2). exists (r1 ++ r2).
  rewrite H2, H1, app_assoc. split; [done | by apply Forall_app].
Qed.

Lemma reads_only_same (w w' : World) :
  w_requests w' = w_requests w -> reads_only w w'.
Proof. intros H. exists []. by rewrite app_nil_r. Qed.

Lemma reads_only_console (line : LogLine) (w : World) : reads_only w (console line w).
Proof. by apply reads_only_same. Qed.

Lemma reads_only_on_env {B} (f : Env -> B * Env) (c : ApiCall) (w : World) :
  is_read c -> reads_only w (snd (on_env f (Some c) w)).
Proof.
  intros Hc. unfold on_env. destruct (f (w_env w)) as [b e1]. simpl.
  exists [c]. split; [done | by constructor].
Qed.

Lemma reads_only_backoff (attempt base max : Z) (w : World) :
  reads_only w (backoff w_random_floor w_sleep attempt base max w).
Proof.
  apply reads_only_same. unfold backoff, w_random_floor, w_sleep, on_env. simpl.
  destruct (env_random_floor _ (w_env w)) as [delay e1]. simpl.
  by rewrite !app_nil_r.
Qed.

Create HintDb reads.
#[local] Hint Resolve reads_only_refl reads_only_console reads_only_backoff : reads.

Lemma reads_only_loop {A} (fn : World -> Outcome A * World)
    (fuel : nat) (maxR : JsNumber) (base attempt : Z) (w : World) :
  (forall w0, reads_only w0 (snd (fn w0))) ->
  reads_only w (snd (withRetries_loop w_random_floor w_sleep fn fuel maxR base attempt w)).
Proof.
  intros Hfn. revert attempt w.
  induction fuel as [|fuel IH]; intros attempt w; simpl; [auto with reads |].
  unfold withRetries_turn. specialize (Hfn w).
  destruct (fn w) as [[a | e] w1]; simpl in *; [done |].
  destruct (negb (retriable (err_code e)) || ge_number attempt maxR); simpl; [done |].
  eapply reads_only_trans; [exact Hfn |].
  eapply reads_only_trans; [apply reads_only_backoff | apply IH].
Qed.

Lemma reads_only_call {A} (fn : World -> Outcome A * World) (w : World) :
  (forall w0, reads_only w0 (snd (fn w0))) ->
  reads_only w (snd (call fn w)).
Proof. apply reads_only_loop. Qed.

Lemma reads_only_getComments (g t count offset : Z) (sort : SortOrder) (w : World) :
  reads_only w (snd (call (vkUser_getComments g t count offset sort) w)).
Proof. apply reads_only_call. intros w0. by apply reads_only_on_env. Qed.

Lemma reads_only_getServerTime (who : Credential) (w : World) :
  reads_only w (snd (call (vk_getServerTime who) w)).
Proof. apply reads_only_call. intros w0. by apply reads_only_on_env. Qed.

Lemma reads_only_for_await {B} (fuel : nat) (body : B -> Entry -> B)
    (g t offset : Z) (acc : B) (w : World) :
  reads_only w (snd (for_await_iterAsc fuel body g t offset acc w)).
Proof.
  revert offset acc w. induction fuel as [|fuel IH]; intros offset acc w; simpl;
    [auto with reads |].
  pose proof (reads_only_getComments g t page offset asc w) as Hcall.
  destruct (call (vkUser_getComments g t page offset asc) w)
    as [[reply | e |] w1]; simpl in *; try done.
  destruct (length (default [] (reply_items reply)) =? 0)%nat; simpl; [done |].
  destruct (Z.of_nat (length (default [] (reply_items reply))) <? page); simpl; [done |].
  eapply reads_only_trans; [exact Hcall | apply IH].
Qed.

Lemma reads_only_planDeletionsAsc (fuel : nat) (g t offset : Z) (ignoreAtts : bool)
    (w : World) :
  reads_only w (snd (planDeletionsAsc fuel g t offset ignoreAtts w)).
Proof.
  unfold planDeletionsAsc.
  pose proof (reads_only_for_await fuel (plan_step ignoreAtts) g t offset (None, []) w).
  by destruct (for_await_iterAsc _ _ _ _ _ _ w) as [[st | e |] w1].
Qed.

Lemma reads_only_getTotal (g t : Z) (w : World) :
  reads_only w (snd (getTotal g t w)).
Proof.
  unfold getTotal. pose proof (reads_only_getComments g t 1 0 desc w).
  by destruct (call _ w) as [[reply | e |] w1].
Qed.

Lemma reads_only_sanityCheck (w : World) : reads_only w (snd (sanityCheck w)).
Proof.
  unfold sanityCheck. pose proof (reads_only_getServerTime USER_TOKEN w) as H1.
  destruct (call (vk_getServerTime USER_TOKEN) w) as [[t1 | e |] w1];
    simpl in *; [| eauto using reads_only_trans with reads | done].
  pose proof (reads_only_getServerTime GROUP_TOKEN w1) as H2.
  destruct (call (vk_getServerTime GROUP_TOKEN) w1) as [[t2 | e |] w2];
    simpl in *; eauto using reads_only_trans with reads.
Qed.

Lemma reads_only_main_plan (fuel : nat) (g t : Z) (opts : Opts) (w : World) :
  reads_only w (snd (main_plan fuel g t opts w)).
Proof.
  unfold main_plan. pose proof (reads_only_sanityCheck (setupSignals w)) as H1.
  change (reads_only w (sanityCheck (setupSignals w)).2) in H1.
  destruct (sanityCheck (setupSignals w)) as [[[code |] | e |] w1]; simpl in *;
    try done.
  destruct (o_full opts); simpl.
  - pose proof (reads_only_planDeletionsAsc fuel g t 0 (o_ignoreAtts opts)
                  (console log_full_scan w1)) as H3.
    destruct (planDeletionsAsc _ _ _ _ _ _) as [[plan | e |] w3]; simpl in *;
      eauto using reads_only_trans with reads.
  - pose proof (reads_only_getTotal g t w1) as H2.
    destruct (getTotal g t w1) as [[total | e |] w2]; simpl in *;
      eauto using reads_only_trans.
    match goal with
    | |- context [planDeletionsAsc ?f ?a ?b ?c ?d ?w0] =>
        pose proof (reads_only_planDeletionsAsc f a b c d w0) as H3;
        destruct (planDeletionsAsc f a b c d w0) as [[plan | e |] w3]
    end; simpl in *; eauto using reads_only_trans with reads.
Qed.
End DryRun.

Section DryRunReport.
Context {LC : LowerCase} {TN : ToNumber} {P : Platform}.

Lemma dry_run_report_frame (planPreview : Z) (plan : list Z) (w : World) :
  w_env (dry_run_report planPreview plan w) = w_env w
  /\ w_requests (dry_run_report planPreview plan w) = w_requests w.
Proof.
  unfold dry_run_report.
  destruct (length plan =? 0)%nat; [done |].
  by destruct (length (slice plan _ None) =? 0)%nat.
Qed.

Lemma dry_run_report_console (planPreview : Z) (plan : list Z) (w : World) :
  0 < planPreview ->
  let n := Z.to_nat planPreview in
  let shown := Nat.min n (length plan) in
  w_console (dry_run_report planPreview plan w)
  = w_console w
      ++ log_dry_run (length plan)
         :: match plan with
            | [] => []
            | _ => [log_first shown (take n plan);
                    log_last shown (drop (length plan - n) plan)]
            end
      ++ [log_done_dry_run].
Proof.
  intros Hn n shown. unfold dry_run_report.
  destruct (Nat.eqb_spec (length plan) 0) as [Hnil | Hcons].
  - destruct plan; [| done]. simpl. by rewrite <- app_assoc.
  - rewrite slice_head, slice_tail by lia. fold n.
    rewrite length_take, length_drop.
    replace (length plan - (length plan - n))%nat with shown by (unfold shown; lia).
    replace (Nat.min n (length plan)) with shown by done.
    destruct (Nat.eqb_spec shown 0) as [Hzero | _]; [unfold shown in Hzero; lia |].
    destruct plan; [done |]. simpl. by rewrite <- !app_assoc.
Qed.
End DryRunReport.

(** ** The bounded executor: invariants of a run *)

Ltac pool_simpl :=
  cbn [p_i p_active p_resolved p_results p_flight p_promise p_started p_finished].

Section ExecutorFacts.
Context {W Item T R : Type}.
Variable mapper : Item -> nat -> T.
Variable resume : T -> W -> Poll T R * W.
Variable items : list Item.
Variable concurrency : Q.
Hypothesis concurrency_positive : (1 <= concurrency)%Q.

Local Abbreviation Pool := (@Pool T R).
Local Abbreviation pm_next := (next mapper items concurrency).
Local Abbreviation pm_launch := (launch mapper items concurrency).
Local Abbreviation pm_launch_guard := (@launch_guard Item T R items concurrency).
Local Abbreviation pm_settle := (settle mapper resume items concurrency).
Local Abbreviation pm_run := (run mapper resume items concurrency).

Lemma pool_ok_counts (p : Pool) :
  pool_ok items concurrency p -> (length (p_flight p) + p_resolved p = p_i p)%nat.
Proof.
  intros (_ & _ & _ & _ & Hres & Hperm & _).
  apply Permutation_length in Hperm.
  rewrite length_app, length_fmap, length_seq in Hperm. lia.
Qed.

Lemma pool_ok_nodup (p : Pool) :
  pool_ok items concurrency p -> NoDup ((p_flight p).*1 ++ p_finished p).
Proof.
  intros (_ & _ & _ & _ & _ & Hperm & _). rewrite Hperm. apply NoDup_seq.
Qed.

Lemma slots_positive : 1 <= Qceiling concurrency.
Proof. by apply ceiling_positive. Qed.

Lemma pool_ok_init : pool_ok items concurrency (@pool_init Item T R items).
Proof.
  pose proof slots_positive.
  unfold pool_ok, pool_init. simpl. split_and!; try done; try lia.
  - apply length_replicate.
  - intros j _ Hj. by apply lookup_replicate_2.
Qed.

Lemma pool_ok_resolve (p : Pool) :
  pool_ok items concurrency p -> p_resolved p = length items -> pool_ok items concurrency (resolve p).
Proof.
  intros Hok Hall. unfold resolve. destruct (p_promise p) eqn:Hpromise; [done |].
  destruct Hok as (? & ? & ? & ? & ? & ? & ? & ? & ?).
  unfold pool_ok. simpl. split_and!; try done.
  by intros rs [= <-].
Qed.

Lemma pool_ok_launch_one (it : Item) (p : Pool) :
  pool_ok items concurrency p -> pm_launch_guard p = true -> pool_ok items concurrency (launch_one mapper it p).
Proof.
  intros (Hactive & Hbound & Hi & Hstarted & Hres & Hperm & Hlen & Hnone & Hpromise)
         Hguard.
  apply andb_true_iff in Hguard as [Hroom Hleft].
  rewrite lt_number_ceiling in Hroom.
  apply Z.ltb_lt in Hroom. apply Nat.ltb_lt in Hleft.
  unfold pool_ok, launch_one. pool_simpl. split_and!; try done.
  - rewrite length_app. simpl. lia.
  - lia.
  - by rewrite seq_S, Hstarted.
  - rewrite fmap_app, seq_S. simpl.
    rewrite <- app_assoc, (Permutation_app_comm [p_i p]), app_assoc.
    by rewrite Hperm.
Qed.

Lemma pool_ok_launch (fuel : nat) (p : Pool) : pool_ok items concurrency p -> pool_ok items concurrency (pm_launch fuel p).
Proof.
  revert p. induction fuel as [|fuel IH]; intros p Hok; simpl; [done |].
  destruct (pm_launch_guard p) eqn:Hguard; [| done].
  destruct (items !! p_i p) as [it |]; [| done].
  by apply IH, pool_ok_launch_one.
Qed.

Lemma launch_guard_end (p : Pool) :
  (length items <= p_i p)%nat -> pm_launch_guard p = false.
Proof.
  intros Hend. unfold launch_guard.
  apply andb_false_iff. right. apply Nat.ltb_ge. lia.
Qed.

(** The fuel of the loop is enough: it stops on its guard. *)
Lemma launch_leaves (fuel : nat) (p : Pool) :
  (length items - p_i p <= fuel)%nat -> pm_launch_guard (pm_launch fuel p) = false.
Proof.
  revert p. induction fuel as [|fuel IH]; intros p Hfuel; simpl.
  - apply launch_guard_end. lia.
  - destruct (pm_launch_guard p) eqn:Hguard; [| done].
    apply andb_true_iff in Hguard as [_ Hleft]. apply Nat.ltb_lt in Hleft.
    destruct (lookup_lt_is_Some_2 items (p_i p) Hleft) as [it ->].
    apply IH. simpl. lia.
Qed.

Lemma launch_keeps (fuel : nat) (p : Pool) :
  p_resolved (pm_launch fuel p) = p_resolved p
  /\ p_promise (pm_launch fuel p) = p_promise p
  /\ p_finished (pm_launch fuel p) = p_finished p
  /\ p_results (pm_launch fuel p) = p_results p.
Proof.
  revert p. induction fuel as [|fuel IH]; intros p; simpl; [done |].
  destruct (pm_launch_guard p); [| done].
  destruct (items !! p_i p) as [it |]; [| done].
  by destruct (IH (launch_one mapper it p)) as (-> & -> & -> & ->).
Qed.

Lemma resolve_keeps (p : Pool) :
  p_i (resolve p) = p_i p /\ p_promise (resolve p) <> None.
Proof.
  unfold resolve. destruct (p_promise p) eqn:Hpromise; simpl; split; congruence.
Qed.

Lemma pool_next (p : Pool) : pool_ok items concurrency p -> pool_ok items concurrency (pm_next p) /\ pool_quiet items concurrency (pm_next p).
Proof.
  intros Hok. unfold next.
  destruct (Nat.eqb_spec (p_resolved p) (length items)) as [Hall | Hmore].
  - split; [by apply pool_ok_resolve |].
    pose proof (pool_ok_counts p Hok) as Hcount.
    destruct (resolve_keeps p) as [Hi Hsettled].
    split; [| done].
    apply launch_guard_end. rewrite Hi. lia.
  - split; [by apply pool_ok_launch |].
    split; [apply launch_leaves; lia |].
    destruct (launch_keeps (length items) p) as (-> & _). done.
Qed.

Lemma finally_next (curIdx : nat) (p : Pool) :
  finally mapper items concurrency curIdx p = pm_next (finish curIdx p).
Proof. reflexivity. Qed.

(** A task in flight belongs to an item that was started and has not
    finished, and the promise is not fulfilled yet. *)
Lemma in_flight_facts (p : Pool) (k curIdx : nat) (t : T) :
  pool_ok items concurrency p -> p_flight p !! k = Some (curIdx, t) ->
  (curIdx ∉ p_finished p)
  /\ (curIdx < length items)%nat
  /\ (0 < p_active p)%nat
  /\ (p_resolved p < length items)%nat
  /\ (p_flight p).*1 ++ p_finished p
     ≡ₚ curIdx :: (delete k (p_flight p)).*1 ++ p_finished p.
Proof.
  intros Hok Hk.
  pose proof (pool_ok_nodup p Hok) as Hnodup.
  pose proof (pool_ok_counts p Hok) as Hcount.
  destruct Hok as (Hactive & _ & Hi & _ & _ & Hperm & _).
  assert (Hdel : (p_flight p).*1 ≡ₚ curIdx :: (delete k (p_flight p)).*1).
  { rewrite (delete_Permutation (p_flight p) k (curIdx, t) Hk) at 1. done. }
  assert (Hin : curIdx ∈ (p_flight p).*1).
  { rewrite Hdel. apply list_elem_of_here. }
  pose proof (lookup_lt_Some _ _ _ Hk) as Hlen.
  split_and!.
  - apply NoDup_app in Hnodup as (_ & Hdisjoint & _). by apply Hdisjoint.
  - assert (curIdx ∈ seq 0 (p_i p)) as Hseq.
    { rewrite <- Hperm. apply elem_of_app. by left. }
    apply elem_of_seq in Hseq. lia.
  - lia.
  - lia.
  - by rewrite Hdel.
Qed.

Lemma pool_ok_finish_store (p : Pool) (k curIdx : nat) (t : T) (r : R) :
  pool_ok items concurrency p -> p_flight p !! k = Some (curIdx, t) ->
  pool_ok items concurrency (finish curIdx (store curIdx r (with_flight (delete k (p_flight p)) p))).
Proof.
  intros Hok Hk.
  destruct (in_flight_facts p k curIdx t Hok Hk)
    as (Hfresh & Hidx & Hpos & Hless & Hperm').
  pose proof (lookup_lt_Some _ _ _ Hk) as Hklen.
  destruct Hok as (Hactive & Hbound & Hi & Hstarted & Hres & Hperm & Hlen & Hnone
                   & Hpromise).
  unfold pool_ok, finish, store, with_flight. pool_simpl. split_and!; try done.
  - rewrite length_delete by eauto. lia.
  - lia.
  - rewrite length_app. simpl. lia.
  - rewrite <- Hperm, Hperm'.
    rewrite app_assoc, <- (Permutation_cons_append _ curIdx). done.
  - by rewrite length_insert.
  - intros j Hj Hjlen. rewrite not_elem_of_app, list_elem_of_singleton in Hj.
    destruct Hj as [Hj Hne].
    rewrite list_lookup_insert_ne by done. by apply Hnone.
  - intros rs Hrs. destruct (Hpromise rs Hrs) as [Hall _]. lia.
Qed.

Lemma pool_ok_finish_reject (p : Pool) (k curIdx : nat) (t : T) (e : JsError) :
  pool_ok items concurrency p -> p_flight p !! k = Some (curIdx, t) ->
  pool_ok items concurrency (finish curIdx (reject e (with_flight (delete k (p_flight p)) p))).
Proof.
  intros Hok Hk.
  destruct (in_flight_facts p k curIdx t Hok Hk)
    as (Hfresh & Hidx & Hpos & Hless & Hperm').
  pose proof (lookup_lt_Some _ _ _ Hk) as Hklen.
  destruct Hok as (Hactive & Hbound & Hi & Hstarted & Hres & Hperm & Hlen & Hnone
                   & Hpromise).
  unfold pool_ok, finish, reject, with_flight. pool_simpl.
  destruct (p_promise p) as [settled |] eqn:Hsettled; pool_simpl; split_and!;
    try done; try lia;
    try (rewrite length_delete by eauto; lia);
    try (rewrite length_app; simpl; lia);
    try (rewrite <- Hperm, Hperm';
         rewrite app_assoc, <- (Permutation_cons_append _ curIdx); done);
    try (intros j Hj Hjlen; rewrite not_elem_of_app in Hj;
         destruct Hj as [Hj _]; by apply Hnone).
  intros rs Hrs. destruct (Hpromise rs Hrs) as [Hall _]. lia.
Qed.

Lemma pool_ok_pending (p : Pool) (k curIdx : nat) (t t' : T) :
  pool_ok items concurrency p -> pool_quiet items concurrency p -> p_flight p !! k = Some (curIdx, t) ->
  pool_ok items concurrency (with_flight (<[k := (curIdx, t')]> (p_flight p)) p)
  /\ pool_quiet items concurrency (with_flight (<[k := (curIdx, t')]> (p_flight p)) p).
Proof.
  intros Hok Hquiet Hk.
  assert (Hfst : (<[k := (curIdx, t')]> (p_flight p)).*1 = (p_flight p).*1).
  { rewrite list_fmap_insert. apply list_insert_id.
    by rewrite list_lookup_fmap, Hk. }
  destruct Hok as (Hactive & Hbound & Hi & Hstarted & Hres & Hperm & Hlen & Hnone
                   & Hpromise).
  split; [| exact Hquiet].
  unfold pool_ok, with_flight. pool_simpl. split_and!; try done.
  - by rewrite length_insert.
  - by rewrite Hfst.
Qed.

(** Every settlement keeps the invariant. *)
Lemma pool_settle (k : nat) (p : Pool) (w : W) :
  pool_ok items concurrency p -> pool_quiet items concurrency p ->
  pool_ok items concurrency (fst (pm_settle k p w)) /\ pool_quiet items concurrency (fst (pm_settle k p w)).
Proof.
  intros Hok Hquiet. unfold settle.
  destruct (p_flight p !! k) as [[curIdx t] |] eqn:Hk; [| done].
  destruct (resume t w) as [[t' | r | e] w1]; simpl.
  - by apply (pool_ok_pending p k curIdx t t').
  - rewrite finally_next. by apply pool_next, (pool_ok_finish_store p k curIdx t).
  - rewrite finally_next. by apply pool_next, (pool_ok_finish_reject p k curIdx t).
Qed.

Lemma pool_run (schedule : list nat) (p : Pool) (w : W) :
  pool_ok items concurrency p -> pool_quiet items concurrency p ->
  pool_ok items concurrency (fst (pm_run schedule p w)) /\ pool_quiet items concurrency (fst (pm_run schedule p w)).
Proof.
  revert p w. induction schedule as [|k rest IH]; intros p w Hok Hquiet; [done |].
  simpl. pose proof (pool_settle k p w Hok Hquiet) as [Hok1 Hquiet1].
  destruct (pm_settle k p w) as [p1 w1]. by apply IH.
Qed.

Lemma pool_pMap (schedule : list nat) (w : W) :
  pool_ok items concurrency (fst (pMap mapper resume items concurrency schedule w))
  /\ pool_quiet items concurrency (fst (pMap mapper resume items concurrency schedule w)).
Proof.
  unfold pMap. destruct (pool_next (pool_init items) pool_ok_init).
  by apply pool_run.
Qed.

(** While an item is unresolved, a worker is in flight. *)
Lemma pool_busy (p : Pool) :
  pool_ok items concurrency p -> pool_quiet items concurrency p ->
  (p_resolved p < length items)%nat -> p_flight p <> [].
Proof.
  intros Hok [Hguard _] Hless Hempty.
  pose proof (pool_ok_counts p Hok) as Hcount.
  destruct Hok as (Hactive & _).
  rewrite Hempty in Hactive, Hcount. simpl in *.
  unfold launch_guard in Hguard. rewrite Hactive in Hguard.
  apply andb_false_iff in Hguard as [Hroom | Hleft].
  - rewrite lt_number_ceiling in Hroom. apply Z.ltb_ge in Hroom.
    pose proof slots_positive. lia.
  - apply Nat.ltb_ge in Hleft. lia.
Qed.

(** With no worker in flight, every item was started and has finished
    exactly once. *)
Lemma pool_idle (p : Pool) :
  pool_ok items concurrency p -> pool_quiet items concurrency p -> p_flight p = [] ->
  p_started p = seq 0 (length items)
  /\ p_finished p ≡ₚ seq 0 (length items)
  /\ p_resolved p = length items.
Proof.
  intros Hok Hquiet Hempty.
  pose proof (pool_ok_counts p Hok) as Hcount.
  destruct (decide (p_resolved p < length items)%nat) as [Hless | Hall].
  { by destruct (pool_busy p Hok Hquiet Hless). }
  destruct Hok as (_ & _ & Hi & Hstarted & _ & Hperm & _).
  rewrite Hempty in Hcount, Hperm. simpl in *.
  assert (p_i p = length items) as Hend by lia.
  rewrite Hend in *. split_and!; [done | done | lia].
Qed.
End ExecutorFacts.

Section ExecutorSteps.
Context {W Item T R : Type}.
Variable mapper : Item -> nat -> T.
Variable resume : T -> W -> Poll T R * W.
Variable items : list Item.
Variable concurrency : Q.

Local Abbreviation Pool := (@Pool T R).
Local Abbreviation pm_next := (next mapper items concurrency).
Local Abbreviation pm_launch := (launch mapper items concurrency).
Local Abbreviation pm_settle := (settle mapper resume items concurrency).
Local Abbreviation pm_run := (run mapper resume items concurrency).

Lemma launch_flight (fuel : nat) (p : Pool) :
  exists launched, p_flight (pm_launch fuel p) = p_flight p ++ launched.
Proof.
  revert p. induction fuel as [|fuel IH]; intros p; simpl.
  - exists []. by rewrite app_nil_r.
  - destruct (launch_guard items concurrency p); [| exists []; by rewrite app_nil_r].
    destruct (items !! p_i p) as [it |]; [| exists []; by rewrite app_nil_r].
    destruct (IH (launch_one mapper it p)) as [launched ->]. simpl.
    eexists. by rewrite <- app_assoc.
Qed.

(** [next()] touches neither the results nor the counters of finished
    items, keeps a settled promise, and only adds tasks. *)
Lemma next_keeps (p : Pool) :
  p_resolved (pm_next p) = p_resolved p
  /\ p_finished (pm_next p) = p_finished p
  /\ p_results (pm_next p) = p_results p
  /\ (forall s, p_promise p = Some s -> p_promise (pm_next p) = Some s)
  /\ exists launched, p_flight (pm_next p) = p_flight p ++ launched.
Proof.
  unfold next. destruct (p_resolved p =? length items)%nat.
  - assert (Hflight : p_flight (resolve p) = p_flight p ++ []).
    { rewrite app_nil_r. unfold resolve. by destruct (p_promise p). }
    split_and!; [| | | | by exists []];
      unfold resolve; destruct (p_promise p) eqn:Hpromise; simpl; congruence.
  - destruct (launch_keeps mapper items concurrency (length items) p)
      as (-> & -> & -> & ->).
    split_and!; try done. apply launch_flight.
Qed.

Lemma reject_fields (e : JsError) (p : Pool) :
  p_resolved (reject e p) = p_resolved p
  /\ p_finished (reject e p) = p_finished p
  /\ p_results (reject e p) = p_results p
  /\ p_flight (reject e p) = p_flight p
  /\ p_promise (reject e p) = Some (default (RejectedWith e) (p_promise p)).
Proof. unfold reject. by destruct (p_promise p) eqn:Hpromise. Qed.

(** A worker that settles, fulfilled or rejected, resolves one item. *)
Lemma settle_resolves (k : nat) (p : Pool) (w : W) (curIdx : nat) (t : T) :
  p_flight p !! k = Some (curIdx, t) ->
  (forall t', fst (resume t w) <> Pending t') ->
  p_resolved (fst (pm_settle k p w)) = S (p_resolved p).
Proof.
  intros Hk Hsettles. unfold settle. rewrite Hk.
  destruct (resume t w) as [[t' | r | e] w1]; simpl in *.
  - by destruct (Hsettles t').
  - unfold finally.
    destruct (next_keeps (finish curIdx
                (store curIdx r (with_flight (delete k (p_flight p)) p))))
      as (-> & _).
    done.
  - unfold finally.
    destruct (next_keeps (finish curIdx
                (reject e (with_flight (delete k (p_flight p)) p))))
      as (-> & _).
    simpl. by destruct (reject_fields e (with_flight (delete k (p_flight p)) p))
      as (-> & _).
Qed.

(** What a rejected worker does to the pool. *)
Lemma settle_rejected (k : nat) (p : Pool) (w w1 : W) (curIdx : nat) (t : T)
    (e : JsError) :
  p_flight p !! k = Some (curIdx, t) ->
  resume t w = (Rejected e, w1) ->
  let p' := fst (pm_settle k p w) in
  p_results p' = p_results p
  /\ p_promise p' = Some (default (RejectedWith e) (p_promise p))
  /\ p_finished p' = p_finished p ++ [curIdx]
  /\ exists launched, p_flight p' = delete k (p_flight p) ++ launched.
Proof.
  intros Hk Hresume p'. unfold p', settle.
  rewrite Hk, Hresume. simpl. unfold finally.
  destruct (next_keeps (finish curIdx
              (reject e (with_flight (delete k (p_flight p)) p))))
    as (_ & -> & -> & Hpromise & launched & ->).
  destruct (reject_fields e (with_flight (delete k (p_flight p)) p))
    as (_ & Hfin & Hres & Hfl & Hprom).
  rewrite (Hpromise _ Hprom). simpl. rewrite Hfin, Hres, Hfl. simpl.
  split_and!; try done. by exists launched.
Qed.
End ExecutorSteps.

Lemma effective_concurrency_positive (c : option JsNumber) :
  (1 <= effective_concurrency c)%Q.
Proof.
  unfold effective_concurrency, Math_max.
  destruct (Qle_bool 1 _) eqn:Hle; [by apply Qle_bool_iff | apply Qle_refl].
Qed.

Lemma effective_concurrency_finite (q : Q) :
  (1 <= q)%Q -> effective_concurrency (Some (Num q)) = q.
Proof.
  intros Hq. unfold effective_concurrency, Math_max. simpl.
  destruct (Qeq_bool q 0) eqn:Hzero.
  - apply Qeq_bool_iff in Hzero. rewrite Hzero in Hq.
    exfalso. by apply (Qle_not_lt _ _ Hq).
  - by rewrite (proj2 (Qle_bool_iff 1 q) Hq).
Qed.

Lemma effective_concurrency_given (c : Z) :
  1 <= c -> effective_concurrency (Some (Int c)) = inject_Z c.
Proof.
  intros Hc. apply effective_concurrency_finite.
  change (inject_Z 1 <= inject_Z c)%Q. by rewrite <- Zle_Qle.
Qed.

Section ExecutorProgress.
Context {W Item T R : Type}.
Variable mapper : Item -> nat -> T.
Variable resume : T -> W -> Poll T R * W.
Variable items : list Item.
Variable concurrency : Q.
Hypothesis concurrency_positive : (1 <= concurrency)%Q.
Hypothesis workers_settle : forall t w t', fst (resume t w) <> Pending t'.

(** When every resumed worker settles, each settlement of the first
    worker in flight resolves one more item until all are resolved. *)
Lemma run_first_in_flight (m : nat) (p : Pool) (w : W) :
  pool_ok items concurrency p -> pool_quiet items concurrency p ->
  p_resolved (fst (run mapper resume items concurrency (replicate m 0%nat) p w))
  = Nat.min (length items) (p_resolved p + m).
Proof.
  revert p w. induction m as [|m IH]; intros p w Hok Hquiet.
  - simpl. pose proof (pool_ok_counts items concurrency p Hok).
    destruct Hok as (_ & _ & Hi & _). lia.
  - simpl.
    pose proof (pool_settle mapper resume items concurrency
                  0 p w Hok Hquiet) as [Hok1 Hquiet1].
    pose proof (pool_ok_counts items concurrency p Hok) as Hcount.
    destruct (decide (p_resolved p < length items)%nat) as [Hless | Hall].
    + pose proof (pool_busy items concurrency concurrency_positive p Hok Hquiet Hless)
        as Hbusy.
      destruct (p_flight p) as [|[curIdx t] fl] eqn:Hflight; [done |].
      assert (Hstep : p_resolved (fst (settle mapper resume items concurrency 0 p w))
                      = S (p_resolved p)).
      { apply (settle_resolves mapper resume items concurrency 0 p w curIdx t).
        - by rewrite Hflight.
        - apply workers_settle. }
      destruct (settle mapper resume items concurrency 0 p w) as [p1 w1].
      simpl in *. rewrite IH by done. lia.
    + assert (p_flight p = []) as Hempty.
      { destruct Hok as (_ & _ & Hi & _). destruct (p_flight p); [done |].
        simpl in Hcount. lia. }
      unfold settle. rewrite Hempty. simpl.
      rewrite IH by done. destruct Hok as (_ & _ & Hi & _). lia.
Qed.

(** Then [items.length] settlements complete the run. *)
Lemma run_completes (w : W) :
  let q := fst (pMap mapper resume items concurrency
                     (replicate (length items) 0%nat) w) in
  p_flight q = [] /\ p_finished q ≡ₚ seq 0 (length items).
Proof.
  intros q.
  destruct (pool_pMap mapper resume items concurrency concurrency_positive
              (replicate (length items) 0%nat) w) as [Hokq Hquietq].
  fold q in Hokq, Hquietq.
  assert (Hall : p_resolved q = length items).
  { unfold q, pMap.
    destruct (pool_pMap mapper resume items concurrency concurrency_positive [] w)
      as [Hok0 Hquiet0].
    unfold pMap in Hok0, Hquiet0. simpl in Hok0, Hquiet0.
    rewrite run_first_in_flight by done.
    destruct (next_keeps mapper items concurrency (@pool_init Item T R items))
      as (-> & _).
    simpl. lia. }
  assert (Hempty : p_flight q = []).
  { pose proof (pool_ok_counts items concurrency q Hokq) as Hcount.
    destruct Hokq as (_ & _ & Hiq & _). destruct (p_flight q); [done |].
    simpl in Hcount. lia. }
  split; [done |].
  by destruct (pool_idle items concurrency concurrency_positive q Hokq Hquietq Hempty)
    as (_ & ? & _).
Qed.
End ExecutorProgress.


(** ** The bounded executor: the workers a run calls *)

Section WatchedWorkers.
Context {W Item T R : Type}.
Variable mapper : Item -> nat -> T.
Variable resume : T -> W -> Poll T R * W.
Variable items : list Item.
Variable concurrency : Q.

Local Abbreviation WPool := (@Pool (nat * Item * T) R).
Local Abbreviation wmapper := (watched_mapper mapper).
Local Abbreviation wresume := (@watched_resume W Item T R resume).
Local Abbreviation called :=
  (fun task : nat * (nat * Item * T) => called_on items task.1 task.2).

Lemma launch_called (fuel : nat) (p : WPool) :
  Forall called (p_flight p) ->
  Forall called (p_flight (launch wmapper items concurrency fuel p)).
Proof.
  revert p. induction fuel as [|fuel IH]; intros p Hp; simpl; [done |].
  destruct (launch_guard items concurrency p); [| done].
  destruct (items !! p_i p) as [it |] eqn:Hit; [| done].
  apply IH. simpl. apply Forall_app_2; [done |].
  apply Forall_singleton. by split.
Qed.

Lemma next_called (p : WPool) :
  Forall called (p_flight p) ->
  Forall called (p_flight (next wmapper items concurrency p)).
Proof.
  intros Hp. unfold next. destruct (p_resolved p =? length items)%nat.
  - unfold resolve. by destruct (p_promise p).
  - by apply launch_called.
Qed.

Lemma ended_awaits (log : list (WorkerEvent Item)) (curIdx : nat) (it : Item) :
  ended (log ++ [Awaits curIdx it]) = ended log.
Proof. unfold ended. by rewrite omap_app, app_nil_r. Qed.

Lemma ended_ends (log : list (WorkerEvent Item)) (curIdx : nat) (it : Item)
    (fulfilled : bool) :
  ended (log ++ [Ends curIdx it fulfilled]) = ended log ++ [(curIdx, it)].
Proof. unfold ended. by rewrite omap_app. Qed.

(** Every settlement resumes the worker of one call, and when the
    worker ends the [finally] callback of that call runs. *)
Lemma watched_settle (k : nat) (p : WPool) (lw : list (WorkerEvent Item) * W) :
  watched_ok items p lw ->
  watched_ok items (settle wmapper wresume items concurrency k p lw).1
                   (settle wmapper wresume items concurrency k p lw).2.
Proof.
  intros (Hfl & Hfin & Hcalls). destruct lw as [log w]. unfold settle.
  destruct (p_flight p !! k) as [[curIdx [[i it] t0]] |] eqn:Hk; [| done].
  pose proof (Forall_lookup_1 _ _ _ _ Hfl Hk) as [Hi Hit].
  simpl in Hi, Hit. subst i.
  unfold watched_resume. destruct (resume t0 w) as [[t1 | r | e] w1].
  - unfold watched_ok. cbn [fst snd]. rewrite ended_awaits.
    split_and!; [| done | done].
    apply Forall_insert; [done | by split].
  - unfold watched_ok, finally. cbn [fst snd]. rewrite ended_ends.
    destruct (next_keeps wmapper items concurrency
                (finish curIdx (store curIdx r
                   (with_flight (delete k (p_flight p)) p))))
      as (_ & -> & _).
    split_and!.
    + apply next_called. simpl. by apply Forall_delete.
    + simpl. rewrite fmap_app. simpl in Hfin. by rewrite Hfin.
    + apply Forall_app_2; [done |]. by apply Forall_singleton.
  - unfold watched_ok, finally. cbn [fst snd]. rewrite ended_ends.
    destruct (next_keeps wmapper items concurrency
                (finish curIdx (reject e
                   (with_flight (delete k (p_flight p)) p))))
      as (_ & -> & _).
    destruct (reject_fields e (with_flight (delete k (p_flight p)) p))
      as (_ & Hrfin & _ & Hrfl & _).
    split_and!.
    + apply next_called. simpl. rewrite Hrfl. simpl. by apply Forall_delete.
    + simpl. rewrite Hrfin, fmap_app. simpl in *. by rewrite Hfin.
    + apply Forall_app_2; [done |]. by apply Forall_singleton.
Qed.

Lemma watched_run (schedule : list nat) (p : WPool)
    (lw : list (WorkerEvent Item) * W) :
  watched_ok items p lw ->
  watched_ok items (run wmapper wresume items concurrency schedule p lw).1
                   (run wmapper wresume items concurrency schedule p lw).2.
Proof.
  revert p lw. induction schedule as [|k rest IH]; intros p lw Hok; [done |].
  simpl. pose proof (watched_settle k p lw Hok) as Hok1.
  destruct (settle wmapper wresume items concurrency k p lw) as [p1 lw1].
  by apply IH.
Qed.

Lemma watched_pMap (schedule : list nat) (w : W) :
  watched_ok items (pMap wmapper wresume items concurrency schedule ([], w)).1
                   (pMap wmapper wresume items concurrency schedule ([], w)).2.
Proof.
  unfold pMap. apply watched_run. unfold watched_ok. split_and!.
  - by apply next_called.
  - by destruct (next_keeps wmapper items concurrency (@pool_init Item _ R items))
      as (_ & -> & _).
  - done.
Qed.

(** The watch changes nothing: without it the run takes the same steps. *)
Lemma unwatched_launch (fuel : nat) (p : WPool) :
  unwatched (launch wmapper items concurrency fuel p)
  = launch mapper items concurrency fuel (unwatched p).
Proof.
  revert p. induction fuel as [|fuel IH]; intros p; simpl; [done |].
  change (launch_guard items concurrency (unwatched p))
    with (launch_guard items concurrency p).
  destruct (launch_guard items concurrency p); [| done].
  destruct (items !! p_i p) as [it |]; [| done].
  rewrite IH. f_equal. unfold unwatched, launch_one. simpl.
  by rewrite fmap_app.
Qed.

Lemma unwatched_next (p : WPool) :
  unwatched (next wmapper items concurrency p)
  = next mapper items concurrency (unwatched p).
Proof.
  unfold next. simpl. destruct (p_resolved p =? length items)%nat.
  - unfold resolve. simpl. by destruct (p_promise p).
  - apply unwatched_launch.
Qed.

Lemma unwatched_settle (k : nat) (p : WPool) (log : list (WorkerEvent Item))
    (w : W) :
  let r := settle wmapper wresume items concurrency k p (log, w) in
  settle mapper resume items concurrency k (unwatched p) w = (unwatched r.1, r.2.2).
Proof.
  unfold settle.
  change (p_flight (unwatched p)) with (unwatched_task <$> p_flight p).
  rewrite list_lookup_fmap.
  destruct (p_flight p !! k) as [[curIdx [[i it] t0]] |]; simpl; [| done].
  destruct (resume t0 w) as [[t1 | r | e] w1]; simpl.
  - f_equal. unfold unwatched, with_flight. simpl. by rewrite list_fmap_insert.
  - unfold finally. rewrite unwatched_next. do 2 f_equal.
    unfold unwatched, finish, store, with_flight. simpl.
    by rewrite list_fmap_delete.
  - unfold finally. rewrite unwatched_next. do 2 f_equal.
    unfold unwatched, finish, reject, with_flight. simpl.
    destruct (p_promise p); simpl; by rewrite list_fmap_delete.
Qed.

Lemma unwatched_run (schedule : list nat) (p : WPool)
    (log : list (WorkerEvent Item)) (w : W) :
  let r := run wmapper wresume items concurrency schedule p (log, w) in
  run mapper resume items concurrency schedule (unwatched p) w
  = (unwatched r.1, r.2.2).
Proof.
  revert p log w. induction schedule as [|k rest IH]; intros p log w; [done |].
  simpl. rewrite (unwatched_settle k p log w).
  destruct (settle wmapper wresume items concurrency k p (log, w))
    as [p1 [log1 w1]].
  apply IH.
Qed.

Lemma unwatched_pMap (schedule : list nat) (w : W) :
  let r := pMap wmapper wresume items concurrency schedule ([], w) in
  pMap mapper resume items concurrency schedule w = (unwatched r.1, r.2.2).
Proof.
  unfold pMap.
  rewrite <- (unwatched_run schedule (next wmapper items concurrency
                                           (pool_init items)) [] w).
  by rewrite unwatched_next.
Qed.

(** A watched worker settles when the worker it watches does. *)
Lemma watched_settles :
  (forall t w t', fst (resume t w) <> Pending t') ->
  forall t lw t', fst (wresume t lw) <> Pending t'.
Proof.
  intros Hsettle [[i it] t0] [log w] t'. unfold watched_resume.
  specialize (Hsettle t0 w). destruct (resume t0 w) as [[t1 | r | e] w1]; [| done..].
  by destruct (Hsettle t1).
Qed.
End WatchedWorkers.

(** C5: for every item list and every concurrency of at least 1, whole
    or not, at every point of a run (after any sequence of settlements,
    the workers being watched): the run is the run without the watch;
    the workers in flight are at most the ceiling of [concurrency], so at
    most [concurrency] for a whole one; each worker in flight was called
    as [mapper(items[curIdx], curIdx)], and each worker that ended had
    been called so; the calls in flight and the calls whose worker ended,
    fulfilled or rejected, are the first [i] items, each once, started
    in order; as long as fewer workers have ended than there are items a
    worker is in flight, and once no worker is in flight the worker of
    every item has ended exactly once. When every resumed worker settles,
    [items.length] settlements complete the run. *)
Theorem pMap_bounded_exactly_once {W Item T R : Type}
    (mapper : Item -> nat -> T) (resume : T -> W -> Poll T R * W)
    (items : list Item) (concurrency : Q) (schedule : list nat) (w : W) :
  (1 <= concurrency)%Q ->
  let c := effective_concurrency (Some (Num concurrency)) in
  let watched sched :=
    pMap (watched_mapper mapper) (watched_resume resume) items c sched ([], w) in
  let p := (watched schedule).1 in
  let log := (watched schedule).2.1 in
  pMap mapper resume items c schedule w = (unwatched p, (watched schedule).2.2)
  /\ Z.of_nat (length (p_flight p)) <= Qceiling concurrency
  /\ (forall n : Z, (concurrency == inject_Z n)%Q ->
                    Z.of_nat (length (p_flight p)) <= n)
  /\ p_active p = length (p_flight p)
  /\ Forall (fun task => called_on items task.1 task.2) (p_flight p)
  /\ Forall (fun call => items !! call.1 = Some call.2) (ended log)
  /\ p_started p = seq 0 (p_i p)
  /\ (p_i p <= length items)%nat
  /\ NoDup ((p_flight p).*1 ++ (ended log).*1)
  /\ (p_flight p).*1 ++ (ended log).*1 ≡ₚ p_started p
  /\ ((length (ended log) < length items)%nat -> p_flight p <> [])
  /\ (p_flight p = [] ->
      p_started p = seq 0 (length items)
      /\ (ended log).*1 ≡ₚ seq 0 (length items))
  /\ ((forall t w0 t', fst (resume t w0) <> Pending t') ->
      let done := watched (replicate (length items) 0%nat) in
      p_flight done.1 = [] /\ (ended done.2.1).*1 ≡ₚ seq 0 (length items)).
Proof.
  intros Hc. cbv zeta. rewrite effective_concurrency_finite by done.
  set (wm := watched_mapper mapper). set (wr := watched_resume resume).
  set (p := (pMap wm wr items concurrency schedule ([], w)).1).
  set (log := (pMap wm wr items concurrency schedule ([], w)).2.1).
  destruct (pool_pMap wm wr items concurrency Hc schedule ([], w)) as [Hok Hquiet].
  fold p in Hok, Hquiet.
  destruct (watched_pMap mapper resume items concurrency schedule w)
    as (Hcalled & Hended & Hcalls).
  fold wm wr p in Hcalled, Hended. fold wm wr log in Hended, Hcalls.
  fold log in Hended.
  pose proof (pool_ok_nodup items concurrency p Hok) as Hnodup.
  pose proof (pool_busy items concurrency Hc p Hok Hquiet) as Hbusy.
  pose proof (pool_idle items concurrency Hc p Hok Hquiet) as Hidle.
  pose proof Hok as (Hactive & Hbound & Hi & Hstarted & Hres & Hperm & _).
  rewrite Hended.
  split_and!; try done.
  - apply (unwatched_pMap mapper resume items concurrency schedule w).
  - lia.
  - intros n Hn. rewrite (Qceiling_comp _ _ Hn), Qceiling_Z in Hbound. lia.
  - by rewrite Hstarted.
  - intros Hless. apply Hbusy.
    rewrite Hres, <- Hended, length_fmap. done.
  - intros Hempty. by destruct (Hidle Hempty) as (? & ? & _).
  - intros Hsettle.
    destruct (run_completes wm wr items concurrency Hc
                (watched_settles resume Hsettle) ([], w)) as [Hempty Hall].
    split; [done |].
    pose proof (watched_pMap mapper resume items concurrency
                  (replicate (length items) 0%nat) w) as (_ & Hfin & _).
    fold wm wr in Hfin. by rewrite Hfin.
Qed.

Example pMap_all_fulfilled :
  let '(p, w) := pMap doubling_mapper doubling_resume [1; 2; 3]
                      (effective_concurrency (Some (Int 2))) [1; 0; 0]%nat [] in
  p_promise p = Some (Resolved [Some 2; Some 4; Some 6]) /\ w = [2; 1; 3].
Proof. vm_compute. done. Qed.

(** [--concurrency=2.5] passes [clamp], and [active < 2.5] lets a third
    worker start. *)
Example pMap_by_the_half :
  let p := fst (pMap doubling_mapper doubling_resume [1; 2; 3; 4]
                     (effective_concurrency (Some (Num (5 # 2)))) [] []) in
  (p_flight p).*1 = [0; 1; 2]%nat.
Proof. vm_compute. done. Qed.

Lemma pMap_bounded_exactly_once_witness :
  let watched sched :=
    pMap (watched_mapper doubling_mapper) (watched_resume doubling_resume)
         [1; -2; 3] (effective_concurrency (Some (Num 2))) sched ([], []) in
  (watched [1; 0; 0]%nat).2
  = ([Ends 1 (-2) false; Ends 0 1 true; Ends 2 3 true], [-2; 1; 3])
  /\ (ended (watched [1; 0; 0]%nat).2.1).*1 ≡ₚ [0; 1; 2]%nat
  /\ Z.of_nat (length (p_flight (watched [1; 0; 0]%nat).1)) <= 2.
Proof.
  intros watched.
  assert (Hc : (1 <= 2)%Q) by (by compute).
  assert (Hwhole : (2 == inject_Z 2)%Q) by reflexivity.
  assert (Hempty : p_flight (watched [1; 0; 0]%nat).1 = []) by reflexivity.
  destruct (pMap_bounded_exactly_once doubling_mapper doubling_resume
              [1; -2; 3] 2 [1; 0; 0]%nat [] Hc)
    as (_ & _ & Hbound & _ & _ & _ & _ & _ & _ & _ & _ & Hidle & _).
  split_and!; [reflexivity | | exact (Hbound 2 Hwhole)].
  by destruct (Hidle Hempty).
Defined.


(** C4, amended: the promise of [pMap] is fulfilled only after every item
    has completed, with the results recorded by then; a failed worker
    does not stop its siblings (with no worker left in flight every item
    has finished); but the failure is not recorded as the item's outcome:
    the slot of the item stays empty, and the promise of [pMap] is
    rejected with the failure unless it was settled before, while the
    other workers stay in flight. *)
Theorem pMap_fulfils_last_rejects_first {W Item T R : Type}
    (mapper : Item -> nat -> T) (resume : T -> W -> Poll T R * W)
    (items : list Item) (concurrency : option JsNumber) (schedule : list nat) (w : W) :
  let c := effective_concurrency concurrency in
  let p := fst (pMap mapper resume items c schedule w) in
  let w1 := snd (pMap mapper resume items c schedule w) in
  (forall rs, p_promise p = Some (Resolved rs) ->
              p_resolved p = length items /\ p_flight p = [] /\ rs = p_results p)
  /\ (p_flight p = [] -> p_finished p ≡ₚ seq 0 (length items))
  /\ (forall (k curIdx : nat) (t : T) (e : JsError) (w2 : W),
        p_flight p !! k = Some (curIdx, t) ->
        resume t w1 = (Rejected e, w2) ->
        let p' := fst (settle mapper resume items c k p w1) in
        p_results p' !! curIdx = Some None
        /\ p_promise p' = Some (default (RejectedWith e) (p_promise p))
        /\ p_finished p' = p_finished p ++ [curIdx]
        /\ exists launched, p_flight p' = delete k (p_flight p) ++ launched).
Proof.
  intros c p w1.
  pose proof (effective_concurrency_positive concurrency) as Hc. fold c in Hc.
  destruct (pool_pMap mapper resume items c Hc schedule w) as [Hok Hquiet].
  fold p in Hok, Hquiet.
  pose proof (pool_ok_counts items c p Hok) as Hcount.
  split_and!.
  - intros rs Hrs.
    destruct Hok as (_ & _ & Hi & _ & _ & _ & _ & _ & Hpromise).
    destruct (Hpromise rs Hrs) as [Hall ->]. split_and!; [done | | done].
    destruct (p_flight p); [done |]. simpl in Hcount. lia.
  - intros Hempty.
    by destruct (pool_idle items c Hc p Hok Hquiet Hempty) as (_ & ? & _).
  - intros k curIdx t e w2 Hk Hresume p'.
    destruct (settle_rejected mapper resume items c k p w1 w2 curIdx t e Hk Hresume)
      as (Hres & Hprom & Hfin & Hfl).
    fold p' in Hres, Hprom, Hfin, Hfl.
    destruct (in_flight_facts items c p k curIdx t Hok Hk) as (Hfresh & Hidx & _).
    destruct Hok as (_ & _ & _ & _ & _ & _ & _ & Hnone & _).
    split_and!; try done.
    rewrite Hres. by apply Hnone.
Qed.

(** C4, as stated, fails: with two workers in flight, the failure of the
    first rejects the promise of [pMap] while the second is still in
    flight, and no outcome is recorded for the failed item, then or
    later. *)
Lemma worker_failure_rejects_run :
  let failure := api_error 15 "Access denied" in
  let run_to sched :=
    fst (pMap doubling_mapper doubling_resume [-1; 2]
              (effective_concurrency (Some (Int 2))) sched []) in
  p_promise (run_to [0%nat]) = Some (RejectedWith failure)
  /\ (p_flight (run_to [0%nat])).*1 = [1%nat]
  /\ p_results (run_to [0%nat]) = [None; None]
  /\ p_promise (run_to [0%nat; 0%nat]) = Some (RejectedWith failure)
  /\ p_results (run_to [0%nat; 0%nat]) = [None; Some 4].
Proof. vm_compute. done. Qed.

Lemma pMap_fulfils_last_rejects_first_witness :
  let c := effective_concurrency (Some (Int 2)) in
  let p := fst (pMap doubling_mapper doubling_resume [-1; 2] c [] []) in
  let p' := fst (settle doubling_mapper doubling_resume [-1; 2] c 0 p []) in
  p_flight p !! 0%nat = Some (0%nat, -1)
  /\ doubling_resume (-1) [] = (Rejected (api_error 15 "Access denied"), [-1])
  /\ p_results p' !! 0%nat = Some None
  /\ p_promise p' = Some (RejectedWith (api_error 15 "Access denied")).
Proof.
  intros c p p'.
  assert (Hk : p_flight p !! 0%nat = Some (0%nat, -1)) by reflexivity.
  assert (Hresume : doubling_resume (-1) []
                    = (Rejected (api_error 15 "Access denied"), [-1]))
    by reflexivity.
  destruct (pMap_fulfils_last_rejects_first doubling_mapper doubling_resume
              [-1; 2] (Some (Int 2)) [] []) as (_ & _ & Hreject).
  destruct (Hreject 0%nat 0%nat (-1) (api_error 15 "Access denied") [-1] Hk Hresume)
    as (Hslot & Hpromise & _).
  split_and!; [exact Hk | exact Hresume | exact Hslot | exact Hpromise].
Defined.

(** ** Workers that catch their own failures

    A run whose workers, once resumed, always end fulfilled: [Q] holds of
    the tasks in flight, [J] relates the world to the items finished so
    far. *)

Section IsolatedWorkers.
Context {W Item T R : Type}.
Variable mapper : Item -> nat -> T.
Variable resume : T -> W -> Poll T R * W.
Variable items : list Item.
Variable concurrency : Q.
Hypothesis concurrency_positive : (1 <= concurrency)%Q.
Variable Q : nat -> T -> Prop.
Variable J : list nat -> W -> Prop.
Hypothesis mapper_task :
  forall curIdx it, items !! curIdx = Some it -> Q curIdx (mapper it curIdx).
Hypothesis worker_fulfils :
  forall finished curIdx t w,
    J finished w -> Q curIdx t -> curIdx ∉ finished ->
    (curIdx < length items)%nat ->
    exists r w', resume t w = (Fulfilled r, w') /\ J (finished ++ [curIdx]) w'.

Lemma launch_tasks (fuel : nat) (p : @Pool T R) :
  Forall (fun task => Q task.1 task.2) (p_flight p) ->
  Forall (fun task => Q task.1 task.2)
         (p_flight (launch mapper items concurrency fuel p)).
Proof.
  revert p. induction fuel as [|fuel IH]; intros p Hq; simpl; [done |].
  destruct (launch_guard items concurrency p); [| done].
  destruct (items !! p_i p) as [it |] eqn:Hit; [| done].
  apply IH. simpl. apply Forall_app. split; [done |].
  constructor; [| done]. simpl. by apply mapper_task.
Qed.

Lemma isolated_next (p : @Pool T R) (w : W) :
  isolated Q J p w -> isolated Q J (next mapper items concurrency p) w.
Proof.
  intros (Hj & Hq & Hpromise). unfold isolated, next.
  destruct (p_resolved p =? length items)%nat.
  - unfold resolve. destruct (p_promise p) eqn:Hsettled; simpl.
    + split_and!; [done | done |]. intros e. rewrite Hsettled. apply Hpromise.
    + split_and!; done.
  - destruct (launch_keeps mapper items concurrency (length items) p)
      as (_ & -> & -> & _).
    split_and!; [done | by apply launch_tasks | done].
Qed.





End IsolatedWorkers.

(** ** The deletion orchestrator *)

Lemma failures_app (l1 l2 : list LogLine) :
  failures (l1 ++ l2) = failures l1 ++ failures l2.
Proof. apply omap_app. Qed.



Section DeleteBatchFacts.
Context {LC : LowerCase} {TN : ToNumber} {P : Platform}.
Variables (group_id topic_id : Z) (pre post : list Z) (bad : Z) (cfg : RetryCfg).
Variable w0 : World.

Hypothesis bad_is_fatal :
  forall env, exists e env',
    deleteComment group_id topic_id bad env = (Thrown e, env')
    /\ retriable (err_code e) = false.
Hypothesis others_succeed :
  forall comment_id, comment_id ∈ pre ++ post ->
    forall env, exists r env',
      deleteComment group_id topic_id comment_id env = (Returned r, env').

Local Abbreviation ids := (pre ++ bad :: post).
Local Abbreviation resume_ := (delete_resume group_id topic_id ids cfg).





End DeleteBatchFacts.



(** Scenario D: ten identifiers, the deletion of the fifth always
    denied; two workers, each settlement that of the oldest in flight. *)
Example scenario_D :
  let '(r, w') :=
    deleteBatch 1 1 ten {| maxRetries := Some (Int 6); baseBackoffMs := Some 300 |}
                (Some (Int 2)) (replicate 10 0%nat)
                (sim_world (List.map (fun i => comment i 10 "hi") ten) [5] []) in
  r = Ok 9
  /\ w_console w'
     = [log_delete_failed 5 code_absent
          (js "VK API failed: code=15, msg=Access denied, attempt=0");
        log_progress 10 10 9]
  /\ List.map id (w_env w') = [5]
  /\ w_requests w' = List.map (board_deleteComment 1 1) ten.
Proof. vm_compute. done. Qed.


(** ** Text normalization: the normal form and idempotence *)

Local Open Scope N_scope.

Lemma adjacent_app_r (Rel : N -> N -> Prop) (a b : jsstring) :
  adjacent Rel (a ++ b) -> adjacent Rel b.
Proof. induction a as [|c a IH]; simpl; [done | intros [_ H]; auto]. Qed.

Lemma adjacent_app_l (Rel : N -> N -> Prop) (a b : jsstring) :
  adjacent Rel (a ++ b) -> adjacent Rel a.
Proof.
  induction a as [|c a IH]; simpl; [done |]. intros [Hhead Htail].
  split; [| auto]. by destruct a.
Qed.

Lemma is_space_LF : is_space LF = true.
Proof. reflexivity. Qed.
Lemma is_space_SPACE : is_space SPACE = true.
Proof. reflexivity. Qed.

Lemma is_blank_spec (c : N) : is_blank c = true <-> c = SPACE \/ c = TAB.
Proof. unfold is_blank. rewrite orb_true_iff, !N.eqb_eq. done. Qed.

Lemma is_blank_false (c : N) : is_blank c = false <-> c <> SPACE /\ c <> TAB.
Proof.
  unfold is_blank. rewrite orb_false_iff, !N.eqb_neq. done.
Qed.

(** *** Each step keeps what the steps before it established *)

Lemma collapse_blanks_Forall (X : N -> Prop) (s : jsstring) :
  X SPACE -> Forall X s -> Forall X (collapse_blanks s).
Proof.
  intros Hspace. induction 1 as [|c r Hc Hr IH]; [constructor |].
  cbn [collapse_blanks]. destruct (is_blank c).
  - destruct r as [|d r']; [by repeat constructor |].
    destruct (is_blank d); [done | by constructor].
  - by constructor.
Qed.

Lemma collapse_newlines_Forall (X : N -> Prop) (eaten : bool) (s : jsstring) :
  X LF -> Forall X s -> Forall X (collapse_newlines_from eaten s).
Proof.
  intros Hlf Hs. revert eaten. induction Hs as [|c r Hc Hr IH]; intros eaten;
    [constructor |].
  cbn [collapse_newlines_from]. destruct (is_space c).
  - destruct eaten; [apply IH |].
    destruct (space_run_has_lf (c :: r)); constructor; auto.
  - constructor; auto.
Qed.

Lemma trim_start_suffix (s : jsstring) : exists a, s = a ++ trim_start s.
Proof.
  induction s as [|c r [a IH]]; [by exists [] |]. simpl.
  destruct (is_space c).
  - exists (c :: a). simpl. by f_equal.
  - by exists [].
Qed.

Lemma trim_start_solid (s : jsstring) : starts_solid (trim_start s).
Proof.
  induction s as [|c r IH]; [done |]. simpl.
  destruct (is_space c) eqn:Hc; [done |]. simpl. done.
Qed.

Lemma trim_start_fixed (s : jsstring) : starts_solid s -> trim_start s = s.
Proof. destruct s as [|c r]; [done |]. simpl. by intros ->. Qed.

(** [trim] keeps a run of neighbours of the string. *)
Lemma trim_infix (s : jsstring) : exists a b, s = a ++ trim s ++ b.
Proof.
  unfold trim. destruct (trim_start_suffix s) as [a Ha].
  destruct (trim_start_suffix (rev (trim_start s))) as [b Hb].
  exists a, (rev b). rewrite <- rev_app_distr, <- Hb, rev_involutive. done.
Qed.

Lemma trim_Forall (X : N -> Prop) (s : jsstring) : Forall X s -> Forall X (trim s).
Proof.
  intros Hs. destruct (trim_infix s) as (a & b & Heq). rewrite Heq in Hs.
  apply Forall_app in Hs as [_ Hs]. by apply Forall_app in Hs as [Hs _].
Qed.

Lemma trim_adjacent (Rel : N -> N -> Prop) (s : jsstring) :
  adjacent Rel s -> adjacent Rel (trim s).
Proof.
  intros Hs. destruct (trim_infix s) as (a & b & Heq). rewrite Heq in Hs.
  by apply adjacent_app_r, adjacent_app_l in Hs.
Qed.

(** [trim] leaves a string that [trim] does not change. *)
Lemma trim_trim (s : jsstring) : trim (trim s) = trim s.
Proof.
  unfold trim.
  set (u := trim_start s). set (v := trim_start (rev u)).
  assert (Hu : starts_solid u) by apply trim_start_solid.
  assert (Hv : starts_solid v) by apply trim_start_solid.
  assert (Hy : starts_solid (rev v)).
  { destruct (trim_start_suffix (rev u)) as [a Ha]. fold v in Ha.
    assert (u = rev v ++ rev a) as Hsplit.
    { by rewrite <- rev_app_distr, <- Ha, rev_involutive. }
    destruct (rev v) as [|c y]; [done |]. rewrite Hsplit in Hu. done. }
  rewrite (trim_start_fixed (rev v) Hy), rev_involutive.
  by rewrite (trim_start_fixed v Hv).
Qed.

(** *** Collapsing blanks *)

Lemma collapse_blanks_solid (c : N) (r : jsstring) :
  is_blank c = false -> collapse_blanks (c :: r) = c :: collapse_blanks r.
Proof. intros Hc. cbn [collapse_blanks]. by rewrite Hc. Qed.

Lemma collapse_blanks_no_tab (s : jsstring) :
  Forall (fun c => c <> TAB) (collapse_blanks s).
Proof.
  induction s as [|c r IH]; [constructor |].
  cbn [collapse_blanks]. destruct (is_blank c) eqn:Hc.
  - destruct r as [|d r']; [by repeat constructor |].
    destruct (is_blank d); [done | by constructor].
  - apply is_blank_false in Hc as [_ Hc]. by constructor.
Qed.

Lemma collapse_blanks_single_spaces (s : jsstring) :
  single_spaces (collapse_blanks s).
Proof.
  unfold single_spaces. induction s as [|c r IH]; [done |].
  destruct (is_blank c) eqn:Hc.
  - cbn [collapse_blanks]. rewrite Hc.
    destruct r as [|d r']; [done |].
    destruct (is_blank d) eqn:Hd; [done |].
    rewrite (collapse_blanks_solid d r' Hd) in *.
    apply is_blank_false in Hd as [Hd _].
    split; [| done]. intros [_ ?]. done.
  - rewrite (collapse_blanks_solid c r Hc).
    apply is_blank_false in Hc as [Hc _].
    split; [| done]. destruct (collapse_blanks r); [done |]. by intros [? _].
Qed.

Lemma collapse_blanks_fixed (s : jsstring) :
  Forall (fun c => c <> TAB) s -> single_spaces s -> collapse_blanks s = s.
Proof.
  unfold single_spaces. induction 1 as [|c r Hc Hr IH]; [done |].
  intros [Hpair Hrest]. cbn [collapse_blanks].
  destruct (is_blank c) eqn:Hblank.
  - apply is_blank_spec in Hblank as [-> | ->]; [| done].
    destruct r as [|d r']; [done |].
    apply Forall_cons in Hr as Hd. destruct Hd as [Hd _].
    assert (is_blank d = false) as Hsolid.
    { apply is_blank_false. split; [| done]. intros ->. by apply Hpair. }
    rewrite Hsolid. f_equal. by apply IH.
  - f_equal. by apply IH.
Qed.

(** *** Collapsing the whitespace around line feeds *)

Local Abbreviation nlf := collapse_newlines_from.

Lemma nlf_solid (eaten : bool) (c : N) (r : jsstring) :
  is_space c = false -> nlf eaten (c :: r) = c :: nlf false r.
Proof. intros Hc. cbn [collapse_newlines_from]. by rewrite Hc. Qed.

Lemma nlf_eaten (c : N) (r : jsstring) :
  is_space c = true -> nlf true (c :: r) = nlf true r.
Proof. intros Hc. cbn [collapse_newlines_from]. by rewrite Hc. Qed.

Lemma nlf_line_feed (c : N) (r : jsstring) :
  is_space c = true -> space_run_has_lf (c :: r) = true ->
  nlf false (c :: r) = LF :: nlf true r.
Proof. intros Hc Hlf. cbn [collapse_newlines_from]. by rewrite Hc, Hlf. Qed.

Lemma nlf_kept (c : N) (r : jsstring) :
  space_run_has_lf (c :: r) = false -> nlf false (c :: r) = c :: nlf false r.
Proof.
  intros Hlf. cbn [collapse_newlines_from]. rewrite Hlf.
  by destruct (is_space c).
Qed.

Lemma run_without_lf (c : N) (r : jsstring) :
  is_space c = true -> space_run_has_lf (c :: r) = false ->
  c <> LF /\ space_run_has_lf r = false.
Proof.
  intros Hc. cbn [space_run_has_lf]. rewrite Hc. simpl.
  intros Hrun. apply orb_false_iff in Hrun as [Hne Hrest].
  by apply N.eqb_neq in Hne.
Qed.

Lemma nlf_eaten_solid (s : jsstring) : starts_solid (nlf true s).
Proof.
  induction s as [|c r IH]; [done |].
  destruct (is_space c) eqn:Hc.
  - by rewrite nlf_eaten.
  - by rewrite nlf_solid.
Qed.

Lemma nlf_single_spaces (eaten : bool) (s : jsstring) :
  single_spaces s -> single_spaces (nlf eaten s).
Proof.
  unfold single_spaces. revert eaten.
  induction s as [|c r IH]; intros eaten; [done |]. intros [Hpair Hrest].
  destruct (is_space c) eqn:Hc.
  - destruct eaten; [rewrite nlf_eaten by done; auto |].
    destruct (space_run_has_lf (c :: r)) eqn:Hlf.
    + rewrite nlf_line_feed by done. split; [| auto].
      destruct (nlf true r); [done |]. by intros [? _].
    + rewrite nlf_kept by done.
      destruct (run_without_lf c r Hc Hlf) as [_ Hr].
      split; [| auto]. destruct r as [|d r']; [done |].
      by rewrite nlf_kept.
  - rewrite nlf_solid by done. split; [| auto].
    destruct (nlf false r); [done |]. intros [-> _]. done.
Qed.

Lemma nlf_lone_line_feeds (eaten : bool) (s : jsstring) :
  lone_line_feeds (nlf eaten s).
Proof.
  unfold lone_line_feeds. revert eaten.
  induction s as [|c r IH]; intros eaten; [done |].
  destruct (is_space c) eqn:Hc.
  - destruct eaten; [rewrite nlf_eaten by done; auto |].
    destruct (space_run_has_lf (c :: r)) eqn:Hlf.
    + rewrite nlf_line_feed by done. split; [| auto].
      pose proof (nlf_eaten_solid r) as Hsolid.
      destruct (nlf true r) as [|d r']; [done |]. simpl in Hsolid.
      split; intros [? ?]; [congruence |]. subst d. done.
    + rewrite nlf_kept by done.
      destruct (run_without_lf c r Hc Hlf) as [Hne Hr].
      split; [| auto]. destruct r as [|d r']; [done |].
      rewrite nlf_kept by done.
      split; intros [? ?]; [done |]. subst d.
      cbn [space_run_has_lf] in Hr. by rewrite is_space_LF in Hr.
  - rewrite nlf_solid by done. split; [| auto].
    destruct (nlf false r) as [|d r']; [done |].
    split; intros [? ?]; [| congruence]. subst c. done.
Qed.

Lemma lone_run_without_lf (c : N) (r : jsstring) :
  lone_line_feeds (c :: r) -> is_space c = true -> c <> LF ->
  space_run_has_lf r = false.
Proof.
  unfold lone_line_feeds. revert c. induction r as [|d r' IH]; intros c; [done |].
  intros [[_ Hpair] Hrest] Hc Hne. cbn [space_run_has_lf].
  destruct (is_space d) eqn:Hd; [| done]. simpl.
  assert (d <> LF) as Hdne by (intros ->; by apply Hpair).
  apply orb_false_iff. split; [by apply N.eqb_neq |].
  by apply (IH d).
Qed.

Lemma nlf_fixed (s : jsstring) : lone_line_feeds s -> nlf false s = s.
Proof.
  induction s as [|c r IH]; [done |]. intros Hlone.
  assert (Hrest : lone_line_feeds r) by apply Hlone.
  destruct (is_space c) eqn:Hc.
  - destruct (decide (c = LF)) as [-> | Hne].
    + rewrite nlf_line_feed by done. f_equal.
      destruct r as [|d r']; [done |].
      destruct Hlone as [[Hpair _] _].
      assert (is_space d = false) as Hd.
      { destruct (is_space d) eqn:Hd; [| done]. by destruct Hpair. }
      rewrite nlf_solid by done. rewrite <- (nlf_solid false) by done. auto.
    + rewrite nlf_kept; [f_equal; auto |].
      cbn [space_run_has_lf]. rewrite Hc. simpl.
      apply orb_false_iff. split; [by apply N.eqb_neq |].
      by apply (lone_run_without_lf c r).
  - rewrite nlf_solid by done. f_equal. auto.
Qed.

(** *** The normal form *)

Lemma replace_nbsp_none (s : jsstring) : Forall (fun c => c <> NBSP) (replace_nbsp s).
Proof.
  unfold replace_nbsp. induction s as [|c r IH]; simpl; constructor; [| done].
  destruct (N.eqb_spec c NBSP); done.
Qed.

Lemma replace_nbsp_fixed (s : jsstring) :
  Forall (fun c => c <> NBSP) s -> replace_nbsp s = s.
Proof.
  unfold replace_nbsp. induction 1 as [|c r Hc _ IH]; simpl; [done |].
  rewrite IH. by destruct (N.eqb_spec c NBSP).
Qed.

Lemma strip_zero_width_none (s : jsstring) :
  Forall (fun c => is_zero_width c = false) (strip_zero_width s).
Proof.
  unfold strip_zero_width. induction s as [|c r IH]; simpl; [constructor |].
  destruct (is_zero_width c) eqn:Hc; simpl; [done | by constructor].
Qed.

Lemma strip_zero_width_fixed (s : jsstring) :
  Forall (fun c => is_zero_width c = false) s -> strip_zero_width s = s.
Proof.
  unfold strip_zero_width. induction 1 as [|c r Hc _ IH]; simpl; [done |].
  by rewrite Hc, IH.
Qed.

Lemma strip_zero_width_Forall (X : N -> Prop) (s : jsstring) :
  Forall X s -> Forall X (strip_zero_width s).
Proof.
  unfold strip_zero_width. induction 1 as [|c r Hc _ IH]; simpl; [constructor |].
  destruct (is_zero_width c); simpl; [done | by constructor].
Qed.

Lemma no_nbsp_Forall (s : jsstring) :
  ~ List.In NBSP s <-> Forall (fun c => c <> NBSP) s.
Proof.
  rewrite List.Forall_forall. split.
  - intros Hs c Hc ->. done.
  - intros Hs Hin. by apply (Hs NBSP).
Qed.

Section NormalForm.
Context {LC : LowerCase}.

Lemma normalizeText_normal (x : JsText) : normal_text (normalizeText x).
Proof.
  unfold normalizeText.
  set (s1 := toLowerCase (replace_nbsp (text_or_empty x))).
  assert (H1 : Forall (fun c => c <> NBSP) s1).
  { apply no_nbsp_Forall, toLowerCase_nbsp, no_nbsp_Forall, replace_nbsp_none. }
  unfold normal_text, collapse_newlines. split_and!.
  - apply trim_Forall, collapse_newlines_Forall; [done |].
    apply collapse_blanks_Forall; [done |]. by apply strip_zero_width_Forall.
  - apply trim_Forall, collapse_newlines_Forall; [done |].
    apply collapse_blanks_Forall; [done |]. apply strip_zero_width_none.
  - apply trim_Forall, collapse_newlines_Forall; [done |].
    apply collapse_blanks_no_tab.
  - apply trim_adjacent, nlf_single_spaces, collapse_blanks_single_spaces.
  - apply trim_adjacent, nlf_lone_line_feeds.
  - apply trim_trim.
Qed.

(** On a normal text every step but the case mapping is the identity. *)
Lemma normalizeText_of_normal (y : jsstring) :
  normal_text y -> toLowerCase y = y -> normalizeText (TextStr y) = y.
Proof.
  intros (Hnbsp & Hzw & Htab & Hss & Hlf & Htrim) Hlower.
  unfold normalizeText.
  replace (text_or_empty (TextStr y)) with y by (by destruct y).
  rewrite replace_nbsp_fixed, Hlower, strip_zero_width_fixed by done.
  rewrite collapse_blanks_fixed by done.
  unfold collapse_newlines. by rewrite nlf_fixed.
Qed.

(** C7, amended: normalizing a normalized text changes nothing, for
    every input whose normalized text the engine's [toLowerCase] leaves
    as it is. *)
Theorem normalizeText_idempotent (x : JsText) :
  toLowerCase (normalizeText x) = normalizeText x ->
  normalizeText (TextStr (normalizeText x)) = normalizeText x.
Proof.
  intros Hlower. apply normalizeText_of_normal; [| done].
  apply normalizeText_normal.
Qed.
End NormalForm.

Example normalizeText_sample :
  normalizeText (TextStr ([0x200B; 0x20; 0x20] ++ js "Hello" ++ [0xA0; 0x09]
                          ++ js "World " ++ [0x0A; 0x0D; 0x0A] ++ js " Bye" ++ [0x20]))
  = js "hello world" ++ [0x0A] ++ js "bye".
Proof. vm_compute. reflexivity. Qed.

(** C7, as stated, fails: a zero-width space between the two halves of a
    surrogate pair hides the pair from [toLowerCase]; the first pass
    removes the zero-width space and leaves U+10400 (a capital letter),
    which the second pass lowers to U+10428. *)
Lemma normalizeText_not_idempotent :
  let x := TextStr [0xD801; 0x200B; 0xDC00] in
  normalizeText x = [0xD801; 0xDC00]
  /\ normalizeText (TextStr (normalizeText x)) = [0xD801; 0xDC28]
  /\ normalizeText (TextStr (normalizeText x)) <> normalizeText x.
Proof. vm_compute. split_and!; [reflexivity | reflexivity | discriminate]. Qed.

Lemma normalizeText_idempotent_witness :
  let x := TextStr ([0x20] ++ js "Hello" ++ [0xA0; 0x09] ++ js "World"
                      ++ [0x20; 0x0A; 0x0A] ++ js "Bye") in
  toLowerCase (normalizeText x) = normalizeText x
  /\ normalizeText (TextStr (normalizeText x)) = normalizeText x.
Proof.
  intros x.
  assert (Hlower : toLowerCase (normalizeText x) = normalizeText x)
    by (vm_compute; reflexivity).
  split; [exact Hlower |].
  apply (normalizeText_idempotent x Hlower).
Defined.

(** ** The planner consumes what the paginator yields *)

Local Open Scope Z_scope.

Section PlannerOnPaginator.
Context {LC : LowerCase} {TN : ToNumber} {P : Platform}.

Lemma fold_left_snoc {A} (items l0 : list A) :
  fold_left (fun acc cur => acc ++ [cur]) items l0 = l0 ++ items.
Proof.
  revert l0. induction items as [|x items IH]; intros l0; simpl.
  - by rewrite app_nil_r.
  - by rewrite IH, <- app_assoc.
Qed.

(** A [for await] loop over [iterAsc] with a pure body is the fold of
    the body over the yielded sequence. *)
Lemma for_await_fold {B} (body : B -> Entry -> B) (fuel : nat)
    (group_id topic_id offset : Z) (acc0 : B) (l0 : list Entry) (w : World) :
  for_await_iterAsc fuel body group_id topic_id offset (fold_left body l0 acc0) w
  = match for_await_iterAsc fuel (fun acc cur => acc ++ [cur])
                            group_id topic_id offset l0 w with
    | (Ok l, w') => (Ok (fold_left body l acc0), w')
    | (Raise e, w') => (Raise e, w')
    | (OutOfFuel, w') => (OutOfFuel, w')
    end.
Proof.
  revert offset l0 w. induction fuel as [|fuel IH]; intros offset l0 w; [done |].
  cbn [for_await_iterAsc].
  destruct (call (vkUser_getComments group_id topic_id page offset asc) w)
    as [[reply | e |] w1]; [| done | done].
  destruct (length (default [] (reply_items reply)) =? 0)%nat; [done |].
  rewrite fold_left_snoc, <- fold_left_app.
  destruct (Z.of_nat (length (default [] (reply_items reply))) <? page); [done |].
  rewrite <- (fold_left_snoc (default [] (reply_items reply)) l0).
  rewrite fold_left_snoc. apply IH.
Qed.

(** [planDeletionsAsc] returns [plan_entries] of the sequence that
    [iterAsc] yields, and fails as the paginator fails. *)
Lemma planDeletionsAsc_plan (fuel : nat) (group_id topic_id startOffset : Z)
    (ignoreAtts : bool) (w : World) :
  planDeletionsAsc fuel group_id topic_id startOffset ignoreAtts w
  = match iterAsc fuel group_id topic_id startOffset w with
    | (Ok entries, w') => (Ok (plan_entries ignoreAtts entries), w')
    | (Raise e, w') => (Raise e, w')
    | (OutOfFuel, w') => (OutOfFuel, w')
    end.
Proof.
  unfold planDeletionsAsc, iterAsc.
  rewrite (for_await_fold (plan_step ignoreAtts) fuel group_id topic_id
             startOffset (None, []) [] w).
  by destruct (for_await_iterAsc fuel _ group_id topic_id startOffset [] w)
    as [[l | e |] w'].
Qed.
End PlannerOnPaginator.

(** * Further properties *)

(** ** The planner: what a plan leaves behind *)

Section PlannerFurther.
Context {LC : LowerCase}.
Variable ignoreAtts : bool.

Lemma plan_loop_planned (k : Entry) (l : list Entry) :
  snd (plan_loop ignoreAtts l (Some k, [])) = planned_after ignoreAtts k l.
Proof.
  revert k. induction l as [|e l IH]; intros k; [done |].
  rewrite plan_loop_cons, plan_step_kept. cbn [planned_after].
  destruct (same_signature ignoreAtts k e).
  - rewrite plan_loop_prefix. simpl. by rewrite IH.
  - apply IH.
Qed.

Lemma plan_entries_cons (k : Entry) (l : list Entry) :
  plan_entries ignoreAtts (k :: l) = planned_after ignoreAtts k l.
Proof.
  unfold plan_entries. rewrite plan_loop_cons, plan_step_first.
  apply plan_loop_planned.
Qed.

Lemma planned_after_kept (k : Entry) (l : list Entry) :
  planned_after ignoreAtts k (kept_after ignoreAtts k l) = [].
Proof.
  revert k. induction l as [|e l IH]; intros k; [done |].
  cbn [kept_after]. destruct (same_signature ignoreAtts k e) eqn:Hke; [apply IH |].
  cbn [planned_after]. rewrite Hke. apply IH.
Qed.

Lemma planned_after_ids (k : Entry) (l : list Entry) (i : Z) :
  i ∈ planned_after ignoreAtts k l -> i ∈ List.map id l.
Proof.
  revert k. induction l as [|e l IH]; intros k; [done |].
  cbn [planned_after List.map]. destruct (same_signature ignoreAtts k e).
  - rewrite !elem_of_cons. intros [-> | Hin]; [by left | right; eauto].
  - rewrite elem_of_cons. right. eauto.
Qed.

Lemma apply_plan_fresh (i : Z) (plan : list Z) (l : list Entry) :
  i ∉ List.map id l -> apply_plan (i :: plan) l = apply_plan plan l.
Proof.
  unfold apply_plan. induction l as [|e l IH]; [done |]. cbn [List.map List.filter].
  rewrite not_elem_of_cons. intros [Hne Hl]. rewrite (IH Hl).
  destruct (decide (id e ∈ plan)) as [Hin | Hout].
  - rewrite !bool_decide_eq_true_2; [done | done | by right].
  - rewrite !bool_decide_eq_false_2; [done | done |].
    rewrite not_elem_of_cons. done.
Qed.

(** With distinct identifiers, the entries outside the plan are the
    entries the loop kept. *)
Lemma apply_plan_kept (k : Entry) (l : list Entry) :
  NoDup (List.map id (k :: l)) ->
  apply_plan (planned_after ignoreAtts k l) l = kept_after ignoreAtts k l.
Proof.
  revert k. induction l as [|e l IH]; intros k Hnodup; [done |].
  cbn [List.map] in Hnodup.
  apply NoDup_cons in Hnodup as [Hk Hnodup].
  pose proof Hnodup as Hel. apply NoDup_cons in Hel as [He Hl].
  rewrite not_elem_of_cons in Hk. destruct Hk as [Hke Hkl].
  cbn [planned_after kept_after].
  destruct (same_signature ignoreAtts k e) eqn:Hsame.
  - unfold apply_plan. cbn [List.filter].
    rewrite bool_decide_eq_true_2 by apply list_elem_of_here. cbn [negb].
    fold (apply_plan (id e :: planned_after ignoreAtts k l) l).
    rewrite apply_plan_fresh by done.
    apply IH. cbn [List.map]. by apply NoDup_cons.
  - unfold apply_plan. cbn [List.filter].
    rewrite bool_decide_eq_false_2; [cbn [negb] |].
    + f_equal. by apply IH.
    + intros Hin. by apply planned_after_ids in Hin.
Qed.

(** X1: when the identifiers of the yielded entries are pairwise
    distinct, applying the plan leaves a thread in which the planner
    finds nothing more to delete. *)
Theorem plan_twice_is_empty (entries : list Entry) :
  NoDup (List.map id entries) ->
  plan_entries ignoreAtts
    (apply_plan (plan_entries ignoreAtts entries) entries) = [].
Proof.
  intros Hnodup. destruct entries as [|k l]; [done |].
  rewrite plan_entries_cons. unfold apply_plan. cbn [List.filter].
  rewrite bool_decide_eq_false_2; [cbn [negb] |].
  - fold (apply_plan (planned_after ignoreAtts k l) l).
    rewrite apply_plan_kept by done.
    rewrite plan_entries_cons. apply planned_after_kept.
  - intros Hin. apply planned_after_ids in Hin.
    cbn [List.map] in Hnodup. by apply NoDup_cons in Hnodup as [? _].
Qed.

Lemma planned_after_nil (k : Entry) (l : list Entry) :
  planned_after ignoreAtts k l = [] <->
  neighbours (fun a b => same_signature ignoreAtts a b = false) (k :: l).
Proof.
  revert k. induction l as [|e l IH]; intros k; [simpl; tauto |].
  cbn [planned_after].
  change (neighbours ?Rel (k :: e :: l)) with (Rel k e /\ neighbours Rel (e :: l)).
  cbv beta. destruct (same_signature ignoreAtts k e).
  - split; [done | intros [? _]; done].
  - rewrite IH. tauto.
Qed.

(** X2: the plan is empty exactly when no entry has the signature of
    the entry yielded just before it. *)
Theorem plan_empty_iff_no_neighbour_matches (entries : list Entry) :
  plan_entries ignoreAtts entries = [] <->
  neighbours (fun a b => same_signature ignoreAtts a b = false) entries.
Proof.
  destruct entries as [|k l]; [done |].
  rewrite plan_entries_cons. apply planned_after_nil.
Qed.
End PlannerFurther.

Lemma plan_twice_is_empty_witness :
  let entries := [comment 1 10 "hi"; comment 2 10 "Hi "; comment 3 10 "bye";
                  comment 4 10 "bye"; comment 5 11 "bye"] in
  NoDup (List.map id entries)
  /\ apply_plan (plan_entries false entries) entries
     = [comment 1 10 "hi"; comment 3 10 "bye"; comment 5 11 "bye"]
  /\ plan_entries false (apply_plan (plan_entries false entries) entries) = [].
Proof.
  intros entries.
  assert (Hnodup : NoDup (List.map id entries)).
  { apply (bool_decide_unpack _). vm_compute. exact I. }
  split_and!; [exact Hnodup | vm_compute; reflexivity |].
  apply (plan_twice_is_empty false entries Hnodup).
Defined.

(** ** Attachment signature: attachments against none *)

Lemma attachment_tuple_nonempty (a : Attachment) : attachment_tuple a <> [].
Proof.
  unfold attachment_tuple. destruct (att_type a) as [[|c r] |]; done.
Qed.

Lemma join_nonempty (sep x : jsstring) (l : list jsstring) :
  x <> [] -> join sep (x :: l) <> [].
Proof.
  intros Hx. cbn [join]. destruct l as [|y l]; [done |].
  destruct x; [done | discriminate].
Qed.

(** X3: a list that holds an attachment never has the empty signature,
    while an absent or empty list has it: unless attachments are ignored,
    a comment with attachments is no duplicate of a comment without any.
    With the ignore flag every signature is empty. *)
Theorem attsHash_empty_iff_no_attachment
    (a : Attachment) (l : list Attachment) (atts : option (list Attachment)) :
  attsHash (Some (a :: l)) false <> []
  /\ attsHash None false = []
  /\ attsHash (Some []) false = []
  /\ attsHash atts true = [].
Proof.
  split_and!; [| done | done | by destruct atts].
  unfold attsHash. cbn [orb length Nat.eqb].
  pose proof (sort_strings_perm (List.map attachment_tuple (a :: l))) as Hperm.
  destruct (sort_strings (List.map attachment_tuple (a :: l))) as [|x rest] eqn:Hsort.
  - apply Permutation_nil_l in Hperm. discriminate.
  - apply join_nonempty.
    assert (x ∈ List.map attachment_tuple (a :: l)) as Hin.
    { rewrite <- Hperm. apply list_elem_of_here. }
    apply list_elem_of_In, in_map_iff in Hin as (b & <- & _).
    apply attachment_tuple_nonempty.
Qed.

(** ** Text normalization: the shape of the result *)

Lemma trimmed_ends (y : jsstring) :
  trim y = y -> starts_solid y /\ starts_solid (rev y).
Proof.
  intros Htrim. split.
  - rewrite <- Htrim. unfold trim.
    pose proof (trim_start_solid y) as Hu.
    destruct (trim_start_suffix (rev (trim_start y))) as [a Ha].
    assert (trim_start y = rev (trim_start (rev (trim_start y))) ++ rev a) as Hsplit.
    { by rewrite <- rev_app_distr, <- Ha, rev_involutive. }
    destruct (rev (trim_start (rev (trim_start y)))) as [|c r]; [done |].
    rewrite Hsplit in Hu. done.
  - rewrite <- Htrim. unfold trim. rewrite rev_involutive.
    apply trim_start_solid.
Qed.

(** X4: whatever the input, the normalized text holds no non-breaking
    space, no zero-width character and no tab, never two spaces in a row,
    no whitespace next to a line feed, and neither starts nor ends with
    whitespace. *)
Theorem normalizeText_shape {LC : LowerCase} (x : JsText) :
  let y := normalizeText x in
  Forall (fun c => c <> NBSP /\ is_zero_width c = false /\ c <> TAB) y
  /\ single_spaces y
  /\ lone_line_feeds y
  /\ starts_solid y
  /\ starts_solid (rev y).
Proof.
  intros y.
  destruct (normalizeText_normal x) as (Hnbsp & Hzw & Htab & Hss & Hlf & Htrim).
  fold y in Hnbsp, Hzw, Htab, Hss, Hlf, Htrim.
  destruct (trimmed_ends y Htrim) as [Hstart Hend].
  split_and!; try done.
  rewrite List.Forall_forall in *. intros c Hc. split_and!; auto.
Qed.

(** ** The resilient call wrapper: every outcome *)

Section RetryOutcomes.
Context {TN : ToNumber} {St A : Type}.
Variable random_floor : Z -> St -> Z * St.
Variable sleep : Z -> St -> St.
Variable fn : St -> Outcome A * St.

Local Abbreviation counted_loop :=
  (withRetries_loop (random_beside_counter random_floor)
                    (sleep_beside_counter sleep) (counting fn)).

Lemma withRetries_loop_outcome (fuel : nat) (maxR : JsNumber) (base attempt : Z)
    (s : St) :
  0 <= attempt ->
  match withRetries_loop random_floor sleep fn fuel maxR base attempt s with
  | (Ok a, s') => exists s0, fn s0 = (Returned a, s')
  | (Raise e, s') =>
      exists e0 s0 tries,
        fn s0 = (Thrown e0, s')
        /\ e = new_Error (failure_text (err_code e0) (error_text e0) tries)
        /\ 0 <= tries
        /\ (retriable (err_code e0) = false \/ ge_number tries maxR = true)
  | (OutOfFuel, _) => True
  end.
Proof.
  revert attempt s. induction fuel as [|fuel IH]; intros attempt s Hpos; [done |].
  cbn [withRetries_loop]. unfold withRetries_turn.
  destruct (fn s) as [[a | e0] s1] eqn:Hfn; [by exists s |].
  destruct (negb (retriable (err_code e0)) || ge_number attempt maxR) eqn:Hstop.
  - exists e0, s, attempt. split_and!; try done.
    apply orb_true_iff in Hstop as [Hfatal | Hlast].
    + left. by apply negb_true_iff.
    + by right.
  - apply IH. lia.
Qed.

(** Against a [maxRetries] that is [NaN], an operation that fails with
    a retriable code at every attempt is retried as long as the loop is
    followed. *)
Lemma withRetries_loop_forever (fuel : nat) (base attempt : Z) (s : St) :
  (forall s0, exists e s1, fn s0 = (Thrown e, s1) /\ retriable (err_code e) = true) ->
  fst (withRetries_loop random_floor sleep fn fuel NaN base attempt s) = OutOfFuel.
Proof.
  intros Hretry. revert attempt s.
  induction fuel as [|fuel IH]; intros attempt s; [done |].
  destruct (Hretry s) as (e & s1 & He & Hcode).
  cbn [withRetries_loop]. unfold withRetries_turn.
  rewrite He, Hcode. cbn [negb orb ge_number]. apply IH.
Qed.

(** X5: [withRetries] either returns the value of an invocation that
    returned, in the state that invocation left (no pause follows a
    success), or throws a new [Error] whose message is [VK API failed:
    code=], [, msg=] and [, attempt=] filled from a failure of the
    operation that was fatal or met an attempt counter that had reached
    [maxRetries]; it never throws the operation's own error. Under a
    [maxRetries] that is a number it has done one or the other within
    [ceil(maxRetries) + 1] turns of its loop. Under a [maxRetries] that
    is [NaN] it never settles on an operation that fails with a retriable
    code at every attempt. *)
Theorem withRetries_outcome (cfg : RetryCfg) (fuel : nat) (s : St) :
  let maxR := default (Int (d_maxRetries DEFAULTS)) (maxRetries cfg) in
  let result := withRetries random_floor sleep fn fuel cfg s in
  match result with
  | (Ok a, s') => exists s0, fn s0 = (Returned a, s')
  | (Raise e, s') =>
      exists e0 s0 tries,
        fn s0 = (Thrown e0, s')
        /\ e = new_Error (js "VK API failed: code=" ++ code_text (err_code e0)
                            ++ js ", msg=" ++ error_text e0
                            ++ js ", attempt=" ++ String_of_Z tries)
        /\ 0 <= tries
        /\ (retriable (err_code e0) = false \/ ge_number tries maxR = true)
  | (OutOfFuel, _) =>
      forall q : Q, maxR = Num q -> (fuel <= Z.to_nat (Qceiling q))%nat
  end
  /\ (maxR = NaN ->
      (forall s0, exists e s1,
          fn s0 = (Thrown e, s1) /\ retriable (err_code e) = true) ->
      result.1 = OutOfFuel).
Proof.
  intros maxR result. split.
  - pose proof (withRetries_loop_outcome fuel maxR
                  (default (d_baseBackoffMs DEFAULTS) (baseBackoffMs cfg)) 0 s
                  ltac:(lia)) as Hout.
    assert (Hsettles : forall q : Q, maxR = Num q ->
              (Z.to_nat (Qceiling q) < fuel)%nat -> result.1 <> OutOfFuel).
    { intros q Hq. by apply withRetries_settles. }
    unfold result, withRetries in *. fold maxR in Hsettles |- *.
    destruct (withRetries_loop random_floor sleep fn fuel maxR _ 0 s)
      as [[a | e |] s1]; [done | done |].
    intros q Hq. specialize (Hsettles q Hq). simpl in Hsettles.
    destruct (le_lt_dec fuel (Z.to_nat (Qceiling q))) as [Hle | Hlt]; [done |].
    by destruct (Hsettles Hlt).
  - intros Hnan Hretry. unfold result, withRetries. fold maxR. rewrite Hnan.
    by apply withRetries_loop_forever.
Qed.

Lemma counted_loop_count (fuel : nat) (maxR : JsNumber) (base attempt : Z)
    (n : nat) (s : St) :
  let n' := (counted_loop fuel maxR base attempt (n, s)).2.1 in
  ((0 < fuel)%nat -> (n + 1 <= n')%nat) /\ (n' <= n + fuel)%nat.
Proof.
  revert attempt n s. induction fuel as [|fuel IH]; intros attempt n s.
  - simpl. lia.
  - cbv zeta. rewrite counted_loop_step.
    destruct (withRetries_turn random_floor sleep fn maxR base attempt s)
      as [[[a | e] | attempt'] s1] eqn:Hturn; simpl; [lia | lia |].
    specialize (IH attempt' (S n) s1). cbv zeta in IH.
    destruct fuel as [|fuel']; [simpl in *; lia |]. lia.
Qed.

Lemma counted_loop_budget (fuel : nat) (q : Q) (base attempt : Z) (n : nat)
    (s : St) :
  let n' := (counted_loop fuel (Num q) base attempt (n, s)).2.1 in
  (n' <= n + Z.to_nat (Qceiling q - attempt) + 1)%nat.
Proof.
  revert attempt n s. induction fuel as [|fuel IH]; intros attempt n s.
  - simpl. lia.
  - cbv zeta. rewrite counted_loop_step.
    destruct (withRetries_turn random_floor sleep fn (Num q) base attempt s)
      as [[[a | e] | attempt'] s1] eqn:Hturn; simpl; [lia | lia |].
    apply withRetries_turn_again in Hturn as [Hlt ->].
    rewrite ge_number_ceiling in Hlt. apply Z.leb_gt in Hlt.
    specialize (IH (attempt + 1) (S n) s1). cbv zeta in IH. lia.
Qed.

(** X6: whatever the operation does, [withRetries] invokes it at least
    once, and under a [maxRetries] that is a number at most
    [ceil(maxRetries) + 1] times ([maxRetries + 1] times for a whole
    one, once for a negative one), within which it settles. Under a
    [maxRetries] that is [NaN] there is no bound: an operation that
    fails with a retriable code at every attempt is invoked once in
    every turn the loop is followed for. *)
Theorem withRetries_budget (cfg : RetryCfg) (fuel n : nat) (s : St) :
  let maxR := default (Int (d_maxRetries DEFAULTS)) (maxRetries cfg) in
  let counted :=
    withRetries (random_beside_counter random_floor) (sleep_beside_counter sleep)
                (counting fn) fuel cfg (n, s) in
  let n' := counted.2.1 in
  ((0 < fuel)%nat -> (n + 1 <= n')%nat)
  /\ (forall q : Q, maxR = Num q ->
        (n' <= n + Z.to_nat (Qceiling q) + 1)%nat
        /\ ((Z.to_nat (Qceiling q) < fuel)%nat -> counted.1 <> OutOfFuel))
  /\ (forall N : Z, maxR = Int N -> (n' <= n + Z.to_nat N + 1)%nat)
  /\ (maxR = NaN ->
      (forall s0, exists e s1,
          fn s0 = (Thrown e, s1) /\ retriable (err_code e) = true) ->
      n' = (n + fuel)%nat).
Proof.
  intros maxR counted n'.
  set (base := default (d_baseBackoffMs DEFAULTS) (baseBackoffMs cfg)).
  assert (Hfinite : forall q : Q, maxR = Num q ->
            (n' <= n + Z.to_nat (Qceiling q) + 1)%nat).
  { intros q Hq. unfold n', counted, withRetries. fold maxR base. rewrite Hq.
    pose proof (counted_loop_budget fuel q base 0 n s) as Hbudget.
    cbv zeta in Hbudget. by rewrite Z.sub_0_r in Hbudget. }
  split_and!.
  - intros Hfuel. unfold n', counted, withRetries. fold maxR base.
    by apply counted_loop_count.
  - intros q Hq. split; [by apply Hfinite |].
    intros Hfuel. by apply (withRetries_settles _ _ _ cfg q).
  - intros N HN. specialize (Hfinite (inject_Z N) HN).
    by rewrite Qceiling_Z in Hfinite.
  - intros Hnan Hretry. unfold n', counted, withRetries. fold maxR base.
    rewrite Hnan.
    by destruct (counted_loop_forever random_floor sleep fn Hretry fuel base 0 n s)
      as [s1 ->].
Qed.
End RetryOutcomes.

Lemma withRetries_outcome_witness :
  let cfg := {| maxRetries := Some (Int 3); baseBackoffMs := None |} in
  withRetries no_random no_sleep flooded_op 9 cfg tt
  = (Raise (new_Error
       (js "VK API failed: code=6, msg=Too many requests per second, attempt=3")),
     tt)
  /\ (withRetries no_random no_sleep flooded_op 9
                  {| maxRetries := Some NaN; baseBackoffMs := None |} tt).1
     = OutOfFuel.
Proof.
  intros cfg. split; [reflexivity |].
  apply (withRetries_outcome no_random no_sleep flooded_op
           {| maxRetries := Some NaN; baseBackoffMs := None |} 9 tt);
    [reflexivity |].
  intros s0. exists (api_error 6 "Too many requests per second"), s0.
  split; reflexivity.
Defined.

Lemma withRetries_budget_witness :
  let cfg := {| maxRetries := Some (Num (5 # 2)); baseBackoffMs := None |} in
  let counted :=
    withRetries (random_beside_counter no_random) (sleep_beside_counter no_sleep)
                (counting flooded_op) 9 cfg (O, tt) in
  counted.2.1 = 4%nat /\ (counted.2.1 <= 0 + Z.to_nat (Qceiling (5 # 2)) + 1)%nat
  /\ counted.1 <> OutOfFuel.
Proof.
  intros cfg counted.
  destruct (withRetries_budget no_random no_sleep flooded_op cfg 9 O tt)
    as (_ & Hfinite & _).
  destruct (Hfinite (5 # 2) eq_refl) as [Hmost Hsettles].
  split_and!; [reflexivity | exact Hmost |].
  apply Hsettles. vm_compute. lia.
Defined.

(** ** Workers that may await again but never reject *)

Section GuardedWorkers.
Context {W Item T R : Type}.
Variable mapper : Item -> nat -> T.
Variable resume : T -> W -> Poll T R * W.
Variable items : list Item.
Variable concurrency : Q.
Hypothesis concurrency_positive : (1 <= concurrency)%Q.
Variable Q : nat -> T -> Prop.
Variable J : list nat -> W -> Prop.
Hypothesis mapper_task :
  forall curIdx it, items !! curIdx = Some it -> Q curIdx (mapper it curIdx).
Hypothesis worker_step :
  forall finished curIdx t w,
    J finished w -> Q curIdx t -> curIdx ∉ finished ->
    (curIdx < length items)%nat ->
    match resume t w with
    | (Pending t', w') => Q curIdx t' /\ J finished w'
    | (Fulfilled r, w') => J (finished ++ [curIdx]) w'
    | (Rejected e, w') => False
    end.

Lemma guarded_settle (k : nat) (p : @Pool T R) (w : W) :
  pool_ok items concurrency p -> isolated Q J p w ->
  isolated Q J (fst (settle mapper resume items concurrency k p w))
               (snd (settle mapper resume items concurrency k p w)).
Proof.
  intros Hok (Hj & Hq & Hpromise). unfold settle.
  destruct (p_flight p !! k) as [[curIdx t] |] eqn:Hk; [| done].
  destruct (in_flight_facts items concurrency p k curIdx t Hok Hk)
    as (Hfresh & Hidx & _).
  assert (Hqt : Q curIdx t) by apply (Forall_lookup_1 _ _ _ _ Hq Hk).
  pose proof (worker_step (p_finished p) curIdx t w Hj Hqt Hfresh Hidx) as Hstep.
  destruct (resume t w) as [[t' | r | e] w']; [| | done]; simpl.
  - destruct Hstep as [Hqt' Hj']. unfold isolated, with_flight. pool_simpl.
    split_and!; [done | | done].
    apply Forall_insert; done.
  - unfold finally. apply (isolated_next mapper items concurrency Q J mapper_task).
    unfold isolated, finish, store, with_flight. pool_simpl.
    split_and!; [done | | done]. apply (Forall_delete _ _ _ Hq).
Qed.

Lemma guarded_run (schedule : list nat) (p : @Pool T R) (w : W) :
  pool_ok items concurrency p -> pool_quiet items concurrency p -> isolated Q J p w ->
  isolated Q J (fst (run mapper resume items concurrency schedule p w))
               (snd (run mapper resume items concurrency schedule p w)).
Proof.
  revert p w. induction schedule as [|k rest IH]; intros p w Hok Hquiet Hiso;
    [done |].
  simpl.
  destruct (pool_settle mapper resume items concurrency
              k p w Hok Hquiet) as [Hok1 Hquiet1].
  pose proof (guarded_settle k p w Hok Hiso) as Hiso1.
  destruct (settle mapper resume items concurrency k p w) as [p1 w1].
  by apply IH.
Qed.

Lemma guarded_pMap (schedule : list nat) (w : W) :
  J [] w ->
  let p := fst (pMap mapper resume items concurrency schedule w) in
  let w' := snd (pMap mapper resume items concurrency schedule w) in
  pool_ok items concurrency p /\ pool_quiet items concurrency p /\ isolated Q J p w'.
Proof.
  intros Hj p w'.
  destruct (pool_pMap mapper resume items concurrency concurrency_positive
              schedule w) as [Hok Hquiet].
  split_and!; [done | done |].
  destruct (pool_pMap mapper resume items concurrency concurrency_positive [] w)
    as [Hok0 Hquiet0].
  unfold pMap in Hok0, Hquiet0. simpl in Hok0, Hquiet0.
  apply guarded_run; [done | done |].
  apply (isolated_next mapper items concurrency Q J mapper_task).
  unfold isolated, pool_init. simpl.
  split_and!; [done | constructor | done].
Qed.
End GuardedWorkers.

(** ** The deletion orchestrator on any remote service *)

Section BatchFurther.
Context {LC : LowerCase} {TN : ToNumber} {P : Platform}.
Variables (group_id topic_id : Z) (ids : list Z) (cfg : RetryCfg).

Lemma backoff_frame (attempt base max : Z) (w : World) :
  w_requests (backoff w_random_floor w_sleep attempt base max w) = w_requests w
  /\ w_console (backoff w_random_floor w_sleep attempt base max w) = w_console w.
Proof.
  unfold backoff, w_random_floor, w_sleep, on_env. simpl.
  destruct (env_random_floor _ (w_env w)) as [delay e1]. simpl.
  by rewrite !app_nil_r.
Qed.

Lemma worker_finally_lines (b : Batch) :
  let b' := worker_finally ids b in
  let total := Z.of_nat (length ids) in
  processed b' = processed b + 1
  /\ ok b' = ok b
  /\ w_requests (b_world b') = w_requests (b_world b)
  /\ exists lines,
       w_console (b_world b') = w_console (b_world b) ++ lines
       /\ failures lines = []
       /\ (processed b + 1 = total ->
           lines = [log_progress (processed b + 1) total (ok b)]).
Proof.
  unfold worker_finally. cbv zeta. simpl.
  destruct (Z.eqb_spec (processed b + 1) (Z.of_nat (length ids))) as [Hlast | Hmore].
  - rewrite orb_true_r. simpl. split_and!; try done. by eexists.
  - rewrite orb_false_r. destruct ((processed b + 1) mod 20 =? 0); simpl;
      split_and!; try done.
    + by eexists.
    + exists []. by rewrite app_nil_r.
Qed.

(** What a worker of [deleteBatch] does when its call settles. *)
Lemma delete_resume_step (comment_id attempt : Z) (b : Batch) :
  let total := Z.of_nat (length ids) in
  let request := board_deleteComment group_id topic_id comment_id in
  match delete_resume group_id topic_id ids cfg (comment_id, attempt) b with
  | (Pending t', b') =>
      t'.1 = comment_id /\ ok b' = ok b /\ processed b' = processed b
      /\ w_requests (b_world b') = w_requests (b_world b) ++ [request]
      /\ w_console (b_world b') = w_console (b_world b)
  | (Fulfilled _, b') =>
      processed b' = processed b + 1
      /\ w_requests (b_world b') = w_requests (b_world b) ++ [request]
      /\ exists lines,
           w_console (b_world b') = w_console (b_world b) ++ lines
           /\ ((ok b' = ok b + 1 /\ failures lines = [])
               \/ (ok b' = ok b /\ failures lines = [comment_id]))
           /\ (processed b + 1 = total ->
               last lines = Some (log_progress (processed b + 1) total (ok b')))
  | (Rejected _, _) => False
  end.
Proof.
  intros total request.
  unfold delete_resume, withRetries_turn, vkGroup_deleteComment, on_env.
  destruct (deleteComment group_id topic_id comment_id (w_env (b_world b)))
    as [[r | e] e1].
  - match goal with |- context [worker_finally ids ?b0] =>
      destruct (worker_finally_lines b0)
        as (Hproc & Hok & Hreq & lines & Hcon & Hfail & Hlast) end.
    simpl in *. split_and!; [done | done |].
    exists lines. split_and!; [done | by left |].
    intros Htotal. by rewrite (Hlast Htotal).
  - destruct (negb (retriable (err_code e)) || _).
    + match goal with |- context [worker_finally ids ?b0] =>
        destruct (worker_finally_lines b0)
          as (Hproc & Hok & Hreq & lines & Hcon & Hfail & Hlast) end.
      simpl in *. split_and!; [done | done |].
      eexists (_ :: lines). split_and!.
      * rewrite Hcon, <- app_assoc. done.
      * right. split; [done |].
        change (comment_id :: failures lines = [comment_id]). by rewrite Hfail.
      * intros Htotal. by rewrite (Hlast Htotal).
    + simpl.
      match goal with |- context [backoff _ _ ?a ?bs ?m ?w1] =>
        destruct (backoff_frame a bs m w1) as [-> ->] end.
      done.
Qed.

Variable w0 : World.

Lemma delete_worker_step (finished : list nat) (curIdx : nat) (t : DeleteTask)
    (b : Batch) :
  batch_accounts group_id topic_id ids w0 finished b ->
  plan_task ids curIdx t -> curIdx ∉ finished -> (curIdx < length ids)%nat ->
  match delete_resume group_id topic_id ids cfg t b with
  | (Pending t', b') =>
      plan_task ids curIdx t' /\ batch_accounts group_id topic_id ids w0 finished b'
  | (Fulfilled r, b') =>
      batch_accounts group_id topic_id ids w0 (finished ++ [curIdx]) b'
  | (Rejected e, b') => False
  end.
Proof.
  intros (reqs & lines & Hreq & Hcon & Hreqs & Hfails & Hproc & Hpos & Hsum & Hlast)
         Htask _ _.
  destruct t as [comment_id attempt]. unfold plan_task in Htask. simpl in Htask.
  assert (Hin : comment_id ∈ ids) by by apply list_elem_of_lookup_2 in Htask.
  pose proof (delete_resume_step comment_id attempt b) as Hstep. cbv zeta in Hstep.
  destruct (delete_resume group_id topic_id ids cfg (comment_id, attempt) b)
    as [[t' | r | e] b']; [| | done].
  - destruct Hstep as (Ht' & Hok' & Hproc' & Hreq' & Hcon').
    split; [unfold plan_task; by rewrite Ht' |].
    exists (reqs ++ [board_deleteComment group_id topic_id comment_id]), lines.
    rewrite Hreq', Hcon', Hproc', Hok', Hreq, Hcon, app_assoc.
    split_and!; try done.
    apply Forall_app. split; [done |]. constructor; [| done]. by exists comment_id.
  - destruct Hstep as (Hproc' & Hreq' & more & Hcon' & Hcount & Hlast').
    exists (reqs ++ [board_deleteComment group_id topic_id comment_id]),
           (lines ++ more).
    rewrite Hreq', Hcon', Hproc', Hreq, Hcon, !app_assoc, failures_app, length_app.
    split_and!; try done.
    + apply Forall_app. split; [done |]. constructor; [| done]. by exists comment_id.
    + apply Forall_app. split; [done |].
      destruct Hcount as [[_ ->] | [_ ->]]; [done | by constructor].
    + simpl. lia.
    + destruct Hcount as [[-> _] | [-> _]]; lia.
    + rewrite length_app. destruct Hcount as [[-> ->] | [-> ->]]; simpl; lia.
    + intros _ Htotal. rewrite Hproc in Hlast'.
      assert (Hmore : last more
                = Some (log_progress (Z.of_nat (length finished) + 1)
                          (Z.of_nat (length ids)) (ok b'))) by (apply Hlast'; lia).
      by rewrite last_app, Hmore, Hproc.
Qed.
End BatchFurther.


(** The books of [deleteBatch], on any remote service. *)
Lemma deleteBatch_books {LC : LowerCase} {TN : ToNumber} {P : Platform}
    (group_id topic_id : Z) (ids : list Z) (cfg : RetryCfg)
    (concurrency : option JsNumber) (schedule : list nat) (w : World) :
  let n := Z.of_nat (length ids) in
  let result := deleteBatch group_id topic_id ids cfg concurrency schedule w in
  exists reqs lines,
    w_requests (snd result) = w_requests w ++ reqs
    /\ w_console (snd result) = w_console w ++ lines
    /\ Forall (deletes_planned group_id topic_id ids) reqs
    /\ Forall (fun comment_id => comment_id ∈ ids) (failures lines)
    /\ match fst result with
       | Raise _ => False
       | OutOfFuel => True
       | Ok deleted =>
           0 <= deleted
           /\ deleted + Z.of_nat (length (failures lines)) = n
           /\ (ids <> [] -> last lines = Some (log_progress n n deleted))
       end.
Proof.
  intros n result. unfold result, deleteBatch.
  set (c := effective_concurrency concurrency).
  pose proof (effective_concurrency_positive concurrency) as Hc. fold c in Hc.
  set (b0 := {| b_world := w; ok := 0; processed := 0 |}).
  assert (Hstart : forall curIdx it, ids !! curIdx = Some it ->
            plan_task ids curIdx (delete_mapper it curIdx)) by done.
  assert (Hj0 : batch_accounts group_id topic_id ids w [] b0).
  { exists [], []. simpl. rewrite !app_nil_r. split_and!; by try constructor. }
  destruct (guarded_pMap delete_mapper (delete_resume group_id topic_id ids cfg)
              ids c Hc (plan_task ids) (batch_accounts group_id topic_id ids w)
              Hstart (delete_worker_step group_id topic_id ids cfg w)
              schedule b0 Hj0)
    as (Hok & Hquiet & (Hbatch & _ & Hnoreject)).
  destruct (pMap delete_mapper (delete_resume group_id topic_id ids cfg) ids c
                 schedule b0) as [p b].
  simpl in Hok, Hquiet, Hbatch, Hnoreject.
  destruct Hbatch
    as (reqs & lines & Hreq & Hcon & Hreqs & Hfails & Hproc & Hpos & Hsum & Hlast).
  exists reqs, lines.
  destruct (p_promise p) as [[rs | e] |] eqn:Hpromise; simpl;
    [| by destruct (Hnoreject e) | done].
  pose proof Hok as (_ & _ & _ & _ & Hres & _ & _ & _ & Hresolved).
  destruct (Hresolved rs Hpromise) as [Hall _].
  assert (Hlen : length (p_finished p) = length ids) by lia.
  rewrite Hlen in Hsum. split_and!; try done.
  intros Hne.
  assert (Hn : processed b = n) by (unfold n; by rewrite Hproc, Hlen).
  rewrite <- Hn at 1. apply Hlast; [| done].
  destruct (p_finished p); [| done]. destruct ids; [done | discriminate].
Qed.

(** X7: on any remote service, whatever the plan, the retry settings,
    the concurrency and the order in which the calls settle,
    [deleteBatch] never throws, and the only requests it sends are
    [board.deleteComment] requests for identifiers of the plan. When it
    returns, the count it returns and the number of failures it has
    logged add up to the length of the plan, every failure it logged is
    for an identifier of the plan, and, for a plan that is not empty, the
    last line it wrote is the progress line [n/n] with the returned
    count. *)
Theorem deleteBatch_accounts_for_every_item {LC : LowerCase} {TN : ToNumber} {P : Platform}
    (group_id topic_id : Z) (ids : list Z) (cfg : RetryCfg)
    (concurrency : option JsNumber) (schedule : list nat) (w : World) :
  let n := Z.of_nat (length ids) in
  let result := deleteBatch group_id topic_id ids cfg concurrency schedule w in
  exists reqs lines,
    w_requests (snd result) = w_requests w ++ reqs
    /\ w_console (snd result) = w_console w ++ lines
    /\ Forall (deletes_planned group_id topic_id ids) reqs
    /\ Forall (fun comment_id => comment_id ∈ ids) (failures lines)
    /\ match fst result with
       | Raise _ => False
       | OutOfFuel => True
       | Ok deleted =>
           0 <= deleted
           /\ deleted + Z.of_nat (length (failures lines)) = n
           /\ (ids <> [] -> last lines = Some (log_progress n n deleted))
       end.
Proof.
  apply deleteBatch_books.
Qed.


(** ** [main] after the plan *)

(** X8: once the plan is built and dry-run is off, [main] never throws,
    whatever the remote service answers to the deletions: every request
    it sends from then on is a [board.deleteComment] for an identifier of
    the plan; with an empty plan it sends nothing and reports that there
    is nothing to delete; otherwise, when it returns, its last line
    reports a count that, with the failures logged, adds up to the
    length of the plan. *)
Theorem main_deletes_only_the_plan {LC : LowerCase} {TN : ToNumber} {P : Platform}
    (fuel : nat) (schedule : list nat) (group_id topic_id : Z) (opts : Opts)
    (w w3 : World) (plan : list Z) :
  o_dryRun opts = false ->
  main_plan fuel group_id topic_id opts w = (Ok (inr plan), w3) ->
  let result := main fuel schedule group_id topic_id opts w in
  exists reqs lines,
    w_requests (snd result) = w_requests w3 ++ reqs
    /\ w_console (snd result) = w_console w3 ++ lines
    /\ Forall (deletes_planned group_id topic_id plan) reqs
    /\ match fst result with
       | Raise _ => False
       | OutOfFuel => plan <> []
       | Ok (exit _) => False
       | Ok finished =>
           match plan with
           | [] => reqs = [] /\ lines = [log_nothing_to_delete]
           | _ =>
               exists deleted,
                 last lines = Some (log_deleted deleted (length plan))
                 /\ 0 <= deleted
                 /\ deleted + Z.of_nat (length (failures lines))
                    = Z.of_nat (length plan)
           end
       end.
Proof.
  intros Hlive Hplan result. unfold result, main. rewrite Hplan, Hlive.
  destruct plan as [|first rest].
  { simpl. exists [], [log_nothing_to_delete]. by rewrite app_nil_r. }
  set (plan := first :: rest). change (length plan =? 0)%nat with false. cbv iota.
  set (cfg := {| maxRetries := Some (o_maxRetries opts);
                 baseBackoffMs := Some (o_baseBackoffMs opts) |}).
  destruct (deleteBatch_books group_id topic_id plan cfg (Some (o_concurrency opts))
              schedule w3)
    as (reqs & lines & Hreq & Hcon & Hreqs & Hfails & Hend).
  destruct (deleteBatch group_id topic_id plan cfg (Some (o_concurrency opts))
              schedule w3) as [[deleted | e |] w4]; simpl in *; [| done |].
  - exists reqs, (lines ++ [log_deleted deleted (length plan)]).
    rewrite Hreq, Hcon, app_assoc. split_and!; try done.
    exists deleted. rewrite last_snoc, failures_app. simpl. rewrite app_nil_r.
    destruct Hend as (? & ? & _). done.
  - exists reqs, lines. done.
Qed.

Lemma main_deletes_only_the_plan_witness :
  let w := sim_world (copies 4) [2] [] in
  let w3 := snd (main_plan 3 1 1 live_opts w) in
  let result := main 3 [0; 0; 0]%nat 1 1 live_opts w in
  main_plan 3 1 1 live_opts w = (Ok (inr [1; 2; 3]), w3)
  /\ fst result = Ok finished
  /\ exists reqs lines,
       w_requests (snd result) = w_requests w3 ++ reqs
       /\ w_console (snd result) = w_console w3 ++ lines
       /\ Forall (deletes_planned 1 1 [1; 2; 3]) reqs
       /\ last lines = Some (log_deleted 2 3).
Proof.
  intros w w3 result.
  assert (Hplan : main_plan 3 1 1 live_opts w = (Ok (inr [1; 2; 3]), w3))
    by (vm_compute; reflexivity).
  assert (Hend : fst result = Ok finished) by (vm_compute; reflexivity).
  split_and!; [exact Hplan | exact Hend |].
  destruct (main_deletes_only_the_plan 3 [0; 0; 0]%nat 1 1 live_opts w w3 [1; 2; 3]
              eq_refl Hplan)
    as (reqs & lines & Hreq & Hcon & Hreqs & Hlast).
  exists reqs, lines. split_and!; [exact Hreq | exact Hcon | exact Hreqs |].
  assert (Hlines : w_console (snd result)
                   = w_console w3 ++ [log_delete_failed 2 code_absent
                        (js "VK API failed: code=15, msg=Access denied, attempt=0");
                      log_progress 3 3 2; log_deleted 2 3])
    by (vm_compute; reflexivity).
  fold result in Hcon. rewrite Hcon in Hlines.
  apply app_inv_head in Hlines. by rewrite Hlines.
Defined.


(** ** The token check and the ends of the process *)

Section ProcessEnds.
Context {LC : LowerCase} {TN : ToNumber} {P : Platform}.

(** A call under [withRetries] repeats one request, at least once and at
    most [maxRetries + 1] times, writes nothing, and settles. *)
Lemma loop_requests {A} (f : Env -> Outcome A * Env) (c : ApiCall)
    (fuel : nat) (q : Q) (base attempt : Z) (w : World) :
  0 <= attempt -> (Z.to_nat (Qceiling q - attempt) < fuel)%nat ->
  let r := withRetries_loop w_random_floor w_sleep (on_env f (Some c))
                            fuel (Num q) base attempt w in
  fst r <> OutOfFuel
  /\ w_console (snd r) = w_console w
  /\ exists n, (1 <= n <= Z.to_nat (Qceiling q - attempt) + 1)%nat
               /\ w_requests (snd r) = w_requests w ++ replicate n c.
Proof.
  cbv zeta. revert attempt w.
  induction fuel as [|fuel IH]; intros attempt w Hpos Hfuel; [lia |].
  cbn [withRetries_loop]. unfold withRetries_turn.
  rewrite ge_number_ceiling.
  assert (Hcall : exists o e1,
            on_env f (Some c) w
            = (o, {| w_env := e1; w_requests := w_requests w ++ [c];
                     w_console := w_console w;
                     w_listeners := w_listeners w;
                     w_shuttingDown := w_shuttingDown w;
                     w_exit_timers := w_exit_timers w |})).
  { unfold on_env. destruct (f (w_env w)); simpl; eauto. }
  destruct Hcall as ([a | e] & e1 & ->); simpl.
  - split_and!; [done | done |]. exists 1%nat. split; [lia | done].
  - destruct (negb (retriable (err_code e))); simpl.
    { split_and!; [done | done |]. exists 1%nat. split; [lia | done]. }
    destruct (Z.leb_spec (Qceiling q) attempt) as [Hlast | Hmore]; simpl.
    { split_and!; [done | done |]. exists 1%nat. split; [lia | done]. }
    match goal with |- context [backoff _ _ ?a ?bs ?m ?w1] =>
      destruct (backoff_frame a bs m w1) as [Hreq Hcon];
      destruct (IH (attempt + 1) (backoff w_random_floor w_sleep a bs m w1)
                  ltac:(lia) ltac:(lia)) as (Hfuel' & Hcon' & n & Hn & Hreq')
    end.
    split_and!; [done | by rewrite Hcon', Hcon |].
    exists (S n). split; [lia |].
    rewrite Hreq', Hreq. simpl. by rewrite <- app_assoc.
Qed.

Lemma sanity_call (who : Credential) (w : World) :
  let r := call (vk_getServerTime who) w in
  fst r <> OutOfFuel
  /\ w_console (snd r) = w_console w
  /\ exists n, (1 <= n <= 7)%nat
               /\ w_requests (snd r)
                  = w_requests w ++ replicate n (utils_getServerTime who).
Proof.
  unfold call, withRetries, vk_getServerTime.
  apply (loop_requests (getServerTime who) (utils_getServerTime who) 7
           (inject_Z 6) 300 0 w); [lia | vm_compute; lia].
Qed.

Lemma sanityCheck_requests (w : World) :
  let r := sanityCheck w in
  exists nu ng : nat,
    (1 <= nu <= 7)%nat /\ (ng <= 7)%nat
    /\ w_requests (snd r)
       = w_requests w ++ replicate nu (utils_getServerTime USER_TOKEN)
                      ++ replicate ng (utils_getServerTime GROUP_TOKEN)
    /\ match fst r with
       | Ok None => (1 <= ng)%nat /\ w_console (snd r) = w_console w
       | Ok (Some code) =>
           code = 2
           /\ exists msg, w_console (snd r) = w_console w ++ [log_token_check_failed msg]
       | Raise _ => False
       | OutOfFuel => False
       end.
Proof.
  unfold sanityCheck.
  destruct (sanity_call USER_TOKEN w) as (Hfuel1 & Hcon1 & nu & Hnu & Hreq1).
  destruct (call (vk_getServerTime USER_TOKEN) w) as [[t1 | e |] w1];
    simpl in *; [| | done].
  - destruct (sanity_call GROUP_TOKEN w1) as (Hfuel2 & Hcon2 & ng & Hng & Hreq2).
    destruct (call (vk_getServerTime GROUP_TOKEN) w1) as [[t2 | e |] w2];
      simpl in *; [| | done]; exists nu, ng;
      (split; [lia |]; split; [lia |];
       split; [by rewrite Hreq2, Hreq1, app_assoc |]).
    + split; [lia | congruence].
    + split; [done |]. eexists. by rewrite Hcon2, Hcon1.
  - exists nu, 0%nat. split; [lia |]. split; [lia |].
    split; [by rewrite app_nil_r |].
    split; [done |]. eexists. by rewrite Hcon1.
Qed.

(** X9: [sanityCheck] never throws. It asks the server time with the
    user token, at least once and at most seven times, and only then with
    the group token, at most seven times, and sends nothing else. Either
    both calls succeed and it writes nothing, or it writes one line and
    ends the process with code 2. *)
Theorem sanityCheck_catches_every_failure (w : World) :
  let r := sanityCheck w in
  exists nu ng : nat,
    (1 <= nu <= 7)%nat /\ (ng <= 7)%nat
    /\ w_requests (snd r)
       = w_requests w ++ replicate nu (utils_getServerTime USER_TOKEN)
                      ++ replicate ng (utils_getServerTime GROUP_TOKEN)
    /\ match fst r with
       | Ok None => (1 <= ng)%nat /\ w_console (snd r) = w_console w
       | Ok (Some code) =>
           code = 2
           /\ exists msg, w_console (snd r) = w_console w ++ [log_token_check_failed msg]
       | Raise _ => False
       | OutOfFuel => False
       end.
Proof. apply sanityCheck_requests. Qed.

Lemma main_raises_from_plan (fuel : nat) (schedule : list nat)
    (group_id topic_id : Z) (opts : Opts) (w : World) (e : JsError) :
  fst (main fuel schedule group_id topic_id opts w) = Raise e ->
  main fuel schedule group_id topic_id opts w
  = (Raise e, snd (main_plan fuel group_id topic_id opts w))
  /\ fst (main_plan fuel group_id topic_id opts w) = Raise e.
Proof.
  unfold main.
  destruct (main_plan fuel group_id topic_id opts w) as [[[code | plan] | e' |] w3]
    eqn:Hplan; simpl; try done.
  - destruct (o_dryRun opts); [done |].
    destruct (length plan =? 0)%nat; [done |].
    set (cfg := {| maxRetries := Some (o_maxRetries opts);
                   baseBackoffMs := Some (o_baseBackoffMs opts) |}).
    destruct (deleteBatch_books group_id topic_id plan cfg (Some (o_concurrency opts))
                schedule w3) as (reqs & lines & _ & _ & _ & _ & Hend).
    by destruct (deleteBatch group_id topic_id plan cfg (Some (o_concurrency opts))
                   schedule w3) as [[deleted | e' |] w4].
  - by intros [= ->].
Qed.

(** *** The handlers of the signals *)

Lemma signals_kept_refl (w : World) : signals_kept w w.
Proof. done. Qed.

Lemma signals_kept_trans (w1 w2 w3 : World) :
  signals_kept w1 w2 -> signals_kept w2 w3 -> signals_kept w1 w3.
Proof. intros (? & ? & ?) (? & ? & ?). split_and!; congruence. Qed.

Lemma signals_kept_console (line : LogLine) (w : World) :
  signals_kept w (console line w).
Proof. done. Qed.

Lemma signals_kept_on_env {B} (f : Env -> B * Env) (c : option ApiCall) (w : World) :
  signals_kept w (on_env f c w).2.
Proof. unfold on_env. by destruct (f (w_env w)). Qed.

Lemma signals_kept_backoff (attempt base max : Z) (w : World) :
  signals_kept w (backoff w_random_floor w_sleep attempt base max w).
Proof.
  unfold backoff, w_random_floor, w_sleep, on_env. simpl.
  by destruct (env_random_floor _ (w_env w)).
Qed.

Lemma signals_kept_turn {A} (fn : World -> Outcome A * World)
    (maxR : JsNumber) (base attempt : Z) (w : World) :
  (forall w0, signals_kept w0 (fn w0).2) ->
  signals_kept w (withRetries_turn w_random_floor w_sleep fn maxR base attempt w).2.
Proof.
  intros Hfn. unfold withRetries_turn. specialize (Hfn w).
  destruct (fn w) as [[a | e] w1]; simpl in *; [done |].
  destruct (negb (retriable (err_code e)) || ge_number attempt maxR); simpl; [done |].
  eapply signals_kept_trans; [exact Hfn | apply signals_kept_backoff].
Qed.

Lemma signals_kept_loop {A} (fn : World -> Outcome A * World)
    (fuel : nat) (maxR : JsNumber) (base attempt : Z) (w : World) :
  (forall w0, signals_kept w0 (fn w0).2) ->
  signals_kept w (withRetries_loop w_random_floor w_sleep fn fuel maxR base attempt w).2.
Proof.
  intros Hfn. revert attempt w.
  induction fuel as [|fuel IH]; intros attempt w; [done |].
  cbn [withRetries_loop].
  pose proof (signals_kept_turn fn maxR base attempt w Hfn) as Hturn.
  destruct (withRetries_turn w_random_floor w_sleep fn maxR base attempt w)
    as [[[a | e] | attempt'] w1]; simpl in *; [done | done |].
  eapply signals_kept_trans; [exact Hturn | apply IH].
Qed.

Lemma signals_kept_call {A} (f : Env -> Outcome A * Env) (c : ApiCall) (w : World) :
  signals_kept w (call (on_env f (Some c)) w).2.
Proof. apply signals_kept_loop. intros w0. apply signals_kept_on_env. Qed.

Lemma signals_kept_for_await {B} (fuel : nat) (body : B -> Entry -> B)
    (g t offset : Z) (acc : B) (w : World) :
  signals_kept w (for_await_iterAsc fuel body g t offset acc w).2.
Proof.
  revert offset acc w. induction fuel as [|fuel IH]; intros offset acc w; simpl;
    [done |].
  pose proof (signals_kept_call (getComments g t page offset asc)
                (board_getComments g t page offset asc) w) as Hcall.
  fold (vkUser_getComments g t page offset asc) in Hcall.
  destruct (call (vkUser_getComments g t page offset asc) w)
    as [[reply | e |] w1]; simpl in *; try done.
  destruct (length (default [] (reply_items reply)) =? 0)%nat; simpl; [done |].
  destruct (Z.of_nat (length (default [] (reply_items reply))) <? page); simpl; [done |].
  eapply signals_kept_trans; [exact Hcall | apply IH].
Qed.

Lemma signals_kept_sanityCheck (w : World) : signals_kept w (sanityCheck w).2.
Proof.
  unfold sanityCheck.
  pose proof (signals_kept_call (getServerTime USER_TOKEN)
                (utils_getServerTime USER_TOKEN) w) as H1.
  fold (vk_getServerTime USER_TOKEN) in H1.
  destruct (call (vk_getServerTime USER_TOKEN) w) as [[t1 | e |] w1];
    simpl in *; [| by eapply signals_kept_trans | done].
  pose proof (signals_kept_call (getServerTime GROUP_TOKEN)
                (utils_getServerTime GROUP_TOKEN) w1) as H2.
  fold (vk_getServerTime GROUP_TOKEN) in H2.
  destruct (call (vk_getServerTime GROUP_TOKEN) w1) as [[t2 | e |] w2];
    simpl in *; by eapply signals_kept_trans.
Qed.

(** The first part of [main] registers the handler of the two signals,
    and nothing else touches the handlers. *)
Lemma signals_kept_main_plan (fuel : nat) (g t : Z) (opts : Opts) (w : World) :
  signals_kept (setupSignals w) (main_plan fuel g t opts w).2.
Proof.
  unfold main_plan. pose proof (signals_kept_sanityCheck (setupSignals w)) as H1.
  destruct (sanityCheck (setupSignals w)) as [[[code |] | e |] w1]; simpl in *;
    try done.
  assert (Hscan : forall offset w2,
            signals_kept (setupSignals w) w2 ->
            signals_kept (setupSignals w)
              (match planDeletionsAsc fuel g t offset (o_ignoreAtts opts) w2 with
               | (Ok plan, w3) => (Ok (inr plan), w3)
               | (Raise e, w3) => (Raise e, w3)
               | (OutOfFuel, w3) => (@OutOfFuel (Z + list Z), w3)
               end).2).
  { intros offset w2 H2. unfold planDeletionsAsc.
    pose proof (signals_kept_for_await fuel (plan_step (o_ignoreAtts opts)) g t
                  offset (None, []) w2) as H3.
    destruct (for_await_iterAsc _ _ _ _ _ _ w2) as [[st | e |] w3]; simpl in *;
      by eapply signals_kept_trans. }
  destruct (o_full opts); simpl.
  - apply Hscan. eapply signals_kept_trans; [exact H1 | apply signals_kept_console].
  - unfold getTotal.
    pose proof (signals_kept_call (getComments g t 1 0 desc)
                  (board_getComments g t 1 0 desc) w1) as H2.
    fold (vkUser_getComments g t 1 0 desc) in H2.
    destruct (call (vkUser_getComments g t 1 0 desc) w1) as [[reply | e |] w2];
      simpl in *; [| by eapply signals_kept_trans..].
    apply Hscan.
    eapply signals_kept_trans; [exact H1 |].
    eapply signals_kept_trans; [exact H2 | apply signals_kept_console].
Qed.

Lemma signals_kept_report (planPreview : Z) (plan : list Z) (w : World) :
  signals_kept w (dry_run_report planPreview plan w).
Proof.
  unfold dry_run_report.
  destruct (length plan =? 0)%nat; [done |].
  by destruct (length (slice plan _ None) =? 0)%nat.
Qed.

Lemma signals_kept_worker (w0 : World) (group_id topic_id : Z) (ids : list Z)
    (cfg : RetryCfg) (finished : list nat) (curIdx : nat) (t : DeleteTask)
    (b : Batch) :
  signals_kept w0 (b_world b) -> True -> curIdx ∉ finished ->
  (curIdx < length ids)%nat ->
  match delete_resume group_id topic_id ids cfg t b with
  | (Pending t', b') => True /\ signals_kept w0 (b_world b')
  | (Fulfilled r, b') => signals_kept w0 (b_world b')
  | (Rejected e, b') => False
  end.
Proof.
  intros Hkept _ _ _. destruct t as [comment_id attempt]. unfold delete_resume.
  pose proof (signals_kept_turn (vkGroup_deleteComment group_id topic_id comment_id)
                (default (Int (d_maxRetries DEFAULTS)) (maxRetries cfg))
                (default (d_baseBackoffMs DEFAULTS) (baseBackoffMs cfg))
                attempt (b_world b)
                (fun w1 => signals_kept_on_env _ _ w1)) as Hturn.
  destruct (withRetries_turn w_random_floor w_sleep
              (vkGroup_deleteComment group_id topic_id comment_id) _ _ attempt
              (b_world b)) as [[[r | e] | attempt'] w1]; simpl in Hturn.
  - eapply signals_kept_trans; [exact Hkept |].
    eapply signals_kept_trans; [exact Hturn |].
    unfold worker_finally. simpl. by destruct (_ || _).
  - eapply signals_kept_trans; [exact Hkept |].
    eapply signals_kept_trans; [exact Hturn |].
    unfold worker_finally. simpl. by destruct (_ || _).
  - split; [done |]. by eapply signals_kept_trans.
Qed.

Lemma signals_kept_deleteBatch (group_id topic_id : Z) (ids : list Z)
    (cfg : RetryCfg) (concurrency : option JsNumber) (schedule : list nat)
    (w : World) :
  signals_kept w (deleteBatch group_id topic_id ids cfg concurrency schedule w).2.
Proof.
  unfold deleteBatch.
  destruct (guarded_pMap delete_mapper (delete_resume group_id topic_id ids cfg)
              ids (effective_concurrency concurrency)
              (effective_concurrency_positive concurrency)
              (fun _ _ => True) (fun _ b => signals_kept w (b_world b))
              (fun _ _ _ => I)
              (signals_kept_worker w group_id topic_id ids cfg)
              schedule {| b_world := w; ok := 0; processed := 0 |}
              (signals_kept_refl w))
    as (_ & _ & (Hkept & _ & _)).
  destruct (pMap delete_mapper (delete_resume group_id topic_id ids cfg) ids _
                 schedule _) as [p b].
  simpl in Hkept. by destruct (p_promise p) as [[rs | e] |].
Qed.

Lemma signals_kept_program (fuel : nat) (schedule : list nat)
    (group_id topic_id : Z) (opts : Opts) (w : World) :
  signals_kept (setupSignals w)
               (program fuel schedule group_id topic_id opts w).2.
Proof.
  unfold program, main.
  pose proof (signals_kept_main_plan fuel group_id topic_id opts w) as Hplan.
  destruct (main_plan fuel group_id topic_id opts w) as [[[code | plan] | e |] w3];
    simpl in *; try done.
  destruct (o_dryRun opts); simpl.
  { eapply signals_kept_trans; [exact Hplan | apply signals_kept_report]. }
  destruct (length plan =? 0)%nat; simpl.
  { by eapply signals_kept_trans. }
  match goal with |- context [deleteBatch ?g ?t ?i ?c ?n ?sc ?w0] =>
    pose proof (signals_kept_deleteBatch g t i c n sc w0) as Hbatch;
    destruct (deleteBatch g t i c n sc w0) as [[deleted | e |] w4]
  end; simpl in *; by eapply signals_kept_trans.
Qed.

(** X10: in a run in which no signal is delivered, [parseArgs] having
    produced the target and the options: [main] begins by giving
    [SIGINT] and [SIGTERM] a handler, and nothing else adds a handler,
    calls it or starts the timer of its exit. The process then ends
    through [process.exit] only before a single deletion request is
    sent. The code is 2 when the token check failed, and then nothing but
    the server time was asked; 0 at the end of a dry run; 1 when a read
    of the topic failed for good, with the error on the console. A run
    that gets to delete, or finds nothing to delete, returns without an
    exit code. *)
Theorem program_exits_before_deleting
    (fuel : nat) (schedule : list nat) (group_id topic_id : Z) (opts : Opts)
    (w : World) :
  let result := program fuel schedule group_id topic_id opts w in
  (w_listeners result.2 = w_listeners w ++ [SIGINT; SIGTERM]
   /\ w_shuttingDown result.2 = w_shuttingDown w
   /\ w_exit_timers result.2 = w_exit_timers w)
  /\ match fst result with
     | Some (exit code) =>
         reads_only w (snd result)
         /\ ((code = 2 /\ fst (sanityCheck (setupSignals w)) = Ok (Some 2)
              /\ snd result = snd (sanityCheck (setupSignals w)))
             \/ (code = 0 /\ o_dryRun opts = true)
             \/ (code = 1
                 /\ exists e,
                      fst (main_plan fuel group_id topic_id opts w) = Raise e
                      /\ snd result
                         = console (log_uncaught e)
                                   (snd (main_plan fuel group_id topic_id opts w))))
     | Some finished => o_dryRun opts = false
     | None => True
     end.
Proof.
  intros result. split; [apply signals_kept_program |].
  unfold result, program.
  destruct (main fuel schedule group_id topic_id opts w) as [[ending | e |] w1]
    eqn:Hmain; simpl; [| | done].
  - unfold main in Hmain.
    pose proof (reads_only_main_plan fuel group_id topic_id opts w) as Hreads.
    destruct (main_plan fuel group_id topic_id opts w) as [[[code | plan] | e' |] w3]
      eqn:Hplan; simpl in *; try done.
    + injection Hmain as <- <-. split; [done |]. left.
      unfold main_plan in Hplan.
      pose proof (sanityCheck_requests (setupSignals w))
        as (nu & ng & _ & _ & _ & Hcheck).
      destruct (sanityCheck (setupSignals w)) as [[[c |] | e' |] w0]; simpl in *;
        try done.
      * destruct Hcheck as [-> _]. by injection Hplan as <- <-.
      * exfalso. destruct (o_full opts); simpl in Hplan.
        -- by destruct (planDeletionsAsc _ _ _ _ _ _) as [[? | ? |] ?].
        -- destruct (getTotal _ _ _) as [[? | ? |] ?]; simpl in Hplan; try done.
           by destruct (planDeletionsAsc _ _ _ _ _ _) as [[? | ? |] ?].
    + destruct (o_dryRun opts) eqn:Hdry.
      * injection Hmain as <- <-. split; [| by right; left].
        eapply reads_only_trans; [exact Hreads |].
        apply reads_only_same, dry_run_report_frame.
      * destruct (length plan =? 0)%nat; [by injection Hmain as <- <- |].
        by destruct (deleteBatch _ _ _ _ _ _ _) as [[? | ? |] ?];
          [injection Hmain as <- <- | |].
  - destruct (main_raises_from_plan fuel schedule group_id topic_id opts w e)
      as [Hsame Hplan]; [by rewrite Hmain |].
    rewrite Hmain in Hsame. injection Hsame as ->.
    split.
    + eapply reads_only_trans; [apply reads_only_main_plan | apply reads_only_console].
    + right; right. split; [done |]. by exists e.
Qed.
End ProcessEnds.

(** A first signal is answered by one line and the timer of exit 130; a
    second is ignored. *)
Example handler_runs_once :
  let w1 := handler SIGINT (setupSignals closed_world) in
  w_console w1 = [log_signal SIGINT]
  /\ w_exit_timers w1 = [(1500, 130)]
  /\ w_shuttingDown w1 = true
  /\ handler SIGTERM w1 = w1.
Proof. vm_compute. done. Qed.

Example program_exit_1 :
  program 3 [] 1 1 live_opts closed_world
  = (Some (exit 1),
     {| w_env := tt : @Env closed_platform;
        w_requests := [utils_getServerTime USER_TOKEN; utils_getServerTime GROUP_TOKEN;
                       board_getComments 1 1 100 0 asc];
        w_console := [log_full_scan;
                      log_uncaught (new_Error
                        (js "VK API failed: code=15, msg=Access denied, attempt=0"))];
        w_listeners := [SIGINT; SIGTERM]; w_shuttingDown := false;
        w_exit_timers := [] |}).
Proof. vm_compute. reflexivity. Qed.


(** ** The paginator on a service that serves a thread *)

Section Paginator.
Context {LC : LowerCase} {TN : ToNumber} {P : Platform}.
Variables (group_id topic_id : Z) (thread : list Entry).
Variable holds : Env -> Prop.
Hypothesis service : serves group_id topic_id thread holds.

Lemma call_returned {A} (f : Env -> Outcome A * Env) (c : ApiCall)
    (w : World) (a : A) (env' : Env) :
  f (w_env w) = (Returned a, env') ->
  call (on_env f (Some c)) w
  = (Ok a, {| w_env := env'; w_requests := w_requests w ++ [c];
              w_console := w_console w;
                     w_listeners := w_listeners w;
                     w_shuttingDown := w_shuttingDown w;
                     w_exit_timers := w_exit_timers w |}).
Proof.
  intros Hf. unfold call, withRetries. cbn [withRetries_loop].
  unfold withRetries_turn, on_env. by rewrite Hf.
Qed.

Lemma page_requests_shift (offset : Z) (pages : nat) :
  board_getComments group_id topic_id page offset asc
    :: page_requests group_id topic_id (offset + page) pages
  = page_requests group_id topic_id offset (S pages).
Proof.
  unfold page_requests. cbn [seq List.map]. f_equal.
  - f_equal. lia.
  - rewrite <- seq_shift, List.map_map. apply List.map_ext. intros k. f_equal. lia.
Qed.

Lemma page_requests_one (offset : Z) :
  page_requests group_id topic_id offset 1
  = [board_getComments group_id topic_id page offset asc].
Proof. unfold page_requests. simpl. do 2 f_equal. lia. Qed.

(** A [for await] loop over the served thread folds its body over the
    thread from the offset on. *)
Lemma for_await_served {B} (body : B -> Entry -> B) (fuel : nat) :
  forall (offset : Z) (acc : B) (w : World),
    holds (w_env w) -> 0 <= offset ->
    let rest := drop (Z.to_nat offset) thread in
    (length rest / 100 < fuel)%nat ->
    exists w',
      for_await_iterAsc fuel body group_id topic_id offset acc w
      = (Ok (fold_left body rest acc), w')
      /\ holds (w_env w')
      /\ w_console w' = w_console w
      /\ w_requests w'
         = w_requests w
             ++ page_requests group_id topic_id offset (length rest / 100 + 1).
Proof.
  induction fuel as [|fuel IH]; intros offset acc w Hholds Hoffset rest Hfuel; [lia |].
  cbn [for_await_iterAsc]. unfold vkUser_getComments.
  destruct (service page offset asc (w_env w) Hholds)
    as (env' & items & Hreply & Hholds' & Hitems).
  rewrite (call_returned _ _ w _ env' Hreply).
  rewrite (Hitems eq_refl Hoffset ltac:(done)). cbn [reply_items].
  change (Z.to_nat page) with 100%nat. fold rest.
  change (default [] (Some (take 100 rest))) with (take 100 rest).
  set (w1 := {| w_env := env'; w_requests := _; w_console := w_console w;
                     w_listeners := w_listeners w;
                     w_shuttingDown := w_shuttingDown w;
                     w_exit_timers := w_exit_timers w |}).
  assert (Hlen : length (take 100 rest) = Nat.min 100 (length rest))
    by apply length_take.
  destruct (Nat.eqb_spec (length (take 100 rest)) 0) as [Hnone | Hsome].
  { assert (Hrest : rest = []).
    { destruct rest; [done |]. simpl in Hnone. lia. }
    rewrite Hrest. simpl. exists w1. split_and!; try done.
    by rewrite page_requests_one. }
  destruct (Z.ltb_spec (Z.of_nat (length (take 100 rest))) page) as [Hshort | Hfull].
  { assert (Hless : (length rest < 100)%nat) by (unfold page in Hshort; lia).
    rewrite take_ge by lia. rewrite Nat.div_small by done.
    exists w1. split_and!; try done. simpl. by rewrite page_requests_one. }
  assert (Hmore : (100 <= length rest)%nat) by (unfold page in Hfull; lia).
  rewrite Hlen, Nat.min_l by done. change (Z.of_nat 100) with page.
  assert (Hrest' : drop (Z.to_nat (offset + page)) thread = drop 100 rest).
  { unfold rest. rewrite drop_drop. f_equal. unfold page. lia. }
  assert (Hdiv : (length rest / 100 = S (length (drop 100 rest) / 100))%nat).
  { rewrite length_drop.
    replace (length rest) with ((length rest - 100) + 1 * 100)%nat at 1 by lia.
    rewrite Nat.div_add by done. lia. }
  destruct (IH (offset + page) (fold_left body (take 100 rest) acc) w1 Hholds'
              ltac:(unfold page; lia))
    as (w' & Hloop & Hholds'' & Hcon & Hreq).
  { rewrite Hrest'. lia. }
  rewrite Hrest' in Hloop, Hreq.
  exists w'. rewrite Hloop, <- fold_left_app, take_drop.
  split_and!; try done.
  rewrite Hreq, Hdiv. unfold w1. simpl.
  rewrite <- app_assoc. f_equal. simpl.
  by rewrite (page_requests_shift offset).
Qed.

Lemma iterAsc_served (fuel : nat) (startOffset : Z) (w : World) :
  holds (w_env w) -> 0 <= startOffset ->
  let rest := drop (Z.to_nat startOffset) thread in
  (length rest / 100 < fuel)%nat ->
  exists w',
    iterAsc fuel group_id topic_id startOffset w = (Ok rest, w')
    /\ holds (w_env w')
    /\ w_console w' = w_console w
    /\ w_requests w'
       = w_requests w
           ++ page_requests group_id topic_id startOffset (length rest / 100 + 1).
Proof.
  intros Hholds Hoffset rest Hfuel. unfold iterAsc.
  destruct (for_await_served (fun acc cur => acc ++ [cur]) fuel startOffset [] w
              Hholds Hoffset Hfuel) as (w' & Hloop & Hrest).
  exists w'. rewrite Hloop, fold_left_snoc. done.
Qed.

(** X11: on a service that answers every ascending read with the page
    asked for of one thread, [iterAsc] yields the thread from
    [startOffset] on, each comment once and in order, whatever the length
    of the thread: it sends one request per hundred comments and one
    more, at the offsets [startOffset], [startOffset + 100], and so on,
    and writes nothing. *)
Theorem iterAsc_yields_thread_from_offset (fuel : nat) (startOffset : Z) (w : World) :
  holds (w_env w) -> 0 <= startOffset ->
  let rest := drop (Z.to_nat startOffset) thread in
  (length rest / 100 < fuel)%nat ->
  exists w',
    iterAsc fuel group_id topic_id startOffset w = (Ok rest, w')
    /\ holds (w_env w')
    /\ w_console w' = w_console w
    /\ w_requests w'
       = w_requests w
           ++ page_requests group_id topic_id startOffset (length rest / 100 + 1).
Proof. apply iterAsc_served. Qed.
End Paginator.


Lemma sim_platform_serves (denied flood : list Z) (group_id topic_id : Z)
    (thread : list Entry) :
  @serves (sim_platform denied flood) group_id topic_id thread (fun env => env = thread)
  /\ @tokens_pass (sim_platform denied flood) (fun env => env = thread).
Proof.
  split.
  - intros count offset sort env ->.
    exists thread,
      (Some (take (Z.to_nat count)
               (drop (Z.to_nat offset)
                  match sort with asc => thread | desc => rev thread end))).
    split_and!; [| done | by intros ->].
    simpl. unfold sim_getComments. by destruct sort; rewrite ?length_rev.
  - intros who env ->. by exists 0, thread.
Qed.

Lemma iterAsc_yields_thread_from_offset_witness :
  let thread := copies 250 in
  let w := sim_world thread [] [] in
  exists w',
    iterAsc 3 1 1 30 w = (Ok (drop 30 thread), w')
    /\ w_requests w'
       = [board_getComments 1 1 100 30 asc; board_getComments 1 1 100 130 asc;
          board_getComments 1 1 100 230 asc].
Proof.
  intros thread w.
  destruct (iterAsc_yields_thread_from_offset (P := sim_platform [] []) 1 1 thread
              (fun env => env = thread)
              (proj1 (sim_platform_serves [] [] 1 1 thread)) 3 30 w eq_refl
              ltac:(lia) ltac:(vm_compute; lia))
    as (w' & Hyield & _ & _ & Hreq).
  exists w'. split; [exact Hyield | exact Hreq].
Defined.

(** ** The scan that [main] plans from *)

Section TailScan.
Context {LC : LowerCase} {TN : ToNumber} {P : Platform}.
Variables (group_id topic_id : Z) (thread : list Entry).
Variable holds : Env -> Prop.
Hypothesis service : serves group_id topic_id thread holds.
Hypothesis tokens : tokens_pass holds.

Lemma sanityCheck_passes (w : World) :
  holds (w_env w) ->
  exists w',
    sanityCheck w = (Ok None, w') /\ holds (w_env w') /\ w_console w' = w_console w.
Proof.
  intros Hholds. unfold sanityCheck, vk_getServerTime.
  destruct (tokens USER_TOKEN (w_env w) Hholds) as (r1 & env1 & Hcall1 & Hholds1).
  rewrite (call_returned _ _ w r1 env1 Hcall1).
  set (w1 := {| w_env := env1; w_requests := _; w_console := w_console w;
                     w_listeners := w_listeners w;
                     w_shuttingDown := w_shuttingDown w;
                     w_exit_timers := w_exit_timers w |}).
  destruct (tokens GROUP_TOKEN (w_env w1) Hholds1) as (r2 & env2 & Hcall2 & Hholds2).
  rewrite (call_returned _ _ w1 r2 env2 Hcall2).
  eexists. split_and!; [reflexivity | done | done].
Qed.

Lemma getTotal_served (w : World) :
  holds (w_env w) ->
  exists w',
    getTotal group_id topic_id w = (Ok (Z.of_nat (length thread)), w')
    /\ holds (w_env w') /\ w_console w' = w_console w.
Proof.
  intros Hholds. unfold getTotal, vkUser_getComments.
  destruct (service 1 0 desc (w_env w) Hholds) as (env' & items & Hreply & Hholds' & _).
  rewrite (call_returned _ _ w _ env' Hreply).
  eexists. split_and!; [reflexivity | done | done].
Qed.

(** The plan [main] builds on a service that serves a thread. *)
Lemma main_plan_served (fuel : nat) (opts : Opts) (w : World) :
  holds (w_env w) ->
  let n := Z.of_nat (length thread) in
  let startOffset := if o_full opts then 0 else Z.max 0 (n - (o_tail opts + 1)) in
  let scanned := drop (Z.to_nat startOffset) thread in
  (length scanned / 100 < fuel)%nat ->
  exists w',
    main_plan fuel group_id topic_id opts w
    = (Ok (inr (plan_entries (o_ignoreAtts opts) scanned)), w')
    /\ holds (w_env w')
    /\ w_console w'
       = w_console w ++ [if o_full opts then log_full_scan
                         else log_total n startOffset].
Proof.
  intros Hholds n startOffset scanned Hfuel. unfold main_plan.
  destruct (sanityCheck_passes (setupSignals w) Hholds) as (w1 & -> & Hholds1 & Hcon1).
  change (w_console (setupSignals w)) with (w_console w) in Hcon1.
  assert (Hscan : forall w2 : World,
            holds (w_env w2) ->
            exists w',
              planDeletionsAsc fuel group_id topic_id startOffset
                               (o_ignoreAtts opts) w2
              = (Ok (plan_entries (o_ignoreAtts opts) scanned), w')
              /\ holds (w_env w') /\ w_console w' = w_console w2).
  { intros w2 Hholds2. rewrite planDeletionsAsc_plan.
    destruct (iterAsc_served group_id topic_id thread holds service fuel
                startOffset w2 Hholds2) as (w' & -> & Hholds' & Hcon' & _).
    - unfold startOffset. destruct (o_full opts); lia.
    - exact Hfuel.
    - by exists w'. }
  unfold startOffset in *. destruct (o_full opts); simpl.
  - destruct (Hscan (console log_full_scan w1) Hholds1) as (w' & -> & Hholds' & Hcon').
    exists w'. split_and!; [done | done |]. rewrite Hcon'. simpl. by rewrite Hcon1.
  - destruct (getTotal_served w1 Hholds1) as (w2 & -> & Hholds2 & Hcon2).
    fold n.
    destruct (Hscan (console (log_total n (Z.max 0 (n - (o_tail opts + 1)))) w2)
                Hholds2) as (w' & -> & Hholds' & Hcon').
    exists w'. split_and!; [done | done |]. rewrite Hcon'. simpl.
    by rewrite Hcon2, Hcon1.
Qed.

(** X12: on a service that serves one thread of [n] comments and accepts
    both tokens, the plan [main] builds is the plan of the whole thread
    under [--full], and otherwise the plan of the thread from offset
    [max(0, n - (tail + 1))] on: the last [tail + 1] comments, so that a
    duplicate whose original is the comment just before the tail is still
    found. One line is written before the scan. *)
Theorem main_plans_the_tail (fuel : nat) (opts : Opts) (w : World) :
  holds (w_env w) ->
  let n := Z.of_nat (length thread) in
  let startOffset := if o_full opts then 0 else Z.max 0 (n - (o_tail opts + 1)) in
  let scanned := drop (Z.to_nat startOffset) thread in
  (length scanned / 100 < fuel)%nat ->
  exists w',
    main_plan fuel group_id topic_id opts w
    = (Ok (inr (plan_entries (o_ignoreAtts opts) scanned)), w')
    /\ holds (w_env w')
    /\ w_console w'
       = w_console w ++ [if o_full opts then log_full_scan
                         else log_total n startOffset].
Proof. apply main_plan_served. Qed.
End TailScan.

Lemma main_plans_the_tail_witness :
  let thread := copies 3 ++ [comment 3 11 "bye"; comment 4 11 "bye"] in
  let w := sim_world thread [] [] in
  exists w',
    main_plan 1 1 1 (tail_opts 3) w = (Ok (inr [2; 4]), w')
    /\ w_console w' = [log_total 5 1].
Proof.
  intros thread w.
  destruct (main_plans_the_tail (P := sim_platform [] []) 1 1 thread
              (fun env => env = thread)
              (proj1 (sim_platform_serves [] [] 1 1 thread))
              (proj2 (sim_platform_serves [] [] 1 1 thread))
              1 (tail_opts 3) w eq_refl ltac:(vm_compute; lia))
    as (w' & Hplan & _ & Hcon).
  exists w'. split; [exact Hplan | exact Hcon].
Defined.


(** ** Dry run: the report *)

(** C9: with dry-run set, the run sends no deletion request, whatever
    happens; once the plan is built, it ends the process with code 0
    after reporting the size of the plan and, for a plan that is not
    empty, its first [planPreview] and its last [planPreview]
    identifiers (all of them when the plan is shorter); and the plan is
    built, and so reported, on every service that serves a thread and
    accepts both tokens: the report then follows the line of the scan,
    and is that of the plan of the comments scanned. *)
Theorem dry_run_reports_without_deleting {LC : LowerCase} {TN : ToNumber}
    {P : Platform}
    (fuel : nat) (schedule : list nat) (group_id topic_id : Z) (opts : Opts)
    (w : World) :
  o_dryRun opts = true ->
  0 < o_planPreview opts ->
  let n := Z.to_nat (o_planPreview opts) in
  let report (plan : list Z) :=
    log_dry_run (length plan)
      :: match plan with
         | [] => []
         | _ => [log_first (Nat.min n (length plan)) (take n plan);
                 log_last (Nat.min n (length plan)) (drop (length plan - n) plan)]
         end
      ++ [log_done_dry_run] in
  reads_only w (snd (main fuel schedule group_id topic_id opts w))
  /\ (forall (plan : list Z) (w3 : World),
        main_plan fuel group_id topic_id opts w = (Ok (inr plan), w3) ->
        exists w',
          main fuel schedule group_id topic_id opts w = (Ok (exit 0), w')
          /\ w_env w' = w_env w3
          /\ w_requests w' = w_requests w3
          /\ w_console w' = w_console w3 ++ report plan)
  /\ (forall (thread : list Entry) (holds : Env -> Prop),
        serves group_id topic_id thread holds -> tokens_pass holds ->
        holds (w_env w) ->
        let total := Z.of_nat (length thread) in
        let startOffset :=
          if o_full opts then 0 else Z.max 0 (total - (o_tail opts + 1)) in
        let scanned := drop (Z.to_nat startOffset) thread in
        (length scanned / 100 < fuel)%nat ->
        exists w',
          main fuel schedule group_id topic_id opts w = (Ok (exit 0), w')
          /\ holds (w_env w')
          /\ w_console w'
             = w_console w
                 ++ (if o_full opts then log_full_scan
                     else log_total total startOffset)
                 :: report (plan_entries (o_ignoreAtts opts) scanned)).
Proof.
  intros Hdry Hpreview n report.
  assert (Hreport : forall (plan : list Z) (w3 : World),
            main_plan fuel group_id topic_id opts w = (Ok (inr plan), w3) ->
            exists w',
              main fuel schedule group_id topic_id opts w = (Ok (exit 0), w')
              /\ w_env w' = w_env w3
              /\ w_requests w' = w_requests w3
              /\ w_console w' = w_console w3 ++ report plan).
  { intros plan w3 Hplan. unfold main. rewrite Hplan, Hdry.
    eexists. split; [reflexivity |].
    destruct (dry_run_report_frame (o_planPreview opts) plan w3) as [Henv Hreq].
    repeat split; [done | done |].
    by apply dry_run_report_console. }
  split_and!; [| exact Hreport |].
  - unfold main.
    pose proof (reads_only_main_plan fuel group_id topic_id opts w) as Hplan.
    destruct (main_plan fuel group_id topic_id opts w) as [[[code | plan] | e |] w3];
      simpl in *; try done.
    rewrite Hdry. simpl.
    eapply reads_only_trans; [exact Hplan |].
    apply reads_only_same, dry_run_report_frame.
  - intros thread holds Hserves Htokens Hholds total startOffset scanned Hfuel.
    destruct (main_plan_served group_id topic_id thread holds Hserves Htokens
                fuel opts w Hholds Hfuel) as (w3 & Hplan & Hholds3 & Hcon3).
    destruct (Hreport _ w3 Hplan) as (w' & Hmain & Henv & _ & Hcon).
    exists w'. split_and!; [done | by rewrite Henv |].
    rewrite Hcon, Hcon3, <- app_assoc. done.
Qed.

(** Scenario C: a thread of 51 copies of one comment gives a plan of 50
    identifiers; the dry run shows 20 and 20 of them and deletes nothing. *)
Example scenario_C :
  let '(r, w') := main 3 [] 1 1 dry_opts (sim_world (copies 51) [] []) in
  r = Ok (exit 0)
  /\ w_env w' = copies 51
  /\ w_requests w'
     = [utils_getServerTime USER_TOKEN; utils_getServerTime GROUP_TOKEN;
        board_getComments 1 1 100 0 asc]
  /\ w_console w'
     = [log_full_scan; log_dry_run 50;
        log_first 20 (List.map Z.of_nat (seq 1 20));
        log_last 20 (List.map Z.of_nat (seq 31 20));
        log_done_dry_run].
Proof. vm_compute. repeat split. Qed.

Lemma dry_run_reports_without_deleting_witness :
  let w := sim_world (copies 51) [] [] in
  exists w',
    main 3 [] 1 1 dry_opts w = (Ok (exit 0), w')
    /\ reads_only w w'
    /\ w_console w'
       = [log_full_scan; log_dry_run 50;
          log_first 20 (List.map Z.of_nat (seq 1 20));
          log_last 20 (List.map Z.of_nat (seq 31 20));
          log_done_dry_run].
Proof.
  intros w.
  assert (Hdry : o_dryRun dry_opts = true) by reflexivity.
  assert (Hpreview : 0 < o_planPreview dry_opts) by (simpl; lia).
  assert (Hfuel : (length (drop (Z.to_nat 0) (copies 51)) / 100 < 3)%nat)
    by (vm_compute; lia).
  destruct (dry_run_reports_without_deleting (P := sim_platform [] [])
              3 [] 1 1 dry_opts w Hdry Hpreview) as (Hreads & _ & Hserved).
  destruct (Hserved (copies 51) (fun env => env = copies 51)
              (proj1 (sim_platform_serves [] [] 1 1 (copies 51)))
              (proj2 (sim_platform_serves [] [] 1 1 (copies 51)))
              eq_refl Hfuel) as (w' & Hmain & _ & Hcon).
  exists w'. split_and!; [exact Hmain | | exact Hcon].
  rewrite Hmain in Hreads. exact Hreads.
Defined.

(** ** The bounded executor: results by item, not by completion *)

Section OrderedResults.
Context {W Item T R : Type}.
Variable mapper : Item -> nat -> T.
Variable resume : T -> W -> Poll T R * W.
Variable items : list Item.
Variable concurrency : Q.
Hypothesis concurrency_positive : (1 <= concurrency)%Q.
Variable Q : nat -> T -> Prop.
Variable Res : nat -> R -> Prop.
Hypothesis mapper_task :
  forall curIdx it, items !! curIdx = Some it -> Q curIdx (mapper it curIdx).
Hypothesis worker_result :
  forall curIdx t w,
    Q curIdx t ->
    match resume t w with
    | (Pending t', _) => Q curIdx t'
    | (Fulfilled r, _) => Res curIdx r
    | (Rejected _, _) => True
    end.

Local Abbreviation tasks_ok p := (Forall (fun task => Q task.1 task.2) (p_flight p)).

Lemma ordered_next (p : @Pool T R) :
  tasks_ok p -> results_settled Res p ->
  tasks_ok (next mapper items concurrency p)
  /\ results_settled Res (next mapper items concurrency p).
Proof.
  intros Hq Hres. unfold next.
  destruct (p_resolved p =? length items)%nat.
  - unfold resolve. destruct (p_promise p) eqn:Hpromise; [done |].
    split; [done |]. destruct Hres as [[e He] | Hres]; [congruence |]. by right.
  - split; [by apply (launch_tasks mapper items concurrency Q mapper_task) |].
    unfold results_settled.
    by destruct (launch_keeps mapper items concurrency (length items) p)
      as (_ & -> & -> & ->).
Qed.

Lemma ordered_settle (k : nat) (p : @Pool T R) (w : W) :
  pool_ok items concurrency p -> tasks_ok p -> results_settled Res p ->
  tasks_ok (fst (settle mapper resume items concurrency k p w))
  /\ results_settled Res (fst (settle mapper resume items concurrency k p w)).
Proof.
  intros Hok Hq Hres. unfold settle.
  destruct (p_flight p !! k) as [[curIdx t] |] eqn:Hk; [| done].
  destruct (in_flight_facts items concurrency p k curIdx t Hok Hk)
    as (Hfresh & Hidx & _ & Hless & _).
  assert (Hqt : Q curIdx t) by apply (Forall_lookup_1 _ _ _ _ Hq Hk).
  pose proof (worker_result curIdx t w Hqt) as Hstep.
  destruct Hok as (_ & _ & _ & _ & _ & _ & Hlen & _ & Hresolved).
  destruct (resume t w) as [[t' | r | e] w']; simpl.
  - split; [by apply Forall_insert | done].
  - unfold finally. apply ordered_next.
    + unfold finish, store, with_flight. pool_simpl. apply (Forall_delete _ _ _ Hq).
    + destruct Hres as [Hrejected | Hfilled]; [by left | right].
      unfold finish, store, with_flight. pool_simpl.
      intros j Hj. apply elem_of_app in Hj as [Hj | Hj].
      * destruct (Hfilled j Hj) as (r' & Hslot & Hr'). exists r'.
        rewrite list_lookup_insert_ne; [done |]. by intros <-.
      * apply list_elem_of_singleton in Hj as ->. exists r.
        split; [| done]. apply list_lookup_insert_eq. lia.
  - unfold finally. apply ordered_next.
    + destruct (reject_fields e (with_flight (delete k (p_flight p)) p))
        as (_ & _ & _ & Hfl & _).
      unfold finish. pool_simpl. rewrite Hfl. simpl. apply (Forall_delete _ _ _ Hq).
    + left.
      destruct (reject_fields e (with_flight (delete k (p_flight p)) p))
        as (_ & _ & _ & _ & Hprom).
      unfold finish. pool_simpl. rewrite Hprom. simpl.
      destruct (p_promise p) as [[rs | e'] |] eqn:Hpromise; simpl; eauto.
      destruct (Hresolved rs eq_refl) as [Hall _]. lia.
Qed.

Lemma ordered_run (schedule : list nat) (p : @Pool T R) (w : W) :
  pool_ok items concurrency p -> pool_quiet items concurrency p ->
  tasks_ok p -> results_settled Res p ->
  results_settled Res (fst (run mapper resume items concurrency schedule p w)).
Proof.
  revert p w. induction schedule as [|k rest IH]; intros p w Hok Hquiet Hq Hres;
    [done |].
  simpl.
  destruct (pool_settle mapper resume items concurrency
              k p w Hok Hquiet) as [Hok1 Hquiet1].
  destruct (ordered_settle k p w Hok Hq Hres) as [Hq1 Hres1].
  destruct (settle mapper resume items concurrency k p w) as [p1 w1].
  by apply IH.
Qed.

(** X13: when [pMap] fulfils its promise, the array it hands over has
    one slot for every item, and the slot at each index holds the result
    of the worker of the item at that index, whatever the order in which
    the workers completed and however often they awaited. *)
Theorem pMap_results_in_item_order (schedule : list nat) (w : W)
    (rs : list (option R)) :
  p_promise (fst (pMap mapper resume items concurrency schedule w))
  = Some (Resolved rs) ->
  length rs = length items
  /\ forall j, (j < length items)%nat ->
       exists r, rs !! j = Some (Some r) /\ Res j r.
Proof.
  intros Hpromise.
  destruct (pool_pMap mapper resume items concurrency concurrency_positive
              schedule w) as [Hok Hquiet].
  destruct (pool_pMap mapper resume items concurrency concurrency_positive [] w)
    as [Hok0 Hquiet0].
  unfold pMap in Hok0, Hquiet0. simpl in Hok0, Hquiet0.
  assert (Hinit : tasks_ok (@pool_init Item T R items)
                  /\ results_settled Res (@pool_init Item T R items)).
  { split; [constructor |]. right. intros j Hj. by apply elem_of_nil in Hj. }
  destruct (ordered_next _ (proj1 Hinit) (proj2 Hinit)) as [Hq0 Hres0].
  pose proof (ordered_run schedule _ w Hok0 Hquiet0 Hq0 Hres0) as Hres.
  fold (pMap mapper resume items concurrency schedule w) in Hres.
  set (p := fst (pMap mapper resume items concurrency schedule w)) in *.
  pose proof (pool_ok_counts items concurrency p Hok) as Hcount.
  pose proof Hok as (_ & _ & Hi & _ & _ & _ & Hlen & _ & Hresolved).
  destruct (Hresolved rs Hpromise) as [Hall ->].
  split; [done |].
  assert (Hempty : p_flight p = []).
  { destruct (p_flight p); [done |]. simpl in Hcount. lia. }
  destruct (pool_idle items concurrency concurrency_positive p Hok Hquiet Hempty)
    as (_ & Hperm & _).
  destruct Hres as [[e He] | Hfilled]; [congruence |].
  intros j Hj. apply Hfilled. rewrite Hperm. apply elem_of_seq. lia.
Qed.
End OrderedResults.

Lemma pMap_results_in_item_order_witness :
  let p := fst (pMap doubling_mapper doubling_resume [1; 2; 3] 2 [1; 0; 0]%nat []) in
  p_promise p = Some (Resolved [Some 2; Some 4; Some 6])
  /\ forall j, (j < 3)%nat ->
       exists r, [Some 2; Some 4; Some 6] !! j = Some (Some r)
                 /\ exists x, [1; 2; 3] !! j = Some x /\ r = 2 * x.
Proof.
  intros p.
  assert (Hpromise : p_promise p = Some (Resolved [Some 2; Some 4; Some 6]))
    by reflexivity.
  split; [exact Hpromise |].
  set (Q := fun (j : nat) (t : Z) => [1; 2; 3] !! j = Some t).
  set (Res := fun (j : nat) (r : Z) => exists x, [1; 2; 3] !! j = Some x /\ r = 2 * x).
  assert (Hc : (1 <= 2)%Q) by (by compute).
  assert (Hmapper : forall curIdx it,
            [1; 2; 3] !! curIdx = Some it -> Q curIdx (doubling_mapper it curIdx))
    by (intros curIdx it Hit; exact Hit).
  assert (Hworker : forall curIdx t (w0 : list Z),
            Q curIdx t ->
            match doubling_resume t w0 with
            | (Pending t', _) => Q curIdx t'
            | (Fulfilled r, _) => Res curIdx r
            | (Rejected _, _) => True
            end).
  { intros curIdx t w0 Ht. unfold doubling_resume.
    destruct (t <? 0); [exact I |]. exists t. split; [exact Ht | reflexivity]. }
  exact (proj2 (pMap_results_in_item_order doubling_mapper doubling_resume
                  [1; 2; 3] 2 Hc Q Res Hmapper Hworker [1; 0; 0]%nat [] _ Hpromise)).
Defined.


(** ** The bounded executor: workers that settle within a bound *)

Section BoundedWorkers.
Context {W Item T R : Type}.
Variable mapper : Item -> nat -> T.
Variable resume : T -> W -> Poll T R * W.
Variable items : list Item.
Variable concurrency : Q.
Hypothesis concurrency_positive : (1 <= concurrency)%Q.
Variable cost : T -> nat.
Variable M : nat.
Hypothesis mapper_cost : forall it curIdx, (cost (mapper it curIdx) <= M)%nat.
Hypothesis worker_cost :
  forall t w t' w', resume t w = (Pending t', w') -> (cost t' < cost t)%nat.

Local Abbreviation todo := (backlog cost M (length items)).

Lemma backlog_launch (fuel : nat) (p : @Pool T R) :
  (todo (launch mapper items concurrency fuel p) <= todo p)%nat.
Proof.
  revert p. induction fuel as [|fuel IH]; intros p; simpl; [done |].
  destruct (launch_guard items concurrency p) eqn:Hguard; [| done].
  destruct (items !! p_i p) as [it |]; [| done].
  etrans; [apply IH |].
  apply andb_true_iff in Hguard as [_ Hleft]. apply Nat.ltb_lt in Hleft.
  unfold backlog, launch_one. pool_simpl. rewrite sum_list_with_app. simpl.
  pose proof (mapper_cost it (p_i p)) as Hcost.
  replace (length items - p_i p)%nat with (S (length items - S (p_i p))) by lia.
  rewrite Nat.mul_succ_l. lia.
Qed.

Lemma backlog_next (p : @Pool T R) :
  (todo (next mapper items concurrency p) <= todo p)%nat.
Proof.
  unfold next. destruct (p_resolved p =? length items)%nat; [| apply backlog_launch].
  unfold resolve. by destruct (p_promise p).
Qed.

Lemma backlog_settle (p : @Pool T R) (w : W) :
  p_flight p <> [] ->
  (todo (fst (settle mapper resume items concurrency 0 p w)) < todo p)%nat.
Proof.
  intros Hbusy. unfold settle.
  destruct (p_flight p) as [|[curIdx t] fl] eqn:Hflight; [done |]. simpl.
  destruct (resume t w) as [[t' | r | e] w'] eqn:Hresume; simpl.
  - pose proof (worker_cost t w t' w' Hresume).
    unfold backlog, with_flight. pool_simpl. rewrite Hflight. simpl. lia.
  - unfold finally. eapply Nat.le_lt_trans; [apply backlog_next |].
    unfold backlog, finish, store, with_flight. pool_simpl. rewrite Hflight. simpl. lia.
  - unfold finally. eapply Nat.le_lt_trans; [apply backlog_next |].
    unfold backlog, finish. pool_simpl.
    unfold reject, with_flight.
    destruct (p_promise p); pool_simpl; rewrite Hflight; simpl; lia.
Qed.

Lemma backlog_run (m : nat) (p : @Pool T R) (w : W) :
  p_flight p = [] \/ (todo p <= m)%nat ->
  p_flight (fst (run mapper resume items concurrency (replicate m 0%nat) p w)) = [].
Proof.
  revert p w. induction m as [|m IH]; intros p w Hleft; simpl.
  - destruct Hleft as [Hempty | Hzero]; [done |].
    unfold backlog in Hzero. destruct (p_flight p); [done |]. simpl in Hzero.
    by apply Nat.nle_succ_0 in Hzero.
  - destruct (decide (p_flight p = [])) as [Hempty | Hbusy].
    + unfold settle. rewrite Hempty. simpl. apply IH. by left.
    + pose proof (backlog_settle p w Hbusy) as Hless.
      destruct (settle mapper resume items concurrency 0 p w) as [p1 w1].
      apply IH. right. simpl in Hless. destruct Hleft as [Hempty | Hle]; [done | lia].
Qed.

Lemma bounded_pMap (w : W) :
  let p := fst (pMap mapper resume items concurrency
                     (replicate (length items * S M) 0%nat) w) in
  p_flight p = []
  /\ p_finished p ≡ₚ seq 0 (length items)
  /\ p_promise p <> None.
Proof.
  intros p.
  destruct (pool_pMap mapper resume items concurrency concurrency_positive
              (replicate (length items * S M) 0%nat) w) as [Hok Hquiet].
  fold p in Hok, Hquiet.
  assert (Hempty : p_flight p = []).
  { unfold p, pMap. apply backlog_run. right.
    etrans; [apply backlog_next |]. unfold backlog, pool_init. simpl. lia. }
  destruct (pool_idle items concurrency concurrency_positive p Hok Hquiet Hempty)
    as (_ & Hperm & Hall).
  split_and!; [done | done |]. destruct Hquiet as [_ Hsettled]. by apply Hsettled.
Qed.

End BoundedWorkers.


Section BoundedWatched.
Context {W Item T R : Type}.
Variable mapper : Item -> nat -> T.
Variable resume : T -> W -> Poll T R * W.
Variable items : list Item.
Variable concurrency : Q.
Hypothesis concurrency_positive : (1 <= concurrency)%Q.
Variable cost : T -> nat.
Variable M : nat.
Hypothesis mapper_cost : forall it curIdx, (cost (mapper it curIdx) <= M)%nat.
Hypothesis worker_cost :
  forall t w t' w', resume t w = (Pending t', w') -> (cost t' < cost t)%nat.

Lemma watched_cost (t : nat * Item * T) (lw : list (WorkerEvent Item) * W)
    (t' : nat * Item * T) (lw' : list (WorkerEvent Item) * W) :
  watched_resume resume t lw = (Pending t', lw') -> (cost t'.2 < cost t.2)%nat.
Proof.
  destruct t as [[i it] t0], lw as [log w]. unfold watched_resume.
  destruct (resume t0 w) as [[t1 | r | e] w1] eqn:Hresume; [| done..].
  intros [= <- _]. simpl. by apply (worker_cost t0 w t1 w1).
Qed.

(** X14: when every worker awaits at most [M] times before it settles,
    [n * (M + 1)] settlements, each of the oldest worker in flight,
    complete a run over [n] items: no worker is left in flight, the
    promise is settled, and the worker of every item, called on that
    item, has ended exactly once; the run is the run without the
    watch. *)
Theorem pMap_completes_within_bound (w : W) :
  let schedule := replicate (length items * S M) 0%nat in
  let watched :=
    pMap (watched_mapper mapper) (watched_resume resume) items concurrency
         schedule ([], w) in
  p_flight watched.1 = []
  /\ p_promise watched.1 <> None
  /\ (ended watched.2.1).*1 ≡ₚ seq 0 (length items)
  /\ Forall (fun call => items !! call.1 = Some call.2) (ended watched.2.1)
  /\ pMap mapper resume items concurrency schedule w
     = (unwatched watched.1, watched.2.2).
Proof.
  intros schedule watched.
  destruct (bounded_pMap (watched_mapper mapper) (watched_resume resume) items
              concurrency concurrency_positive (fun t => cost t.2) M
              (fun it curIdx => mapper_cost it curIdx) watched_cost ([], w))
    as (Hempty & Hperm & Hsettled).
  destruct (watched_pMap mapper resume items concurrency schedule w)
    as (_ & Hended & Hcalls).
  fold watched in Hended, Hcalls.
  split_and!; try done.
  - by rewrite Hended.
  - apply (unwatched_pMap mapper resume items concurrency schedule w).
Qed.
End BoundedWatched.

Section BatchReturns.
Context {LC : LowerCase} {TN : ToNumber} {P : Platform}.
Variables (group_id topic_id : Z) (ids : list Z) (cfg : RetryCfg).

Lemma delete_mapper_cost (q : Q) (comment_id : Z) (curIdx : nat) :
  (retries_left q (delete_mapper comment_id curIdx) <= Z.to_nat (Qceiling q))%nat.
Proof. unfold retries_left, delete_mapper. simpl. lia. Qed.

(** Under a finite [maxRetries], a worker that awaits again has used up
    one retry. *)
Lemma delete_resume_cost (q : Q) (t : DeleteTask) (b : Batch) (t' : DeleteTask)
    (b' : Batch) :
  default (Int (d_maxRetries DEFAULTS)) (maxRetries cfg) = Num q ->
  delete_resume group_id topic_id ids cfg t b = (Pending t', b') ->
  (retries_left q t' < retries_left q t)%nat.
Proof.
  intros Hq. destruct t as [comment_id attempt]. unfold delete_resume.
  rewrite Hq.
  destruct (withRetries_turn w_random_floor w_sleep
              (vkGroup_deleteComment group_id topic_id comment_id)
              (Num q) _ attempt (b_world b)) as [[[r | e] | attempt'] w1] eqn:Hturn;
    [done | done |].
  apply withRetries_turn_again in Hturn as [Hlt ->].
  rewrite ge_number_ceiling in Hlt. apply Z.leb_gt in Hlt.
  intros [= <- _]. unfold retries_left. simpl. lia.
Qed.

(** Under a [maxRetries] that is [NaN], the worker of an identifier
    whose deletion fails with a retriable code whenever it is asked
    awaits again whenever it is resumed. *)
Lemma delete_worker_forever (bad : Z) (finished : list nat) (curIdx : nat)
    (t : DeleteTask) (b : Batch) :
  default (Int (d_maxRetries DEFAULTS)) (maxRetries cfg) = NaN ->
  (forall env, exists e env',
      deleteComment group_id topic_id bad env = (Thrown e, env')
      /\ retriable (err_code e) = true) ->
  (forall j, ids !! j = Some bad -> j ∉ finished) ->
  plan_task ids curIdx t -> curIdx ∉ finished -> (curIdx < length ids)%nat ->
  match delete_resume group_id topic_id ids cfg t b with
  | (Pending t', b') =>
      plan_task ids curIdx t' /\ (forall j, ids !! j = Some bad -> j ∉ finished)
  | (Fulfilled r, b') => forall j, ids !! j = Some bad -> j ∉ finished ++ [curIdx]
  | (Rejected e, b') => False
  end.
Proof.
  intros Hnan Hbad Hout Htask _ _. destruct t as [comment_id attempt].
  unfold plan_task in *. simpl in Htask.
  assert (Hother : comment_id <> bad ->
            forall j, ids !! j = Some bad -> j ∉ finished ++ [curIdx]).
  { intros Hne j Hj. rewrite not_elem_of_app, list_elem_of_singleton.
    split; [by apply Hout |]. intros ->. congruence. }
  unfold delete_resume. rewrite Hnan.
  destruct (withRetries_turn w_random_floor w_sleep
              (vkGroup_deleteComment group_id topic_id comment_id)
              NaN _ attempt (b_world b)) as [[[r | e] | attempt'] w1] eqn:Hturn.
  - apply Hother. intros ->. revert Hturn.
    unfold withRetries_turn, vkGroup_deleteComment, on_env.
    destruct (Hbad (w_env (b_world b))) as (e & env' & -> & Hcode).
    simpl. by rewrite Hcode.
  - apply Hother. intros ->. revert Hturn.
    unfold withRetries_turn, vkGroup_deleteComment, on_env.
    destruct (Hbad (w_env (b_world b))) as (e0 & env' & -> & Hcode).
    simpl. by rewrite Hcode.
  - done.
Qed.

(** X15: under a [maxRetries] that is a number, [deleteBatch] returns
    on any remote service: after at most [n * (ceil(maxRetries) + 1)]
    settlements of its calls ([n * (maxRetries + 1)] for a whole
    [maxRetries] that is not negative), taken from the oldest worker in
    flight, every worker has ended and the count is returned, whatever
    the service answered. Under a [maxRetries] that is [NaN] it does not
    return when the deletion of one identifier of the plan fails with a
    retriable code whenever it is asked: the [await] stays pending
    however many calls settle. *)
Theorem deleteBatch_returns (concurrency : option JsNumber) (w : World) :
  let maxR := default (Int (d_maxRetries DEFAULTS)) (maxRetries cfg) in
  (forall q : Q,
     maxR = Num q ->
     exists deleted w',
       deleteBatch group_id topic_id ids cfg concurrency
                   (replicate (length ids * S (Z.to_nat (Qceiling q))) 0%nat) w
       = (Ok deleted, w'))
  /\ (forall N : Z,
        maxR = Int N -> 0 <= N ->
        exists deleted w',
          deleteBatch group_id topic_id ids cfg concurrency
                      (replicate (length ids * Z.to_nat (N + 1)) 0%nat) w
          = (Ok deleted, w'))
  /\ (maxR = NaN ->
      forall bad : Z,
        bad ∈ ids ->
        (forall env, exists e env',
            deleteComment group_id topic_id bad env = (Thrown e, env')
            /\ retriable (err_code e) = true) ->
        forall schedule : list nat,
          (deleteBatch group_id topic_id ids cfg concurrency schedule w).1
          = OutOfFuel).
Proof.
  intros maxR.
  set (c := effective_concurrency concurrency).
  pose proof (effective_concurrency_positive concurrency) as Hc. fold c in Hc.
  set (b0 := {| b_world := w; ok := 0; processed := 0 |}).
  assert (Hstart : forall curIdx it, ids !! curIdx = Some it ->
            plan_task ids curIdx (delete_mapper it curIdx)) by done.
  assert (Hfinite : forall q : Q,
            maxR = Num q ->
            exists deleted w',
              deleteBatch group_id topic_id ids cfg concurrency
                (replicate (length ids * S (Z.to_nat (Qceiling q))) 0%nat) w
              = (Ok deleted, w')).
  { intros q Hq. unfold deleteBatch. fold c b0.
    set (schedule := replicate (length ids * S (Z.to_nat (Qceiling q))) 0%nat).
    destruct (bounded_pMap delete_mapper (delete_resume group_id topic_id ids cfg)
                ids c Hc (retries_left q) (Z.to_nat (Qceiling q))
                (delete_mapper_cost q)
                (fun t b t' b' => delete_resume_cost q t b t' b' Hq) b0)
      as (_ & _ & Hsettled).
    fold schedule in Hsettled.
    assert (Hj0 : batch_accounts group_id topic_id ids w [] b0).
    { exists [], []. simpl. rewrite !app_nil_r. split_and!; by try constructor. }
    destruct (guarded_pMap delete_mapper (delete_resume group_id topic_id ids cfg)
                ids c Hc (plan_task ids) (batch_accounts group_id topic_id ids w)
                Hstart (delete_worker_step group_id topic_id ids cfg w)
                schedule b0 Hj0)
      as (_ & _ & (_ & _ & Hnoreject)).
    destruct (pMap delete_mapper (delete_resume group_id topic_id ids cfg) ids c
                   schedule b0) as [p b].
    simpl in Hsettled, Hnoreject.
    destruct (p_promise p) as [[rs | e] |];
      [by eauto | by destruct (Hnoreject e) | done]. }
  split_and!; [exact Hfinite | |].
  - intros N HN Hpos. destruct (Hfinite (inject_Z N) HN) as (deleted & w' & Hret).
    rewrite Qceiling_Z in Hret. exists deleted, w'.
    by replace (Z.to_nat (N + 1)) with (S (Z.to_nat N)) by lia.
  - intros Hnan bad Hin Hbad schedule. unfold deleteBatch. fold c b0.
    destruct (guarded_pMap delete_mapper (delete_resume group_id topic_id ids cfg)
                ids c Hc (plan_task ids)
                (fun finished (_ : Batch) =>
                   forall j, ids !! j = Some bad -> j ∉ finished)
                Hstart
                (fun finished curIdx t b =>
                   delete_worker_forever bad finished curIdx t b Hnan Hbad)
                schedule b0)
      as (Hok & Hquiet & (Hout & _ & Hnoreject)).
    { intros j _. apply not_elem_of_nil. }
    destruct (pMap delete_mapper (delete_resume group_id topic_id ids cfg) ids c
                   schedule b0) as [p b].
    simpl in Hok, Hquiet, Hout, Hnoreject.
    destruct (p_promise p) as [[rs | e] |] eqn:Hpromise;
      [| by destruct (Hnoreject e) | done].
    exfalso.
    pose proof (pool_ok_counts ids c p Hok) as Hcount.
    pose proof Hok as (_ & _ & Hi & _ & _ & _ & _ & _ & Hresolved).
    destruct (Hresolved rs Hpromise) as [Hall _].
    assert (Hempty : p_flight p = []).
    { destruct (p_flight p); [done |]. simpl in Hcount. lia. }
    destruct (pool_idle ids c Hc p Hok Hquiet Hempty) as (_ & Hperm & _).
    apply list_elem_of_lookup in Hin as [j Hj].
    apply (Hout j Hj). rewrite Hperm. apply elem_of_seq.
    apply lookup_lt_Some in Hj. lia.
Qed.
End BatchReturns.

Lemma pMap_completes_within_bound_witness :
  let cfg := {| maxRetries := Some (Int 2); baseBackoffMs := Some 300 |} in
  let w := sim_world (copies 4) [] [2] in
  let watched :=
    pMap (watched_mapper delete_mapper)
         (watched_resume (delete_resume 1 1 [1; 2; 3] cfg)) [1; 2; 3] 2
         (replicate (3 * 3) 0%nat)
         ([], {| b_world := w; ok := 0; processed := 0 |}) in
  watched.2.1
  = [Ends 0 1 true; Awaits 1 2; Awaits 1 2; Ends 1 2 true; Ends 2 3 true]
  /\ p_flight watched.1 = []
  /\ p_promise watched.1 <> None
  /\ (ended watched.2.1).*1 ≡ₚ seq 0 3.
Proof.
  intros cfg w watched.
  assert (Hc : (1 <= 2)%Q) by (by compute).
  destruct (pMap_completes_within_bound delete_mapper
              (delete_resume 1 1 [1; 2; 3] cfg) [1; 2; 3] 2 Hc (retries_left 2) 2
              (delete_mapper_cost 2)
              (fun t b t' b' => delete_resume_cost 1 1 [1; 2; 3] cfg 2 t b t' b' eq_refl)
              {| b_world := w; ok := 0; processed := 0 |})
    as (Hempty & Hsettled & Hended & _).
  split_and!; [reflexivity | exact Hempty | exact Hsettled | exact Hended].
Defined.

Example flooded_deletion_gives_up :
  let cfg := {| maxRetries := Some (Int 2); baseBackoffMs := Some 300 |} in
  let w := sim_world (copies 4) [] [2] in
  let '(r, w') := deleteBatch 1 1 [1; 2; 3] cfg (Some (Int 2)) (replicate 9 0%nat) w in
  r = Ok 2
  /\ w_requests w'
     = List.map (board_deleteComment 1 1) [1; 2; 2; 2; 3]
  /\ failures (w_console w') = [2].
Proof. vm_compute. done. Qed.

Lemma deleteBatch_returns_witness :
  let w := sim_world (copies 4) [] [2] in
  let finite := {| maxRetries := Some (Num (5 # 2)); baseBackoffMs := Some 300 |} in
  let never := {| maxRetries := Some NaN; baseBackoffMs := Some 300 |} in
  (deleteBatch 1 1 [1; 2; 3] finite (Some (Int 2)) (replicate (3 * 4) 0%nat) w).1
  = Ok 2
  /\ (exists deleted w',
        deleteBatch 1 1 [1; 2; 3] finite (Some (Int 2)) (replicate (3 * 4) 0%nat) w
        = (Ok deleted, w'))
  /\ (deleteBatch 1 1 [1; 2; 3] never (Some (Int 2)) (replicate 40 0%nat) w).1
     = OutOfFuel.
Proof.
  intros w finite never. split_and!; [reflexivity | |].
  - exact (proj1 (deleteBatch_returns (P := sim_platform [] [2]) 1 1 [1; 2; 3] finite
                    (Some (Int 2)) w) (5 # 2) eq_refl).
  - apply (proj2 (proj2 (deleteBatch_returns (P := sim_platform [] [2]) 1 1 [1; 2; 3]
                           never (Some (Int 2)) w)) eq_refl 2).
    + apply (bool_decide_unpack _). vm_compute. exact I.
    + intros env. exists (api_error 6 "Too many requests per second"), env.
      split; reflexivity.
Defined.


Section BatchRequests.
Context {LC : LowerCase} {TN : ToNumber} {P : Platform}.
Variables (group_id topic_id : Z) (ids : list Z) (cfg : RetryCfg).

Lemma delete_worker_requests (finished : list nat) (curIdx : nat) (t : DeleteTask)
    (b : Batch) :
  batch_requested group_id topic_id ids finished b ->
  plan_task ids curIdx t -> curIdx ∉ finished -> (curIdx < length ids)%nat ->
  match delete_resume group_id topic_id ids cfg t b with
  | (Pending t', b') =>
      plan_task ids curIdx t' /\ batch_requested group_id topic_id ids finished b'
  | (Fulfilled r, b') =>
      batch_requested group_id topic_id ids (finished ++ [curIdx]) b'
  | (Rejected e, b') => False
  end.
Proof.
  intros Hdone Htask _ _. destruct t as [comment_id attempt].
  unfold plan_task in Htask. simpl in Htask.
  pose proof (delete_resume_step group_id topic_id ids cfg comment_id attempt b)
    as Hstep. cbv zeta in Hstep.
  destruct (delete_resume group_id topic_id ids cfg (comment_id, attempt) b)
    as [[t' | r | e] b']; [| | done].
  - destruct Hstep as (Ht' & _ & _ & Hreq & _).
    split; [unfold plan_task; by rewrite Ht' |].
    intros j Hj. destruct (Hdone j Hj) as (c & Hc & Hin). exists c.
    split; [done |]. rewrite Hreq. apply elem_of_app. by left.
  - destruct Hstep as (_ & Hreq & _).
    intros j Hj. rewrite Hreq. apply elem_of_app in Hj as [Hj | Hj].
    + destruct (Hdone j Hj) as (c & Hc & Hin). exists c.
      split; [done |]. apply elem_of_app. by left.
    + apply list_elem_of_singleton in Hj as ->. exists comment_id.
      split; [done |]. apply elem_of_app. right. apply list_elem_of_here.
Qed.

(** X16: when [deleteBatch] returns, it has requested the deletion of
    every identifier of the plan at least once, whatever the remote
    service answered and in whatever order the calls settled. *)
Theorem deleteBatch_requests_every_identifier
    (concurrency : option JsNumber) (schedule : list nat) (w : World) (deleted : Z) :
  fst (deleteBatch group_id topic_id ids cfg concurrency schedule w) = Ok deleted ->
  forall comment_id,
    comment_id ∈ ids ->
    board_deleteComment group_id topic_id comment_id
      ∈ w_requests (snd (deleteBatch group_id topic_id ids cfg concurrency schedule w)).
Proof.
  unfold deleteBatch.
  set (c := effective_concurrency concurrency).
  pose proof (effective_concurrency_positive concurrency) as Hc. fold c in Hc.
  set (b0 := {| b_world := w; ok := 0; processed := 0 |}).
  assert (Hstart : forall curIdx it, ids !! curIdx = Some it ->
            plan_task ids curIdx (delete_mapper it curIdx)) by done.
  assert (Hj0 : batch_requested group_id topic_id ids [] b0).
  { intros j Hj. by apply elem_of_nil in Hj. }
  destruct (guarded_pMap delete_mapper (delete_resume group_id topic_id ids cfg)
              ids c Hc (plan_task ids) (batch_requested group_id topic_id ids)
              Hstart delete_worker_requests schedule b0 Hj0)
    as (Hok & Hquiet & (Hdone & _ & _)).
  destruct (pMap delete_mapper (delete_resume group_id topic_id ids cfg) ids c
                 schedule b0) as [p b].
  simpl in Hok, Hquiet, Hdone.
  destruct (p_promise p) as [[rs | e] |] eqn:Hpromise; simpl; [| done | done].
  intros _ comment_id Hin.
  pose proof (pool_ok_counts ids c p Hok) as Hcount.
  pose proof Hok as (_ & _ & Hi & _ & _ & _ & _ & _ & Hresolved).
  destruct (Hresolved rs Hpromise) as [Hall _].
  assert (Hempty : p_flight p = []).
  { destruct (p_flight p); [done |]. simpl in Hcount. lia. }
  destruct (pool_idle ids c Hc p Hok Hquiet Hempty) as (_ & Hperm & _).
  apply list_elem_of_lookup in Hin as [j Hj].
  destruct (Hdone j) as (c' & Hc' & Hreq).
  { rewrite Hperm. apply elem_of_seq. apply lookup_lt_Some in Hj. lia. }
  congruence.
Qed.
End BatchRequests.

Lemma deleteBatch_requests_every_identifier_witness :
  let cfg := {| maxRetries := Some (Int 2); baseBackoffMs := Some 300 |} in
  let w := sim_world (copies 4) [] [2] in
  let result := deleteBatch 1 1 [1; 2; 3] cfg (Some (Int 2)) (replicate 9 0%nat) w in
  fst result = Ok 2
  /\ forall comment_id,
       comment_id ∈ [1; 2; 3] ->
       board_deleteComment 1 1 comment_id ∈ w_requests (snd result).
Proof.
  intros cfg w result.
  assert (Hreturned : fst result = Ok 2) by (vm_compute; reflexivity).
  split; [exact Hreturned |].
  exact (deleteBatch_requests_every_identifier 1 1 [1; 2; 3] cfg (Some (Int 2))
           (replicate 9 0%nat) w 2 Hreturned).
Defined.


(** ** The options that reach the executor *)

(** X17: between bounds in order, [clamp] yields a number within the
    bounds, the nearest bound for a number outside them and the number
    itself for one inside; clamping twice changes nothing more. *)
Theorem clamp_within_bounds (n lo hi : Z) :
  lo <= hi ->
  lo <= clamp n lo hi <= hi
  /\ (n < lo -> clamp n lo hi = lo)
  /\ (hi < n -> clamp n lo hi = hi)
  /\ (lo <= n <= hi -> clamp n lo hi = n)
  /\ clamp (clamp n lo hi) lo hi = clamp n lo hi.
Proof. unfold clamp. lia. Qed.

Lemma clamp_within_bounds_witness :
  1 <= 8
  /\ clamp 12 1 8 = 8
  /\ clamp 0 1 8 = 1.
Proof.
  assert (Hbounds : 1 <= 8) by lia.
  split; [exact Hbounds |]. split.
  - destruct (clamp_within_bounds 12 1 8 Hbounds) as (_ & _ & Hhigh & _).
    apply Hhigh. lia.
  - destruct (clamp_within_bounds 0 1 8 Hbounds) as (_ & Hlow & _).
    apply Hlow. lia.
Defined.

(** X18: the concurrency that the command line can set,
    [clamp(n, 1, 8)], is taken by [pMap] as it is, so that a run never
    has more than eight workers in flight, whatever the integer given. *)
Theorem clamped_concurrency_bounds_workers {W Item T R : Type}
    (mapper : Item -> nat -> T) (resume : T -> W -> Poll T R * W)
    (items : list Item) (n : Z) (schedule : list nat) (w : W) :
  let c := clamp n 1 8 in
  let p := fst (pMap mapper resume items (effective_concurrency (Some (Int c)))
                     schedule w) in
  effective_concurrency (Some (Int c)) = inject_Z c
  /\ Z.of_nat (length (p_flight p)) <= c <= 8.
Proof.
  intros c p.
  assert (Hc : 1 <= c <= 8) by (unfold c, clamp; lia).
  assert (Hsame : effective_concurrency (Some (Int c)) = inject_Z c)
    by (apply effective_concurrency_given; lia).
  split; [done |]. unfold p. rewrite Hsame.
  assert (Hone : (1 <= inject_Z c)%Q).
  { change (inject_Z 1 <= inject_Z c)%Q. rewrite <- Zle_Qle. lia. }
  destruct (pool_pMap mapper resume items (inject_Z c) Hone schedule w)
    as [(Hactive & Hbound & _) _].
  rewrite Qceiling_Z in Hbound. rewrite <- Hactive. lia.
Qed.

(** ** The bounded executor at its edges *)

(** X19: over no items, [pMap] fulfils its promise at once with an empty
    array: it calls no worker, and nothing that settles later changes
    that. *)
Theorem pMap_of_no_items {W Item T R : Type}
    (mapper : Item -> nat -> T) (resume : T -> W -> Poll T R * W)
    (concurrency : Q) (schedule : list nat) (w : W) :
  let result := pMap mapper resume [] concurrency schedule w in
  p_promise (fst result) = Some (Resolved [])
  /\ p_started (fst result) = []
  /\ snd result = w.
Proof.
  unfold pMap. change (next mapper [] concurrency (pool_init [])) with
    (resolve (@pool_init Item T R [])).
  set (p := resolve (@pool_init Item T R [])).
  assert (Hrun : run mapper resume [] concurrency schedule p w = (p, w)).
  { induction schedule as [|k rest IH]; [done |]. simpl. exact IH. }
  by rewrite Hrun.
Qed.

Section OneAtATime.
Context {W Item T R : Type}.
Variable mapper : Item -> nat -> T.
Variable resume : T -> W -> Poll T R * W.
Variable items : list Item.

Local Abbreviation in_order p := (p_finished p = seq 0 (length (p_finished p))).

Lemma in_order_finish (p : @Pool T R) (k curIdx : nat) (t : T) :
  pool_ok items 1 p -> in_order p -> p_flight p !! k = Some (curIdx, t) ->
  p_finished p ++ [curIdx] = seq 0 (length (p_finished p ++ [curIdx])).
Proof.
  intros Hok Horder Hk.
  destruct (in_flight_facts items 1 p k curIdx t Hok Hk) as (Hfresh & _).
  pose proof (pool_ok_counts items 1 p Hok) as Hcount.
  destruct Hok as (Hactive & Hbound & _ & _ & Hres & Hperm & _).
  change (Qceiling 1) with 1 in Hbound.
  assert (Hin : curIdx ∈ seq 0 (p_i p)).
  { rewrite <- Hperm. apply elem_of_app. left.
    apply list_elem_of_fmap. exists (curIdx, t). split; [done |].
    by apply list_elem_of_lookup_2 in Hk. }
  apply elem_of_seq in Hin.
  rewrite Horder in Hfresh. rewrite elem_of_seq in Hfresh.
  assert (Hidx : curIdx = length (p_finished p)) by lia.
  rewrite length_app. simpl. rewrite Nat.add_1_r, seq_S. simpl.
  by rewrite <- Horder, Hidx.
Qed.

Lemma in_order_settle (k : nat) (p : @Pool T R) (w : W) :
  pool_ok items 1 p -> in_order p ->
  in_order (fst (settle mapper resume items 1 k p w)).
Proof.
  intros Hok Horder. unfold settle.
  destruct (p_flight p !! k) as [[curIdx t] |] eqn:Hk; [| done].
  pose proof (in_order_finish p k curIdx t Hok Horder Hk) as Hnext.
  destruct (resume t w) as [[t' | r | e] w']; simpl; [done | |]; unfold finally.
  - destruct (next_keeps mapper items 1
                (finish curIdx (store curIdx r (with_flight (delete k (p_flight p)) p))))
      as (_ & -> & _).
    done.
  - destruct (next_keeps mapper items 1
                (finish curIdx (reject e (with_flight (delete k (p_flight p)) p))))
      as (_ & -> & _).
    destruct (reject_fields e (with_flight (delete k (p_flight p)) p))
      as (_ & Hfin & _).
    unfold finish. pool_simpl. rewrite Hfin. done.
Qed.

Lemma in_order_run (schedule : list nat) (p : @Pool T R) (w : W) :
  pool_ok items 1 p -> pool_quiet items 1 p -> in_order p ->
  in_order (fst (run mapper resume items 1 schedule p w)).
Proof.
  revert p w. induction schedule as [|k rest IH]; intros p w Hok Hquiet Horder;
    [done |].
  simpl.
  destruct (pool_settle mapper resume items 1 k p w Hok Hquiet)
    as [Hok1 Hquiet1].
  pose proof (in_order_settle k p w Hok Horder) as Horder1.
  destruct (settle mapper resume items 1 k p w) as [p1 w1].
  by apply IH.
Qed.

(** X20: with a concurrency option of 1, of 0 or below, [pMap] runs
    one worker at a time and in the order of the items: at every point
    of a run at most one worker is in flight, the items finished are the
    first ones, in order, and the worker in flight is the one of the next
    item. *)
Theorem pMap_one_at_a_time (c : Z) (schedule : list nat) (w : W) :
  c <= 1 ->
  let p := fst (pMap mapper resume items (effective_concurrency (Some (Int c)))
                     schedule w) in
  effective_concurrency (Some (Int c)) = 1%Q
  /\ (length (p_flight p) <= 1)%nat
  /\ p_finished p = seq 0 (p_resolved p)
  /\ (p_flight p).*1 = seq (p_resolved p) (length (p_flight p)).
Proof.
  intros Hc.
  assert (Hone : effective_concurrency (Some (Int c)) = 1%Q).
  { destruct (Z.eq_dec c 1) as [-> | Hne]; [reflexivity |].
    destruct (Z.eq_dec c 0) as [-> | Hnz]; [reflexivity |].
    unfold effective_concurrency, Math_max, Int. simpl.
    assert (Hzero : Qeq_bool (inject_Z c) 0 = false).
    { apply not_true_is_false. intros Heq. apply Qeq_bool_iff in Heq.
      unfold Qeq in Heq. simpl in Heq. lia. }
    rewrite Hzero.
    assert (Hless : Qle_bool 1 (inject_Z c) = false).
    { apply not_true_is_false. intros Hle. apply Qle_bool_iff in Hle.
      change (inject_Z 1 <= inject_Z c)%Q in Hle. rewrite <- Zle_Qle in Hle. lia. }
    by rewrite Hless. }
  rewrite Hone. intros p.
  assert (Hpos : (1 <= 1)%Q) by apply Qle_refl.
  destruct (pool_pMap mapper resume items 1 Hpos schedule w) as [Hok Hquiet].
  destruct (pool_pMap mapper resume items 1 Hpos [] w) as [Hok0 Hquiet0].
  unfold pMap in Hok0, Hquiet0. simpl in Hok0, Hquiet0.
  assert (Horder : in_order p).
  { unfold p, pMap. apply in_order_run; [done | done |].
    by destruct (next_keeps mapper items 1 (@pool_init Item T R items))
      as (_ & -> & _). }
  fold p in Hok, Hquiet.
  pose proof (pool_ok_nodup items 1 p Hok) as Hnodup.
  pose proof (pool_ok_counts items 1 p Hok) as Hcount.
  destruct Hok as (Hactive & Hbound & _ & _ & Hres & Hperm & _).
  change (Qceiling 1) with 1 in Hbound.
  split; [done |]. split; [lia |]. split; [by rewrite Hres |].
  destruct (p_flight p) as [|[curIdx t] [|second fl]] eqn:Hflight;
    [done | | simpl in Hactive; lia].
  simpl in *. f_equal.
  assert (Hin : curIdx ∈ seq 0 (p_i p)).
  { rewrite <- Hperm. apply list_elem_of_here. }
  apply elem_of_seq in Hin.
  apply NoDup_cons in Hnodup as [Hfresh _].
  rewrite Horder in Hfresh. rewrite elem_of_seq in Hfresh. lia.
Qed.
End OneAtATime.

Lemma pMap_one_at_a_time_witness :
  let p := fst (pMap doubling_mapper doubling_resume [1; 2; 3]
                     (effective_concurrency (Some (Int 0))) [0; 0]%nat []) in
  0 <= 1
  /\ effective_concurrency (Some (Int 0)) = 1%Q
  /\ p_finished p = [0; 1]%nat
  /\ (p_flight p).*1 = [2%nat].
Proof.
  intros p.
  assert (Hc : 0 <= 1) by lia.
  destruct (pMap_one_at_a_time doubling_mapper doubling_resume [1; 2; 3] 0
              [0; 0]%nat [] Hc) as (Hone & _ & Hfinished & Hflight).
  split_and!; [exact Hc | exact Hone | exact Hfinished | exact Hflight].
Defined.


Section BatchConsole.
Context {LC : LowerCase} {TN : ToNumber} {P : Platform}.
Variables (group_id topic_id : Z) (ids : list Z) (cfg : RetryCfg).




End BatchConsole.


(** ** The planner: streaming, and the effect of ignoring attachments *)

Section PlannerModes.
Context {LC : LowerCase}.

Lemma same_signature_ignoring (a b : Entry) :
  same_signature false a b = true -> same_signature true a b = true.
Proof.
  rewrite !same_signature_spec. intros (Hauthor & Htext & _).
  split_and!; [done | done |].
  by destruct (attachments a), (attachments b).
Qed.

Lemma planned_after_ignoring (l : list Entry) :
  forall strict loose : Entry,
    same_signature true loose strict = true ->
    planned_after false strict l `sublist_of` planned_after true loose l.
Proof.
  induction l as [|e l IH]; intros strict loose Hsame; [done |].
  cbn [planned_after].
  destruct (same_signature false strict e) eqn:Hstrict.
  - apply same_signature_ignoring in Hstrict.
    rewrite (same_signature_trans true loose strict e Hsame Hstrict).
    apply sublist_skip. by apply IH.
  - destruct (same_signature true loose e) eqn:Hloose.
    + apply sublist_cons. by apply IH.
    + apply IH. apply same_signature_refl.
Qed.

(** X23: ignoring attachments never spares a comment: every identifier
    planned for deletion when attachments are compared is also planned,
    in the same order, when they are ignored. *)
Theorem ignoring_attachments_plans_more (entries : list Entry) :
  plan_entries false entries `sublist_of` plan_entries true entries.
Proof.
  destruct entries as [|k l]; [done |].
  rewrite !plan_entries_cons. apply planned_after_ignoring, same_signature_refl.
Qed.
End PlannerModes.

Example ignoring_attachments_sample :
  let with_photo i := {| id := i; from_id := 10; text := TextStr (js "hi");
                         attachments := Some [photo 1 i] |} in
  let entries := [comment 1 10 "hi"; with_photo 2; with_photo 3] in
  plan_entries false entries = [] /\ plan_entries true entries = [2; 3].
Proof. vm_compute. done. Qed.

(** X22: [planDeletionsAsc], which consumes the comments one by one as
    [iterAsc] yields them, returns the plan of the whole sequence
    yielded, and throws when the paginator throws: a failed read leaves
    no partial plan. *)
Theorem planDeletionsAsc_plans_the_yield {LC : LowerCase} {TN : ToNumber} {P : Platform}
    (fuel : nat) (group_id topic_id startOffset : Z) (ignoreAtts : bool) (w : World) :
  planDeletionsAsc fuel group_id topic_id startOffset ignoreAtts w
  = match iterAsc fuel group_id topic_id startOffset w with
    | (Ok entries, w') => (Ok (plan_entries ignoreAtts entries), w')
    | (Raise e, w') => (Raise e, w')
    | (OutOfFuel, w') => (OutOfFuel, w')
    end.
Proof. apply planDeletionsAsc_plan. Qed.


(** ** The pauses between the attempts *)

Section RetryPauses.
Context {TN : ToNumber} {St A : Type}.
Variable random_floor : Z -> St -> Z * St.
Variable sleep : Z -> St -> St.
Variable fn : St -> Outcome A * St.

Lemma traced_backoff (attempt base max : Z) (l : list RetryEvent) (s : St) :
  backoff (random_traced random_floor) (sleep_traced sleep) attempt base max (l, s)
  = let exp := Z.min max (base * 2 ^ attempt) in
    let '(delay, s1) := random_floor exp s in
    (l ++ [Asked exp delay; Slept delay], sleep delay s1).
Proof.
  unfold backoff, random_traced, sleep_traced. cbv zeta.
  destruct (random_floor (Z.min max (base * 2 ^ attempt)) s).
  by rewrite <- app_assoc.
Qed.

Lemma traced_loop (fuel : nat) (maxR : JsNumber) (base attempt : Z)
    (l : list RetryEvent) (s : St) :
  let r := withRetries_loop (random_traced random_floor) (sleep_traced sleep)
                            (fn_traced fn) fuel maxR base attempt (l, s) in
  let r0 := withRetries_loop random_floor sleep fn fuel maxR base attempt s in
  r.1 = r0.1 /\ r.2.2 = r0.2
  /\ exists delays : list Z,
       r.2.1 = l ++ retry_trace base (attempt + 1) delays ++ last_attempt r0.1
       /\ (length delays <= fuel)%nat
       /\ (forall q : Q, maxR = Num q ->
             (length delays <= Z.to_nat (Qceiling q - attempt))%nat).
Proof.
  cbv zeta. revert attempt l s.
  induction fuel as [|fuel IH]; intros attempt l s.
  { split_and!; [done | done |]. exists []. simpl. rewrite app_nil_r.
    split_and!; [done | lia |]. intros q _. lia. }
  cbn [withRetries_loop]. unfold withRetries_turn.
  change (fn_traced fn (l, s))
    with (let '(o, s1) := fn s in
          (o, (l ++ [Attempted (match o with
                                | Thrown _ => true
                                | Returned _ => false
                                end)], s1))).
  destruct (fn s) as [[a | e] s1]; cbn beta iota zeta.
  - split_and!; [done | done |]. exists []. simpl.
    split_and!; [done | lia |]. intros q _. lia.
  - destruct (negb (retriable (err_code e)) || ge_number attempt maxR) eqn:Hstop.
    { split_and!; [done | done |]. exists []. simpl.
      split_and!; [done | lia |]. intros q _. lia. }
    apply orb_false_iff in Hstop as [_ Hmore].
    rewrite traced_backoff. unfold backoff. cbv zeta.
    destruct (random_floor (Z.min (d_maxBackoffMs DEFAULTS) (base * 2 ^ (attempt + 1)))
                           s1) as [delay s2].
    match goal with |- context [withRetries_loop _ _ _ fuel maxR base _ (?l1, _)] =>
      destruct (IH (attempt + 1) l1 (sleep delay s2))
        as (Hres & Hstate & delays & Htrace & Hfuel & Hbound)
    end.
    split_and!; [done | done |].
    exists (delay :: delays). rewrite Htrace. cbn [retry_trace length].
    rewrite <- !app_assoc. split_and!; [done | lia |].
    intros q ->. specialize (Hbound q eq_refl).
    rewrite ge_number_ceiling in Hmore. apply Z.leb_gt in Hmore. lia.
Qed.

(** X24: a call of [withRetries] is a sequence of retries ended by one
    attempt. The [k]-th retry, for [k] from 1 on, is a failed attempt,
    then one draw of a delay from the random source under the bound
    [min(3000, base * 2^k)], then one sleep for exactly the delay
    drawn; the attempt that ends the call, returned or failed, comes
    after the last sleep, so that no pause comes before the first attempt
    and none after the last. Under a [maxRetries] that is a number there
    are at most [ceil(maxRetries)] retries, [maxRetries] for a whole
    one. Watching changes neither the result nor the final state. *)
Theorem withRetries_pauses_double (cfg : RetryCfg) (fuel : nat) (s : St) :
  let maxR := default (Int (d_maxRetries DEFAULTS)) (maxRetries cfg) in
  let base := default (d_baseBackoffMs DEFAULTS) (baseBackoffMs cfg) in
  let watched := withRetries (random_traced random_floor) (sleep_traced sleep)
                             (fn_traced fn) fuel cfg ([], s) in
  let plain := withRetries random_floor sleep fn fuel cfg s in
  watched.1 = plain.1
  /\ watched.2.2 = plain.2
  /\ exists delays : list Z,
       watched.2.1 = retry_trace base 1 delays ++ last_attempt plain.1
       /\ (length delays <= fuel)%nat
       /\ (forall q : Q, maxR = Num q ->
             (length delays <= Z.to_nat (Qceiling q))%nat
             /\ ((Z.to_nat (Qceiling q) < fuel)%nat -> plain.1 <> OutOfFuel))
       /\ (forall N : Z, maxR = Int N -> (length delays <= Z.to_nat N)%nat).
Proof.
  intros maxR base watched plain.
  pose proof (traced_loop fuel maxR base 0 [] s) as Hloop. cbv zeta in Hloop.
  destruct Hloop as (Hres & Hstate & delays & Htrace & Hfuel & Hbound).
  split_and!; [done | done |].
  exists delays. split_and!; [done | done | |].
  - intros q Hq. split.
    + specialize (Hbound q Hq). by rewrite Z.sub_0_r in Hbound.
    + intros Hlong. by apply (withRetries_settles _ _ _ cfg q).
  - intros N HN. specialize (Hbound (inject_Z N) HN).
    by rewrite Z.sub_0_r, Qceiling_Z in Hbound.
Qed.
End RetryPauses.

Lemma withRetries_pauses_double_witness :
  let cfg := {| maxRetries := Some (Int 3); baseBackoffMs := Some 300 |} in
  let watched :=
    withRetries (random_traced half_random) (sleep_traced no_sleep)
                (fn_traced flooded_op) 9 cfg ([], tt) in
  watched.2.1
  = [Attempted true; Asked 600 300; Slept 300;
     Attempted true; Asked 1200 600; Slept 600;
     Attempted true; Asked 2400 1200; Slept 1200;
     Attempted true]
  /\ exists delays : list Z,
       watched.2.1 = retry_trace 300 1 delays ++ [Attempted true]
       /\ (length delays <= 3)%nat.
Proof.
  intros cfg watched. split; [reflexivity |].
  destruct (withRetries_pauses_double half_random no_sleep flooded_op cfg 9 tt)
    as (_ & _ & delays & Htrace & _ & _ & Hwhole).
  exists delays. split; [exact Htrace | exact (Hwhole 3 eq_refl)].
Defined.

(** Under the defaults the bounds double from 600 to the cap of 3000. *)
Example flooded_pauses :
  (withRetries (random_traced no_random) (sleep_traced no_sleep)
               (fn_traced flooded_op) 9 no_cfg ([], tt)).2.1
  = retry_trace 300 1 [0; 0; 0; 0; 0; 0] ++ [Attempted true]
  /\ List.map (pause_bound 300) [1; 2; 3; 4; 5; 6]
     = [600; 1200; 2400; 3000; 3000; 3000].
Proof. vm_compute. done. Qed.
